(** * Link-layer packet stack of the balloon telemetry firmware

    A shallow embedding of the radio link code of the firmware
    ([src/lora_comm.cpp], [src/packet_handler.cpp], [include/common_types.h],
    [include/balloon_config.h]) together with the properties of the
    written specification that concern it.

    Conventions.
    - A C++ unsigned integer of width w is a [Z] in [0, 2^w); every
      assignment that can leave the range is written with its wrap-around
      ([wrap8], [wrap16], [wrap32]).  [int] values are plain [Z].
    - A byte buffer is a [list Z] whose elements are bytes.
    - A pointer/length pair ([uint8_t* payload; size_t payloadLength]) is the
      list of the bytes it designates.  Where a structure keeps such a
      pointer into memory of the caller (the [payload] of a queued
      [Packet]), the list is what the pointer designates at that moment;
      a later write of the caller to that memory is a step of its own
      ([LoRa.callerWrites]).
    - State of a class is a record; a method is a function from the state
      (and what it reads from the outside world) to its result and the new
      state. *)

From Stdlib Require Import ZArith List Bool Lia.
Import ListNotations.
Local Open Scope Z_scope.

(** ** Machine integers *)

Definition wrap8 (x : Z) : Z := x mod 256.
Definition wrap16 (x : Z) : Z := x mod 65536.
Definition wrap32 (x : Z) : Z := x mod 4294967296.

(** Conversion to [int8_t]: [static_cast<int8_t>(x)], or passing [x] where an
    [int8_t] parameter is expected. *)
Definition to_int8 (x : Z) : Z := (x + 128) mod 256 - 128.

Definition is_byte (b : Z) : Prop := 0 <= b < 256.
Definition is_bytes (l : list Z) : Prop := Forall is_byte l.

Fixpoint iter {A : Type} (n : nat) (f : A -> A) (x : A) : A :=
  match n with
  | O => x
  | S k => iter k f (f x)
  end.

(** ** Constants: [include/balloon_config.h], [src/lora_comm.h] *)

Definition MAX_PACKET_SIZE : Z := 240.
Definition ADAPTIVE_SF_HIGH_THRESHOLD : Z := -80.
Definition ADAPTIVE_SF_LOW_THRESHOLD : Z := -110.
Definition ENABLE_ADAPTIVE_SF : bool := true.

(** [sizeof(PacketHeader)] for the struct of [common_types.h]: four one-byte
    fields at offsets 0..3, the [uint16_t payloadLength] at offset 4, [crc8]
    at offset 6, and one byte of tail padding for the 2-byte alignment. *)
Definition sizeof_PacketHeader : nat := 8.

(** ** Packet types: [enum class PacketType : uint8_t] of [common_types.h]

    The enumeration has sixteen enumerators; a value of the type is the
    underlying byte. *)

Module PacketType.

Inductive name : Type :=
| HEARTBEAT | TELEMETRY | GPS_DATA | CAMERA_DATA | ALERT | COMMAND_ACK
| STATUS | DEBUG
| GPS | CAMERA_THUMB | CAMERA_FULL | ACK | NACK | PING | PONG | EMERGENCY.

Definition code (n : name) : Z :=
  match n with
  | HEARTBEAT => 0x01
  | TELEMETRY => 0x02
  | GPS_DATA => 0x03
  | CAMERA_DATA => 0x04
  | ALERT => 0x05
  | COMMAND_ACK => 0x06
  | STATUS => 0x07
  | DEBUG => 0x08
  | GPS => 0x02
  | CAMERA_THUMB => 0x03
  | CAMERA_FULL => 0x04
  | ACK => 0x06
  | NACK => 0x07
  | PING => 0x08
  | PONG => 0x09
  | EMERGENCY => 0xFF
  end.

End PacketType.

(** ** Priorities: [enum class Priority : uint8_t] of [lora_comm.h] *)

Module Priority.

Inductive t : Type := EMERGENCY | GPS | TELEMETRY | CAMERA | STATUS.

Definition code (p : t) : Z :=
  match p with
  | EMERGENCY => 1
  | GPS => 2
  | TELEMETRY => 3
  | CAMERA => 4
  | STATUS => 5
  end.

(** [static_cast<int>(priority) - 1], the row of [priorityQueues]. *)
Definition index (p : t) : nat := Z.to_nat (code p - 1).

Definition eqb (p q : t) : bool := code p =? code q.

(** The rows in the order of [for (int priority = 0; priority < 5; priority++)]. *)
Definition all : list t := [EMERGENCY; GPS; TELEMETRY; CAMERA; STATUS].

End Priority.

(** ** Packets: [struct Packet] of [lora_comm.h]

    [header] is the memory image of the [LoRaPacketHeader] member (12 bytes);
    [payload] stands for the pair [payload]/[payloadLength]. *)

Record Packet : Type := mkPacket {
  header : list Z;
  type : Z;
  sequenceNumber : Z;
  payload : list Z;
  crc16 : Z;
  rssi : Z;
  snr : Z;
  valid : bool
}.

Definition payloadLength (p : Packet) : Z := Z.of_nat (length (payload p)).

Definition sizeof_LoRaPacketHeader : nat := 12.

Definition wf_Packet (p : Packet) : Prop :=
  length (header p) = sizeof_LoRaPacketHeader /\ is_bytes (header p) /\
  is_byte (type p) /\ 0 <= sequenceNumber p < 65536 /\ is_bytes (payload p).

(** ** Packet codec: the free functions at the end of [lora_comm.cpp] *)

Module Codec.

(** One turn of the inner loop of [calculateCRC16] / [calculatePacketCRC]. *)
Definition crc16_bit (crc : Z) : Z :=
  if Z.testbit crc 0
  then wrap16 (Z.lxor (Z.shiftr crc 1) 0xA001)
  else wrap16 (Z.shiftr crc 1).

(** One turn of the outer loop: [crc ^= data[i]] and the eight shifts. *)
Definition crc16_byte (crc b : Z) : Z := iter 8 crc16_bit (wrap16 (Z.lxor crc b)).

(** [LoRaManager::calculateCRC16]. *)
Definition calculateCRC16 (data : list Z) : Z := fold_left crc16_byte data 0xFFFF.

(** The bytes both [calculatePacketCRC] and [validatePacket] assemble before
    running the CRC: [headerSize] bytes of the header, the type, the
    big-endian sequence number and the payload. *)
Definition crcInput (p : Packet) : list Z :=
  firstn sizeof_PacketHeader (header p)
  ++ [wrap8 (type p);
      Z.land (Z.shiftr (sequenceNumber p) 8) 0xFF;
      Z.land (sequenceNumber p) 0xFF]
  ++ payload p.

(** [calculatePacketCRC]: the same loop as [calculateCRC16], inlined. *)
Definition calculatePacketCRC (p : Packet) : Z :=
  fold_left crc16_byte (crcInput p) 0xFFFF.

(** [LoRaManager::validatePacket]. *)
Definition validatePacket (p : Packet) : bool :=
  calculateCRC16 (crcInput p) =? crc16 p.

(** [serializePacket]: [None] is the [return false] of an oversized packet,
    [Some buffer] the first [length] bytes written. *)
Definition serializePacket (p : Packet) : option (list Z) :=
  let totalSize := Z.of_nat sizeof_PacketHeader + 1 + 2 + payloadLength p + 2 in
  if totalSize >? MAX_PACKET_SIZE then None
  else
    let crc := calculatePacketCRC p in
    Some (firstn sizeof_PacketHeader (header p)
          ++ [wrap8 (type p);
              Z.land (Z.shiftr (sequenceNumber p) 8) 0xFF;
              Z.land (sequenceNumber p) 0xFF]
          ++ payload p
          ++ [Z.land (Z.shiftr crc 8) 0xFF; Z.land crc 0xFF]).

(** [deserializePacket(buffer, length, packet)].  [dst] is the object behind
    the reference [packet] before the call: [memcpy] overwrites the first
    [sizeof(PacketHeader)] bytes of its header and leaves the rest. *)
Definition deserializePacket (buffer : list Z) (dst : Packet) : option Packet :=
  let len := length buffer in
  if (len <? sizeof_PacketHeader + 5)%nat then None
  else
    Some {| header := firstn sizeof_PacketHeader buffer
                      ++ skipn sizeof_PacketHeader (header dst);
            type := nth sizeof_PacketHeader buffer 0;
            sequenceNumber :=
              wrap16 (Z.lor (Z.shiftl (nth (sizeof_PacketHeader + 1) buffer 0) 8)
                            (nth (sizeof_PacketHeader + 2) buffer 0));
            payload := firstn (len - sizeof_PacketHeader - 3 - 2)
                              (skipn (sizeof_PacketHeader + 3) buffer);
            crc16 := wrap16 (Z.lor (Z.shiftl (nth (len - 2) buffer 0) 8)
                                   (nth (len - 1) buffer 0));
            rssi := -128;
            snr := -128;
            valid := false |}.

(** A buffer written by [serializePacket] handed to [deserializePacket]. *)
Definition roundTrip (p dst : Packet) : option Packet :=
  match serializePacket p with
  | Some buffer => deserializePacket buffer dst
  | None => None
  end.

(** The largest payload [serializePacket] accepts:
    [MAX_PACKET_SIZE - sizeof(PacketHeader) - 1 - 2 - 2]. *)
Definition MAX_SERIALIZED_PAYLOAD : nat := 227.

End Codec.


(** ** Queue entries: [struct QueuedPacket] of [lora_comm.h] *)

Record QueuedPacket : Type := mkQueued {
  packet : Packet;
  priority : Priority.t;
  enqueueTime : Z;
  transmitAttempts : Z;
  lastTransmitTime : Z;
  waitingForAck : bool
}.

(** ** The delivery manager: [class LoRaManager] of [lora_comm.cpp] *)

Module LoRa.

Definition MAX_QUEUE_SIZE : nat := 10.
Definition MAX_RETRIES : Z := 3.
Definition ACK_TIMEOUT_MS : Z := 2000.
Definition LORA_SPREADING_FACTOR : Z := 7.

(** The members the queue, retry and adaptation code reads or writes.
    [priorityQueues p] is the live part of row [Priority.index p] of the
    array, that is its first [queueSizes[index]] elements (no method reads a
    slot at or beyond that size).  The radio parameters other than the
    spreading factor and the signal-quality history are left out: the
    methods below write them at most and never read them.

    [onAir] is not a member: it records, oldest first, the buffers handed to
    [LoRa.write] for which [LoRa.endPacket()] reported success. *)
Record LoRaManager : Type := mkManager {
  spreadingFactor : Z;
  currentSpreadingFactor : Z;
  nextSequenceNumber : Z;
  priorityQueues : Priority.t -> list QueuedPacket;
  transmitting : bool;
  transmitStartTime : Z;
  lastReceiveTime : Z;
  transmitErrorCount : Z;
  receiveErrorCount : Z;
  crcErrorCount : Z;
  ackTimeoutCount : Z;
  onAir : list (list Z)
}.

(** What one call of [processQueue] obtains from outside the object: the
    frame the transceiver holds, if any ([LoRa.parsePacket()] non-zero, the
    bytes [LoRa.read()] yields, [LoRa.packetRssi()], [LoRa.packetSnr()]); the
    indeterminate initial contents of the local [Packet packet] of
    [processIncomingPacket]; the successive readings of [millis()]; and the
    result of [LoRa.endPacket()]. *)
Record Radio : Type := mkRadio {
  rx : option (list Z * Z * Z);
  local_packet : Packet;
  now_rx : Z;
  now_check : Z;
  now_tx : Z;
  now_start : Z;
  tx_ok : bool
}.

(** *** Member updates *)

Definition set_sf (m : LoRaManager) (sf cur : Z) : LoRaManager :=
  mkManager sf cur (nextSequenceNumber m) (priorityQueues m) (transmitting m)
    (transmitStartTime m) (lastReceiveTime m) (transmitErrorCount m)
    (receiveErrorCount m) (crcErrorCount m) (ackTimeoutCount m) (onAir m).

Definition set_queues (m : LoRaManager) (q : Priority.t -> list QueuedPacket)
  : LoRaManager :=
  mkManager (spreadingFactor m) (currentSpreadingFactor m) (nextSequenceNumber m)
    q (transmitting m) (transmitStartTime m) (lastReceiveTime m)
    (transmitErrorCount m) (receiveErrorCount m) (crcErrorCount m)
    (ackTimeoutCount m) (onAir m).

Definition set_transmit (m : LoRaManager) (b : bool) (start : Z) : LoRaManager :=
  mkManager (spreadingFactor m) (currentSpreadingFactor m) (nextSequenceNumber m)
    (priorityQueues m) b start (lastReceiveTime m) (transmitErrorCount m)
    (receiveErrorCount m) (crcErrorCount m) (ackTimeoutCount m) (onAir m).

Definition set_lastReceiveTime (m : LoRaManager) (t : Z) : LoRaManager :=
  mkManager (spreadingFactor m) (currentSpreadingFactor m) (nextSequenceNumber m)
    (priorityQueues m) (transmitting m) (transmitStartTime m) t
    (transmitErrorCount m) (receiveErrorCount m) (crcErrorCount m)
    (ackTimeoutCount m) (onAir m).

Definition inc_transmitErrorCount (m : LoRaManager) : LoRaManager :=
  mkManager (spreadingFactor m) (currentSpreadingFactor m) (nextSequenceNumber m)
    (priorityQueues m) (transmitting m) (transmitStartTime m) (lastReceiveTime m)
    (wrap32 (transmitErrorCount m + 1)) (receiveErrorCount m) (crcErrorCount m)
    (ackTimeoutCount m) (onAir m).

Definition inc_receiveErrorCount (m : LoRaManager) : LoRaManager :=
  mkManager (spreadingFactor m) (currentSpreadingFactor m) (nextSequenceNumber m)
    (priorityQueues m) (transmitting m) (transmitStartTime m) (lastReceiveTime m)
    (transmitErrorCount m) (wrap32 (receiveErrorCount m + 1)) (crcErrorCount m)
    (ackTimeoutCount m) (onAir m).

Definition inc_crcErrorCount (m : LoRaManager) : LoRaManager :=
  mkManager (spreadingFactor m) (currentSpreadingFactor m) (nextSequenceNumber m)
    (priorityQueues m) (transmitting m) (transmitStartTime m) (lastReceiveTime m)
    (transmitErrorCount m) (receiveErrorCount m) (wrap32 (crcErrorCount m + 1))
    (ackTimeoutCount m) (onAir m).

Definition inc_ackTimeoutCount (m : LoRaManager) : LoRaManager :=
  mkManager (spreadingFactor m) (currentSpreadingFactor m) (nextSequenceNumber m)
    (priorityQueues m) (transmitting m) (transmitStartTime m) (lastReceiveTime m)
    (transmitErrorCount m) (receiveErrorCount m) (crcErrorCount m)
    (wrap32 (ackTimeoutCount m + 1)) (onAir m).

Definition log_onAir (m : LoRaManager) (buffer : list Z) : LoRaManager :=
  mkManager (spreadingFactor m) (currentSpreadingFactor m) (nextSequenceNumber m)
    (priorityQueues m) (transmitting m) (transmitStartTime m) (lastReceiveTime m)
    (transmitErrorCount m) (receiveErrorCount m) (crcErrorCount m)
    (ackTimeoutCount m) (onAir m ++ [buffer]).

(** Row [p] of the queues replaced by [q]. *)
Definition set_queue (m : LoRaManager) (p : Priority.t) (q : list QueuedPacket)
  : LoRaManager :=
  set_queues m (fun p' => if Priority.eqb p' p then q else priorityQueues m p').

(** *** Entry updates *)

Definition set_waitingForAck (e : QueuedPacket) (b : bool) : QueuedPacket :=
  mkQueued (packet e) (priority e) (enqueueTime e) (transmitAttempts e)
    (lastTransmitTime e) b.

(** The three assignments after a successful [transmitPacket]. *)
Definition mark_transmitted (e : QueuedPacket) (now : Z) : QueuedPacket :=
  mkQueued (packet e) (priority e) (enqueueTime e)
    (wrap8 (transmitAttempts e + 1)) (wrap32 now) true.

(** Writing through a pointer to element [i] of a row. *)
Fixpoint store_at (i : nat) (e : QueuedPacket) (q : list QueuedPacket) {struct q}
  : list QueuedPacket :=
  match q, i with
  | [], _ => []
  | _ :: q', O => e :: q'
  | x :: q', S j => x :: store_at j e q'
  end.

(** *** Constructor *)

(** [LoRaManager::LoRaManager()]; [seed] is the value of [random(0xFFFF)]. *)
Definition init (seed : Z) : LoRaManager :=
  mkManager LORA_SPREADING_FACTOR LORA_SPREADING_FACTOR seed (fun _ => [])
    false 0 0 0 0 0 0 [].

(** *** Configuration and adaptation *)

(** [LoRaManager::setSpreadingFactor]. *)
Definition setSpreadingFactor (m : LoRaManager) (sf : Z) : bool * LoRaManager :=
  if (sf <? 6) || (sf >? 12) then (false, m)
  else (true, set_sf m sf sf).

(** [LoRaManager::adaptTransmissionSettings(int8_t rssi, int8_t snr)]. *)
Definition adaptTransmissionSettings (m : LoRaManager) (rssi snr : Z) : LoRaManager :=
  let rssi := to_int8 rssi in
  if negb ENABLE_ADAPTIVE_SF then m
  else if (rssi >? ADAPTIVE_SF_HIGH_THRESHOLD) && (currentSpreadingFactor m >? 7)
  then snd (setSpreadingFactor m (currentSpreadingFactor m - 1))
  else if (rssi <? ADAPTIVE_SF_LOW_THRESHOLD) && (currentSpreadingFactor m <? 12)
  then snd (setSpreadingFactor m (currentSpreadingFactor m + 1))
  else m.

(** *** Queue management *)

(** [LoRaManager::addToQueueInternal]. *)
Definition addToQueueInternal (m : LoRaManager) (queuedPacket : QueuedPacket)
  : LoRaManager :=
  let p := priority queuedPacket in
  let q := priorityQueues m p in
  if (length q <? MAX_QUEUE_SIZE)%nat
  then set_queue m p (q ++ [queuedPacket])
  else set_queue m p (firstn (MAX_QUEUE_SIZE - 1) (skipn 1 q) ++ [queuedPacket]).

(** [LoRaManager::sendPacket]; [now] is the reading of [millis()].  The
    entry holds a copy of the [Packet] structure, hence the caller's
    [payload] pointer, not a copy of the bytes: see [callerWrites]. *)
Definition sendPacket (m : LoRaManager) (pkt : Packet) (prio : Priority.t) (now : Z)
  : bool * LoRaManager :=
  (true, addToQueueInternal m (mkQueued pkt prio (wrap32 now) 0 0 false)).

(** The free function [createPacket] of [lora_comm.cpp]; [hdr] is the image
    of the header it fills from the clock and the signal averages.  The
    sequence number is set to 0 ("will be set by LoRaManager"). *)
Definition createPacket (type : Z) (payload hdr : list Z) : Packet :=
  mkPacket hdr type 0 payload 0 (-128) (-128) false.

(** [LoRaManager::sendTelemetry]. *)
Definition sendTelemetry (m : LoRaManager) (bytes hdr : list Z) (now : Z)
  : bool * LoRaManager :=
  sendPacket m (createPacket (PacketType.code PacketType.TELEMETRY) bytes hdr)
    Priority.TELEMETRY now.

Fixpoint firstNonEmpty (q : Priority.t -> list QueuedPacket) (rows : list Priority.t)
  : option (Priority.t * QueuedPacket) :=
  match rows with
  | [] => None
  | p :: rows' =>
      match q p with
      | e :: _ => Some (p, e)
      | [] => firstNonEmpty q rows'
      end
  end.

(** [LoRaManager::getNextPacket]: the row of the element pointed to (the
    pointer is to element 0 of that row) and the element; [None] is
    [nullptr]. *)
Definition getNextPacket (m : LoRaManager) : option (Priority.t * QueuedPacket) :=
  firstNonEmpty (priorityQueues m) Priority.all.

(** The shift loop and the decrement of [removePacketFromQueue] on one row. *)
Definition removeAt (index : nat) (q : list QueuedPacket) : list QueuedPacket :=
  firstn (length q - 1) (firstn index q ++ skipn (S index) q).

(** [LoRaManager::removePacketFromQueue]. *)
Definition removePacketFromQueue (m : LoRaManager) (p : Priority.t) (index : nat)
  : LoRaManager :=
  set_queue m p (removeAt index (priorityQueues m p)).

(** *** Transmission and reception *)

(** [LoRaManager::transmitPacket]. *)
Definition transmitPacket (m : LoRaManager) (pkt : Packet) (io : Radio)
  : bool * LoRaManager :=
  match Codec.serializePacket pkt with
  | None => (false, m)
  | Some buffer =>
      if tx_ok io then (true, set_transmit (log_onAir m buffer) false 0)
      else (false, m)
  end.

(** [LoRaManager::receivePacket]. *)
Definition receivePacket (m : LoRaManager) (io : Radio) : option Packet * LoRaManager :=
  match rx io with
  | None => (None, m)
  | Some (bytes, packetRssi, packetSnr) =>
      let buffer := firstn (Z.to_nat MAX_PACKET_SIZE) bytes in
      let m1 := set_lastReceiveTime m (wrap32 (now_rx io)) in
      match Codec.deserializePacket buffer (local_packet io) with
      | Some pkt =>
          if Codec.validatePacket pkt
          then (Some (mkPacket (header pkt) (type pkt) (sequenceNumber pkt)
                        (payload pkt) (crc16 pkt)
                        (to_int8 packetRssi) (to_int8 packetSnr) true), m1)
          else (None, inc_crcErrorCount m1)
      | None => (None, inc_receiveErrorCount m1)
      end
  end.

(** *** ACK and NACK handling *)

(** The condition of the loops of [handleAck] and [handleNack]:
    [qp->packet.sequenceNumber == seq && qp->waitingForAck]. *)
Definition awaited (seq : Z) (e : QueuedPacket) : bool :=
  (sequenceNumber (packet e) =? seq) && waitingForAck e.

(** The inner loop of [handleAck]/[handleNack] on one row: the first index
    whose entry has the sequence number and is waiting. *)
Fixpoint findInRow (seq : Z) (q : list QueuedPacket) (i : nat) : option nat :=
  match q with
  | [] => None
  | e :: q' => if awaited seq e then Some i else findInRow seq q' (S i)
  end.

(** The outer loop over the rows. *)
Fixpoint findWaiting (q : Priority.t -> list QueuedPacket) (seq : Z)
  (rows : list Priority.t) : option (Priority.t * nat) :=
  match rows with
  | [] => None
  | p :: rows' =>
      match findInRow seq (q p) 0 with
      | Some i => Some (p, i)
      | None => findWaiting q seq rows'
      end
  end.

(** [(payload[0] << 8) | payload[1]] stored in a [uint16_t]. *)
Definition payloadSequence (pkt : Packet) : Z :=
  wrap16 (Z.lor (Z.shiftl (nth 0 (payload pkt) 0) 8) (nth 1 (payload pkt) 0)).

(** [LoRaManager::handleAck]. *)
Definition handleAck (m : LoRaManager) (ack : Packet) : LoRaManager :=
  if payloadLength ack <? 4 then m
  else
    let ackSequence := payloadSequence ack in
    let rssi := to_int8 (nth 3 (payload ack) 0) in
    match findWaiting (priorityQueues m) ackSequence Priority.all with
    | Some (p, i) =>
        adaptTransmissionSettings (removePacketFromQueue m p i) rssi (snr ack)
    | None => m
    end.

(** [LoRaManager::handleNack]. *)
Definition handleNack (m : LoRaManager) (nack : Packet) : LoRaManager :=
  if payloadLength nack <? 3 then m
  else
    let nackSequence := payloadSequence nack in
    match findWaiting (priorityQueues m) nackSequence Priority.all with
    | Some (p, i) =>
        let q := priorityQueues m p in
        match nth_error q i with
        | Some qp => set_queue m p (store_at i (set_waitingForAck qp false) q)
        | None => m
        end
    | None => m
    end.

(** [LoRaManager::processIncomingPacket]. *)
Definition processIncomingPacket (m : LoRaManager) (io : Radio) : LoRaManager :=
  match receivePacket m io with
  | (Some pkt, m1) =>
      if type pkt =? PacketType.code PacketType.ACK then handleAck m1 pkt
      else if type pkt =? PacketType.code PacketType.NACK then handleNack m1 pkt
      else m1
  | (None, m1) => m1
  end.

(** *** The tick *)

(** [millis() - nextPacket->lastTransmitTime > ACK_TIMEOUT_MS] in [uint32_t]. *)
Definition ackTimedOut (now : Z) (e : QueuedPacket) : bool :=
  wrap32 (wrap32 now - lastTransmitTime e) >? ACK_TIMEOUT_MS.

(** [LoRaManager::processQueue].  [nextPacket] points to element 0 of row
    [row]; assignments through it are [store_at 0].  The index handed to
    [removePacketFromQueue] is the distance of [nextPacket] from the start of
    the row named by the entry's own [priority] member, which is 0 as long as
    every entry sits in the row of its [priority] (see [rows_consistent]). *)
Definition processQueue (m : LoRaManager) (io : Radio) : bool * LoRaManager :=
  let m := processIncomingPacket m io in
  match getNextPacket m with
  | None => (false, m)
  | Some (row, nextPacket) =>
      if waitingForAck nextPacket && negb (ackTimedOut (now_check io) nextPacket)
      then (false, m)
      else
        let (nextPacket, m) :=
          if waitingForAck nextPacket
          then
            let e := set_waitingForAck nextPacket false in
            (e, inc_ackTimeoutCount
                  (set_queue m row (store_at 0 e (priorityQueues m row))))
          else (nextPacket, m) in
        if transmitAttempts nextPacket >=? MAX_RETRIES
        then
          (false,
           inc_transmitErrorCount (removePacketFromQueue m (priority nextPacket) 0))
        else
          match transmitPacket m (packet nextPacket) io with
          | (true, m) =>
              let e := mark_transmitted nextPacket (now_tx io) in
              (true,
               set_transmit (set_queue m row (store_at 0 e (priorityQueues m row)))
                 true (wrap32 (now_start io)))
          | (false, m) => (false, inc_transmitErrorCount m)
          end
  end.

(** *** Reachable states *)

(** The states a manager goes through from its construction under calls of
    the public [sendPacket] and [processQueue] and of the handlers
    [handleAck] and [handleNack]. *)
Inductive reachable : LoRaManager -> Prop :=
| reach_init (seed : Z) : reachable (init seed)
| reach_sendPacket (m : LoRaManager) (pkt : Packet) (prio : Priority.t) (now : Z) :
    reachable m -> reachable (snd (sendPacket m pkt prio now))
| reach_processQueue (m : LoRaManager) (io : Radio) :
    reachable m -> reachable (snd (processQueue m io))
| reach_handleAck (m : LoRaManager) (ack : Packet) :
    reachable m -> reachable (handleAck m ack)
| reach_handleNack (m : LoRaManager) (nack : Packet) :
    reachable m -> reachable (handleNack m nack).

(** *** What the properties speak about *)

(** Number of entries of a row, respectively of all rows, that wait for an
    acknowledgement. *)
Definition waitingInRow (q : list QueuedPacket) : nat :=
  length (filter waitingForAck q).

Definition waitingCount (m : LoRaManager) : nat :=
  fold_right (fun p n => (waitingInRow (priorityQueues m p) + n)%nat) 0%nat
    Priority.all.

Definition idle (e : QueuedPacket) : Prop := waitingForAck e = false.

(** The four statistics counters of the class. *)
Definition counters (m : LoRaManager) : Z * Z * Z * Z :=
  (transmitErrorCount m, receiveErrorCount m, crcErrorCount m, ackTimeoutCount m).

(** No row holds more than the [MAX_QUEUE_SIZE] slots of the array. *)
Definition rows_bounded (m : LoRaManager) : Prop :=
  forall p, (length (priorityQueues m p) <= MAX_QUEUE_SIZE)%nat.

(** Every entry sits in the row its [priority] member names. *)
Definition rows_consistent (m : LoRaManager) : Prop :=
  forall p e, In e (priorityQueues m p) -> priority e = p.

(** What holds of row [p] in every reachable state: it fits the array, its
    entries carry priority [p], and behind its head no entry waits for an
    acknowledgement. *)
Definition row_ok (p : Priority.t) (q : list QueuedPacket) : Prop :=
  (length q <= MAX_QUEUE_SIZE)%nat /\
  (forall e, In e q -> priority e = p) /\
  Forall idle (tl q).

Definition rows_ok (m : LoRaManager) : Prop :=
  forall p, row_ok p (priorityQueues m p).

(** Entry [i] of row [p] is the first one, rows in priority order and each
    row from its head, that waits for an acknowledgement of [seq]. *)
Definition firstAwaited (m : LoRaManager) (seq : Z) (p : Priority.t) (i : nat)
  : Prop :=
  (exists e, nth_error (priorityQueues m p) i = Some e /\ awaited seq e = true) /\
  (forall j e, (j < i)%nat -> nth_error (priorityQueues m p) j = Some e ->
               awaited seq e = false) /\
  (forall p' e, Priority.code p' < Priority.code p ->
                In e (priorityQueues m p') -> awaited seq e = false).

(** Successive calls of [adaptTransmissionSettings], one for each
    [(rssi, snr)] sample. *)
Definition adaptAll (m : LoRaManager) (samples : list (Z * Z)) : LoRaManager :=
  fold_left (fun m s => adaptTransmissionSettings m (fst s) (snd s)) samples m.

(** Successive calls of [processQueue], one for each element of [ios]. *)
Definition ticks (m : LoRaManager) (ios : list Radio) : LoRaManager :=
  fold_left (fun m io => snd (processQueue m io)) ios m.

(** A tick on which nothing is received. *)
Definition silent (io : Radio) : Prop := rx io = None.

(** A tick on which nothing is received and the transmit primitive works. *)
Definition clear (io : Radio) : Prop := silent io /\ tx_ok io = true.

(** The packet with other bytes behind its [payload] pointer. *)
Definition set_payload (pkt : Packet) (bytes : list Z) : Packet :=
  mkPacket (header pkt) (type pkt) (sequenceNumber pkt) bytes (crc16 pkt)
    (rssi pkt) (snr pkt) (valid pkt).

Definition overwrite (e : QueuedPacket) (bytes : list Z) : QueuedPacket :=
  mkQueued (set_payload (packet e) bytes) (priority e) (enqueueTime e)
    (transmitAttempts e) (lastTransmitTime e) (waitingForAck e).

(** The queue keeps the [payload] pointer the caller of [createPacket]
    handed in ([packet.payload = const_cast<uint8_t*>(payload)]) and
    [serializePacket] reads the bytes behind it at each transmission.
    [callerWrites m p i bytes] is the manager after the caller has written
    [bytes] over the buffer that the payload pointer of entry [i] of row [p]
    designates: the entry keeps its [payloadLength], so only a write of
    that many bytes is one.  Entries that share a buffer are written one by
    one. *)
Definition callerWrites (m : LoRaManager) (p : Priority.t) (i : nat) (bytes : list Z)
  : LoRaManager :=
  match nth_error (priorityQueues m p) i with
  | Some e =>
      if (length bytes =? length (payload (packet e)))%nat
      then set_queue m p (store_at i (overwrite e bytes) (priorityQueues m p))
      else m
  | None => m
  end.

(** What happens to a manager between two calls of [sendPacket]: a call of
    [processQueue], or a write of the caller to a payload buffer. *)
Inductive Event : Type :=
| Tick (io : Radio)
| CallerWrite (p : Priority.t) (i : nat) (bytes : list Z).

Definition step (m : LoRaManager) (ev : Event) : LoRaManager :=
  match ev with
  | Tick io => snd (processQueue m io)
  | CallerWrite p i bytes => callerWrites m p i bytes
  end.

Definition run (m : LoRaManager) (evs : list Event) : LoRaManager :=
  fold_left step evs m.










(** *** Scenarios *)

(** A status frame with sequence number [n] and the one payload byte [n]. *)
Definition statusFrame (n : Z) : Packet :=
  mkPacket (repeat 0 12) (PacketType.code PacketType.STATUS) n [n] 0 (-128) (-128) false.

(** A call environment with nothing received, all clock readings [now] and
    the given result of [LoRa.endPacket()]. *)
Definition quietRadio (now : Z) (ok : bool) : Radio :=
  mkRadio None (statusFrame 0) now now now now ok.

(** A call environment in which the transceiver holds [bytes]. *)
Definition hearing (bytes : list Z) : Radio :=
  mkRadio (Some (bytes, -60, 8)) (statusFrame 0) 100 100 100 100 true.

(** A manager whose status row is full: ten status frames with sequence
    numbers 1 to 10 sent to a fresh manager at times 1 to 10. *)
Definition fullStatusRow : LoRaManager :=
  fold_left (fun m n => snd (sendPacket m (statusFrame n) Priority.STATUS n))
    [1; 2; 3; 4; 5; 6; 7; 8; 9; 10] (init 0).

(** A fresh manager to which one status frame with sequence number 1 was
    sent at time 0. *)
Definition oneStatusQueued : LoRaManager :=
  snd (sendPacket (init 0) (statusFrame 1) Priority.STATUS 0).

(** A status frame in flight overtaken by an emergency frame: the status
    frame is sent and transmitted, then an emergency frame is sent and the
    next tick transmits it as well. *)
Definition overtaken : LoRaManager :=
  let m1 := snd (sendPacket (init 0) (statusFrame 1) Priority.STATUS 0) in
  let m2 := snd (processQueue m1 (quietRadio 10 true)) in
  let m3 := snd (sendPacket m2 (statusFrame 2) Priority.EMERGENCY 20) in
  snd (processQueue m3 (quietRadio 30 true)).

(** A fresh manager to which one status frame with sequence number 42 was
    sent, the four ticks of a timeout cycle, each later than the one before
    by more than the timeout, and the buffer the frame serializes to. *)
Definition status42Queued : LoRaManager :=
  snd (sendPacket (init 0) (statusFrame 42) Priority.STATUS 0).


Definition status42Buffer : list Z :=
  match Codec.serializePacket (statusFrame 42) with
  | Some buffer => buffer
  | None => []
  end.

(** The same manager after one tick: the frame has been transmitted and
    waits for its acknowledgement. *)
Definition awaiting42 : LoRaManager :=
  snd (processQueue status42Queued (quietRadio 10 true)).



(** The timeout cycle of the status frame 42 with a write of the caller
    after the first transmission: the payload byte becomes 7. *)
Definition rewrittenCycle : list Event :=
  [Tick (quietRadio 5 true); CallerWrite Priority.STATUS 0 [7];
   Tick (quietRadio 2006 true); Tick (quietRadio 4007 true);
   Tick (quietRadio 6008 true)].

(** The buffer a peer's [sendStatus(text, length)] puts on air: the
    serialized packet of type [PacketType::STATUS] that [createPacket]
    builds (sequence number 0). *)
Definition statusOnAir (text : list Z) : list Z :=
  match Codec.serializePacket
          (createPacket (PacketType.code PacketType.STATUS) text (repeat 0 12)) with
  | Some buffer => buffer
  | None => []
  end.

End LoRa.

(** ** The framer and the packet production interface: [class PacketHandler]
    of [packet_handler.cpp] *)

Module Handler.

Definition PACKET_START_BYTE1 : Z := 0xAA.
Definition PACKET_START_BYTE2 : Z := 0x55.
Definition PACKET_END_BYTE1 : Z := 0x0D.
Definition PACKET_END_BYTE2 : Z := 0x0A.
Definition MAX_PAYLOAD_SIZE : Z := 200.
Definition CRC8_POLYNOMIAL : Z := 0x07.
Definition CRC16_POLYNOMIAL : Z := 0x1021.
Definition UINT32_MAX : Z := 4294967295.

(** [sizeof(PacketFooter)], [sizeof(receiveBuffer)] and the length of
    [packetQueue]. *)
Definition sizeof_PacketFooter : nat := 4.
Definition sizeof_receiveBuffer : nat := 512.
Definition QUEUE_LENGTH : nat := 16.

(** The enumerators of [PacketPriority] the handler uses. *)
Definition PRIORITY_LOW : Z := 0.
Definition PRIORITY_NORMAL : Z := 1.

(** [struct PacketHeader] of [common_types.h]. *)
Record PacketHeader : Type := mkHeader {
  startByte1 : Z;
  startByte2 : Z;
  packetType : Z;
  sequenceNumber : Z;
  payloadLength : Z;
  crc8 : Z
}.

(** The header read out of the first [sizeof(PacketHeader)] bytes of a
    buffer, as [memcpy(&currentHeader, ...)] and the [reinterpret_cast] of
    [verifyCRC] do on the little-endian target: the [uint16_t] at offset 4
    has its low byte first. *)
Definition header_of_bytes (b : list Z) : PacketHeader :=
  mkHeader (nth 0 b 0) (nth 1 b 0) (nth 2 b 0) (nth 3 b 0)
    (nth 4 b 0 + 256 * nth 5 b 0) (nth 6 b 0).

Definition zero_header : PacketHeader := mkHeader 0 0 0 0 0 0.

(** [struct PacketBuffer]; [size] and [capacity] are the length of [data]. *)
Record PacketBuffer : Type := mkBuffer {
  data : list Z;
  timestamp : Z;
  priority : Z;
  ready : bool
}.

(** The members of the handler.  [packetQueue] is the live part of the
    array, its first [queueSize] elements. *)
Record PacketHandler : Type := mkHandler {
  currentSequenceNumber : Z;
  receiveBuffer : list Z;
  receiveIndex : nat;
  inPacket : bool;
  currentHeader : PacketHeader;
  expectedPayloadSize : Z;
  lastPacketTime : Z;
  packetQueue : list PacketBuffer;
  maxPacketSize : Z;
  packetsSent : Z;
  packetsReceived : Z;
  packetsDropped : Z;
  crcErrors : Z
}.

(** *** Member updates *)

Definition set_currentSequenceNumber (h : PacketHandler) (s : Z) : PacketHandler :=
  mkHandler s (receiveBuffer h) (receiveIndex h) (inPacket h) (currentHeader h)
    (expectedPayloadSize h) (lastPacketTime h) (packetQueue h) (maxPacketSize h)
    (packetsSent h) (packetsReceived h) (packetsDropped h) (crcErrors h).

Definition set_receive (h : PacketHandler) (buf : list Z) (idx : nat) (inp : bool)
  : PacketHandler :=
  mkHandler (currentSequenceNumber h) buf idx inp (currentHeader h)
    (expectedPayloadSize h) (lastPacketTime h) (packetQueue h) (maxPacketSize h)
    (packetsSent h) (packetsReceived h) (packetsDropped h) (crcErrors h).

Definition set_header (h : PacketHandler) (hdr : PacketHeader) (expected : Z)
  : PacketHandler :=
  mkHandler (currentSequenceNumber h) (receiveBuffer h) (receiveIndex h)
    (inPacket h) hdr expected (lastPacketTime h) (packetQueue h)
    (maxPacketSize h) (packetsSent h) (packetsReceived h) (packetsDropped h)
    (crcErrors h).

Definition set_lastPacketTime (h : PacketHandler) (t : Z) : PacketHandler :=
  mkHandler (currentSequenceNumber h) (receiveBuffer h) (receiveIndex h)
    (inPacket h) (currentHeader h) (expectedPayloadSize h) t (packetQueue h)
    (maxPacketSize h) (packetsSent h) (packetsReceived h) (packetsDropped h)
    (crcErrors h).

Definition set_packetQueue (h : PacketHandler) (q : list PacketBuffer)
  : PacketHandler :=
  mkHandler (currentSequenceNumber h) (receiveBuffer h) (receiveIndex h)
    (inPacket h) (currentHeader h) (expectedPayloadSize h) (lastPacketTime h) q
    (maxPacketSize h) (packetsSent h) (packetsReceived h) (packetsDropped h)
    (crcErrors h).

Definition inc_packetsReceived (h : PacketHandler) : PacketHandler :=
  mkHandler (currentSequenceNumber h) (receiveBuffer h) (receiveIndex h)
    (inPacket h) (currentHeader h) (expectedPayloadSize h) (lastPacketTime h)
    (packetQueue h) (maxPacketSize h) (packetsSent h)
    (wrap32 (packetsReceived h + 1)) (packetsDropped h) (crcErrors h).

Definition inc_packetsDropped (h : PacketHandler) : PacketHandler :=
  mkHandler (currentSequenceNumber h) (receiveBuffer h) (receiveIndex h)
    (inPacket h) (currentHeader h) (expectedPayloadSize h) (lastPacketTime h)
    (packetQueue h) (maxPacketSize h) (packetsSent h) (packetsReceived h)
    (wrap32 (packetsDropped h + 1)) (crcErrors h).

Definition inc_crcErrors (h : PacketHandler) : PacketHandler :=
  mkHandler (currentSequenceNumber h) (receiveBuffer h) (receiveIndex h)
    (inPacket h) (currentHeader h) (expectedPayloadSize h) (lastPacketTime h)
    (packetQueue h) (maxPacketSize h) (packetsSent h) (packetsReceived h)
    (packetsDropped h) (wrap32 (crcErrors h + 1)).

(** [PacketHandler::PacketHandler()]. *)
Definition init : PacketHandler :=
  mkHandler 0 (repeat 0 sizeof_receiveBuffer) 0 false zero_header 0 0 []
    MAX_PACKET_SIZE 0 0 0 0.

(** *** Checksums *)

Definition crc8_bit (crc : Z) : Z :=
  if Z.testbit crc 7
  then wrap8 (Z.lxor (Z.shiftl crc 1) CRC8_POLYNOMIAL)
  else wrap8 (Z.shiftl crc 1).

(** [PacketHandler::calculateCRC8]. *)
Definition calculateCRC8 (bytes : list Z) : Z :=
  fold_left (fun crc b => iter 8 crc8_bit (wrap8 (Z.lxor crc b))) bytes 0x00.

Definition crc16_bit (crc : Z) : Z :=
  if Z.testbit crc 15
  then wrap16 (Z.lxor (Z.shiftl crc 1) CRC16_POLYNOMIAL)
  else wrap16 (Z.shiftl crc 1).

(** [PacketHandler::calculateCRC16]. *)
Definition calculateCRC16 (bytes : list Z) : Z :=
  fold_left (fun crc b => iter 8 crc16_bit (wrap16 (Z.lxor crc (Z.shiftl b 8))))
    bytes 0x0000.

(** [PacketHandler::uint16ToBytes]. *)
Definition uint16ToBytes (value : Z) : list Z :=
  [wrap8 (Z.shiftr value 8); wrap8 (Z.land value 0xFF)].

(** Bytes [start .. start+len-1] of a buffer. *)
Definition slice (start len : nat) (l : list Z) : list Z :=
  firstn len (skipn start l).

(** [buffer[i] = v]. *)
Definition store (i : nat) (v : Z) (buffer : list Z) : list Z :=
  if (i <? length buffer)%nat then firstn i buffer ++ v :: skipn (S i) buffer
  else buffer.

(** [PacketHandler::verifyCRC]. *)
Definition verifyCRC (h : PacketHandler) (pkt : list Z) (length : nat)
  : bool * PacketHandler :=
  if (length <? sizeof_PacketHeader + sizeof_PacketFooter)%nat then (false, h)
  else
    let headerCRC := calculateCRC8 (firstn (sizeof_PacketHeader - 1) pkt) in
    let hdr := header_of_bytes pkt in
    if negb (headerCRC =? crc8 hdr) then (false, inc_crcErrors h)
    else
      let payloadSize := Z.to_nat (payloadLength hdr) in
      let payloadCRC := calculateCRC16 (slice sizeof_PacketHeader payloadSize pkt) in
      let footer_crc16 :=
        nth (sizeof_PacketHeader + payloadSize) pkt 0
        + 256 * nth (sizeof_PacketHeader + payloadSize + 1) pkt 0 in
      if negb (payloadCRC =? footer_crc16) then (false, inc_crcErrors h)
      else (true, h).

(** [PacketHandler::validatePacket]. *)
Definition validatePacket (h : PacketHandler) (pkt : list Z)
  : bool * PacketHandler :=
  let len := length pkt in
  if (len <? sizeof_PacketHeader + sizeof_PacketFooter)%nat then (false, h)
  else if negb ((nth 0 pkt 0 =? PACKET_START_BYTE1)
                && (nth 1 pkt 0 =? PACKET_START_BYTE2)) then (false, h)
  else if negb ((nth (len - 2) pkt 0 =? PACKET_END_BYTE1)
                && (nth (len - 1) pkt 0 =? PACKET_END_BYTE2)) then (false, h)
  else verifyCRC h pkt len.

(** *** The receive parser *)

(** [PacketHandler::resetReceiveState]. *)
Definition resetReceiveState (h : PacketHandler) : PacketHandler :=
  set_header (set_receive h (receiveBuffer h) 0 false) zero_header 0.

(** [PacketHandler::validateHeader]. *)
Definition validateHeader (hdr : PacketHeader) : bool :=
  if (packetType hdr <? PacketType.code PacketType.HEARTBEAT)
     || (packetType hdr >? PacketType.code PacketType.DEBUG) then false
  else if payloadLength hdr >? MAX_PAYLOAD_SIZE then false
  else true.

(** [PacketHandler::processCompletePacket]: the increment of
    [packetsReceived] happens twice, once in the body and once in
    [updateStatistics]. *)
Definition processCompletePacket (h : PacketHandler) : bool * PacketHandler :=
  match verifyCRC h (receiveBuffer h) (receiveIndex h) with
  | (false, h) => (false, inc_crcErrors h)
  | (true, h) => (true, inc_packetsReceived (inc_packetsReceived h))
  end.

(** The part of [processReceivedByte] after the header block: the test for a
    complete packet. *)
Definition checkComplete (h : PacketHandler) : bool * PacketHandler :=
  let totalExpectedSize :=
    Z.of_nat sizeof_PacketHeader + expectedPayloadSize h
    + Z.of_nat sizeof_PacketFooter in
  if Z.of_nat (receiveIndex h) >=? totalExpectedSize
  then
    let (success, h) := processCompletePacket h in
    (success, resetReceiveState h)
  else (false, h).

(** [PacketHandler::processReceivedByte]. *)
Definition processReceivedByte (h : PacketHandler) (byte : Z)
  : bool * PacketHandler :=
  if negb (inPacket h)
  then
    if (receiveIndex h =? 0)%nat && (byte =? PACKET_START_BYTE1)
    then (false, set_receive h (store (receiveIndex h) byte (receiveBuffer h))
                   (S (receiveIndex h)) (inPacket h))
    else if (receiveIndex h =? 1)%nat && (byte =? PACKET_START_BYTE2)
    then (false, set_receive h (store (receiveIndex h) byte (receiveBuffer h))
                   (S (receiveIndex h)) true)
    else (false, set_receive h (receiveBuffer h) 0 (inPacket h))
  else
    let h := set_receive h (store (receiveIndex h) byte (receiveBuffer h))
               (S (receiveIndex h)) (inPacket h) in
    if (receiveIndex h =? sizeof_PacketHeader)%nat
    then
      let hdr := header_of_bytes (receiveBuffer h) in
      let h := set_header h hdr (expectedPayloadSize h) in
      if negb (validateHeader hdr)
      then (false, inc_crcErrors (resetReceiveState h))
      else
        let h := set_header h hdr (payloadLength hdr) in
        let totalSize :=
          Z.of_nat sizeof_PacketHeader + expectedPayloadSize h
          + Z.of_nat sizeof_PacketFooter in
        if totalSize >? Z.of_nat sizeof_receiveBuffer
        then (false, resetReceiveState h)
        else checkComplete h
    else checkComplete h.

(** The loop of [processIncomingData]. *)
Fixpoint feed (h : PacketHandler) (bytes : list Z) (packetProcessed : bool)
  : bool * PacketHandler :=
  match bytes with
  | [] => (packetProcessed, h)
  | b :: rest =>
      let (r, h) := processReceivedByte h b in
      feed h rest (if r then true else packetProcessed)
  end.

(** [PacketHandler::processIncomingData] on a non-null [data]; [now] is the
    reading of [millis()]. *)
Definition processIncomingData (h : PacketHandler) (bytes : list Z) (now : Z)
  : bool * PacketHandler :=
  if (length bytes =? 0)%nat then (false, h)
  else
    let (packetProcessed, h) := feed h bytes false in
    if packetProcessed then (true, set_lastPacketTime h (wrap32 now))
    else (false, h).

(** *** Packet assembly and the outgoing buffer *)

(** [PacketHandler::assemblePacket].  [block] is the indeterminate content
    of the [packetSize] bytes [malloc] returns (the allocation is taken to
    succeed).  The header checksum runs over [sizeof(PacketHeader) - 1 = 7]
    bytes while only six have been written, and the writes stop one byte
    short of [packetSize]; both bytes come from [block].  [None] is the
    [return false] of an oversized packet. *)
Definition assemblePacket (h : PacketHandler) (type : Z) (payload block : list Z)
  : option (list Z) :=
  let payloadSize := length payload in
  let packetSize := (sizeof_PacketHeader + payloadSize + sizeof_PacketFooter)%nat in
  if Z.of_nat packetSize >? maxPacketSize h then None
  else
    let written :=
      [PACKET_START_BYTE1; PACKET_START_BYTE2; wrap8 type; currentSequenceNumber h]
      ++ uint16ToBytes (wrap16 (Z.of_nat payloadSize)) in
    let headerCRC :=
      calculateCRC8 (firstn (sizeof_PacketHeader - 1) (written ++ skipn 6 block)) in
    Some (written ++ [headerCRC] ++ payload
          ++ uint16ToBytes (calculateCRC16 payload)
          ++ [PACKET_END_BYTE1; PACKET_END_BYTE2]
          ++ skipn (7 + payloadSize + 4) block).

(** [PacketHandler::findOldestLowPriorityPacket]: the loop from index [i]
    with the running [oldestIndex] and [oldestTime]. *)
Fixpoint findOldestFrom (q : list PacketBuffer) (i oldestIndex : nat) (oldestTime : Z)
  : nat :=
  match q with
  | [] => oldestIndex
  | b :: q' =>
      if ((priority b =? PRIORITY_LOW) || (priority b =? PRIORITY_NORMAL))
         && (timestamp b <? oldestTime)
      then findOldestFrom q' (S i) i (timestamp b)
      else findOldestFrom q' (S i) oldestIndex oldestTime
  end.

Definition findOldestLowPriorityPacket (h : PacketHandler) : nat :=
  findOldestFrom (packetQueue h) 0 QUEUE_LENGTH UINT32_MAX.

(** The search for the insertion point in [addToBuffer]. *)
Fixpoint insertPosFrom (prio : Z) (q : list PacketBuffer) (i : nat) : nat :=
  match q with
  | [] => i
  | b :: q' => if prio >? priority b then i else insertPosFrom prio q' (S i)
  end.

(** [PacketHandler::addToBuffer] (the allocation of the copy is taken to
    succeed); [now] is the reading of [millis()]. *)
Definition addToBuffer (h : PacketHandler) (bytes : list Z) (prio : Z) (now : Z)
  : bool * PacketHandler :=
  let evicted :=
    if (QUEUE_LENGTH <=? length (packetQueue h))%nat
    then
      let oldestIndex := findOldestLowPriorityPacket h in
      if (oldestIndex <? QUEUE_LENGTH)%nat
      then Some (firstn oldestIndex (packetQueue h)
                 ++ skipn (S oldestIndex) (packetQueue h))
      else None
    else Some (packetQueue h) in
  match evicted with
  | None => (false, inc_packetsDropped h)
  | Some q =>
      let insertPos := insertPosFrom prio q 0 in
      (true,
       set_packetQueue h
         (firstn insertPos q
          ++ mkBuffer bytes (wrap32 now) prio true :: skipn insertPos q))
  end.

(** [PacketHandler::createPacket]. *)
Definition createPacket (h : PacketHandler) (type : Z) (payload block : list Z)
  (now : Z) : bool * PacketHandler :=
  if Z.of_nat (length payload) >? MAX_PAYLOAD_SIZE then (false, h)
  else
    match assemblePacket h type payload block with
    | None => (false, h)
    | Some packetData => addToBuffer h packetData PRIORITY_NORMAL now
    end.

(** [PacketHandler::createHeartbeatPacket]. *)
Definition createHeartbeatPacket (h : PacketHandler) (block : list Z) (now : Z)
  : bool * PacketHandler :=
  let h := set_currentSequenceNumber h (wrap8 (currentSequenceNumber h + 1)) in
  createPacket h (PacketType.code PacketType.HEARTBEAT)
    [currentSequenceNumber h] block now.

(** [PacketHandler::createStatusPacket] on a non-null string, given as the
    bytes before its terminator. *)
Definition createStatusPacket (h : PacketHandler) (status block : list Z) (now : Z)
  : bool * PacketHandler :=
  createPacket h (PacketType.code PacketType.STATUS) (firstn 100 status) block now.



(** A frame the receive parser accepts: heartbeat, sequence byte 1, three
    payload bytes 1 2 3.  Bytes 4-5 are the payload length as the parser
    reads it, byte 6 is the header checksum (which the parser computes over
    bytes 0..6), byte 7 is the padding byte of the header, bytes 11-12 the
    payload checksum 0x6131 as the parser reads it, then the end bytes. *)
Definition acceptedFrame : list Z :=
  [0xAA; 0x55; 0x01; 0x01; 0x03; 0x00; 0x26; 0x00;
   0x01; 0x02; 0x03;
   0x31; 0x61; 0x0D; 0x0A].

(** A handler whose sequence counter stands at [s]. *)
Definition counterAt (s : Z) : PacketHandler := set_currentSequenceNumber init s.

End Handler.

(** ** Further methods of [LoRaManager] *)

Module LoRaOps.
Import LoRa.

(** [LoRaManager::getQueueSize]. *)
Definition getQueueSize (m : LoRaManager) (p : Priority.t) : Z :=
  Z.of_nat (length (priorityQueues m p)).

(** [LoRaManager::getTotalQueueSize]. *)
Definition getTotalQueueSize (m : LoRaManager) : Z :=
  fold_left (fun total p => total + getQueueSize m p) Priority.all 0.

(** [LoRaManager::clearQueue]. *)
Definition clearQueue (m : LoRaManager) : LoRaManager :=
  set_queues m (fun _ => []).

(** The payload [sendAck(uint16_t sequenceNumber, uint8_t ackType,
    int8_t rssi, int8_t snr)] builds. *)
Definition ackPayload (sequenceNumber ackType rssi : Z) : list Z :=
  [Z.land (Z.shiftr (wrap16 sequenceNumber) 8) 0xFF;
   Z.land (wrap16 sequenceNumber) 0xFF;
   wrap8 ackType;
   wrap8 (to_int8 rssi)].

(** [LoRaManager::sendAck]; [hdr] is the image of the packet header after
    [createPacket] and the two assignments of the averages.  The [snr]
    argument is not used by the method. *)
Definition sendAck (m : LoRaManager) (sequenceNumber ackType rssi snr : Z)
  (hdr : list Z) (io : Radio) : LoRaManager :=
  snd (transmitPacket m
         (createPacket (PacketType.code PacketType.ACK)
            (ackPayload sequenceNumber ackType rssi) hdr) io).

(** The payload [sendNack(uint16_t sequenceNumber, uint8_t nackType)]
    builds. *)
Definition nackPayload (sequenceNumber nackType : Z) : list Z :=
  [Z.land (Z.shiftr (wrap16 sequenceNumber) 8) 0xFF;
   Z.land (wrap16 sequenceNumber) 0xFF;
   wrap8 nackType].

(** [LoRaManager::sendNack]. *)
Definition sendNack (m : LoRaManager) (sequenceNumber nackType : Z)
  (hdr : list Z) (io : Radio) : LoRaManager :=
  snd (transmitPacket m
         (createPacket (PacketType.code PacketType.NACK)
            (nackPayload sequenceNumber nackType) hdr) io).

(** *** Signal quality monitoring

    The members [rssiHistory], [snrHistory], [rssiIndex], [snrIndex],
    [lastRssi], [lastSnr] of the class, which the record [LoRaManager] above
    leaves out, with the three methods that work on them alone. *)

Definition RSSI_HISTORY_SIZE : nat := 10.

Record SignalQuality : Type := mkSignal {
  rssiHistory : list Z;
  snrHistory : list Z;
  rssiIndex : Z;
  snrIndex : Z;
  lastRssi : Z;
  lastSnr : Z
}.

(** The state the constructor and [resetStatistics] leave (the latter
    keeps [lastRssi] and [lastSnr]; the constructor sets them to -128). *)
Definition signal_init : SignalQuality :=
  mkSignal (repeat 0 RSSI_HISTORY_SIZE) (repeat 0 RSSI_HISTORY_SIZE) 0 0 (-128) (-128).

(** [history[index] = v]. *)
Fixpoint put (index : nat) (v : Z) (history : list Z) {struct history} : list Z :=
  match history, index with
  | [], _ => []
  | _ :: rest, O => v :: rest
  | x :: rest, S i => x :: put i v rest
  end.

(** [LoRaManager::updateSignalQuality(int8_t rssi, int8_t snr)]. *)
Definition updateSignalQuality (s : SignalQuality) (rssi snr : Z) : SignalQuality :=
  let rssi := to_int8 rssi in
  let snr := to_int8 snr in
  mkSignal (put (Z.to_nat (rssiIndex s)) rssi (rssiHistory s))
           (put (Z.to_nat (snrIndex s)) snr (snrHistory s))
           (Z.rem (rssiIndex s + 1) (Z.of_nat RSSI_HISTORY_SIZE))
           (Z.rem (snrIndex s + 1) (Z.of_nat RSSI_HISTORY_SIZE))
           rssi snr.

(** The loop of [getAverageRSSI] and [getAverageSNR]: the sum and the
    number of the slots that are not 0. *)
Fixpoint sumCount (history : list Z) (sum count : Z) : Z * Z :=
  match history with
  | [] => (sum, count)
  | v :: rest =>
      if v =? 0 then sumCount rest sum count
      else sumCount rest (sum + v) (count + 1)
  end.

(** [(count > 0) ? (sum / count) : -128] returned as [int8_t]; the
    division of C++ truncates toward zero. *)
Definition average (history : list Z) : Z :=
  let (sum, count) := sumCount history 0 0 in
  if count >? 0 then to_int8 (Z.quot sum count) else to_int8 (-128).

(** [LoRaManager::getAverageRSSI] and [LoRaManager::getAverageSNR]. *)
Definition getAverageRSSI (s : SignalQuality) : Z := average (rssiHistory s).
Definition getAverageSNR (s : SignalQuality) : Z := average (snrHistory s).

(** Successive calls of [updateSignalQuality]. *)
Definition updateAll (s : SignalQuality) (samples : list (Z * Z)) : SignalQuality :=
  fold_left (fun s x => updateSignalQuality s (fst x) (snd x)) samples s.

(** *** What the properties speak about *)

(** [l'] is [l] with the byte at position [i] replaced by a different one. *)
Definition corruptedAt (i : nat) (l l' : list Z) : Prop :=
  (i < length l)%nat /\
  exists x, is_byte x /\ x <> nth i l 0 /\ l' = firstn i l ++ x :: skipn (S i) l.

(** The sum of a history and the number of its slots that are not 0. *)
Definition total (history : list Z) : Z := fold_right Z.add 0 history.

Definition nonzero (history : list Z) : Z :=
  fold_right (fun v n => (if v =? 0 then 0 else 1) + n) 0 history.

(** The histories have their ten slots and the write positions are inside
    them: what the constructor leaves and [updateSignalQuality] keeps. *)
Definition signal_ok (s : SignalQuality) : Prop :=
  length (rssiHistory s) = RSSI_HISTORY_SIZE /\
  length (snrHistory s) = RSSI_HISTORY_SIZE /\
  0 <= rssiIndex s < Z.of_nat RSSI_HISTORY_SIZE /\
  0 <= snrIndex s < Z.of_nat RSSI_HISTORY_SIZE.

(** The call environment [io] once [processIncomingPacket] has taken the
    frame out of the transceiver: clock and transmit result as before,
    nothing left to receive. *)
Definition mute (io : Radio) : Radio :=
  mkRadio None (local_packet io) (now_rx io) (now_check io) (now_tx io)
    (now_start io) (tx_ok io).

(** A fresh manager to which [sendTelemetry] was handed 228 bytes, one more
    than [serializePacket] accepts, and then a status frame. *)
Definition oversizedQueued : LoRaManager :=
  snd (sendPacket
         (snd (sendTelemetry (init 0) (repeat 0 228) (repeat 0 12) 0))
         (statusFrame 1) Priority.STATUS 1).

(** The last two bytes of [buffer] are, high byte first, the checksum of
    the bytes before them. *)
Definition checksumOk (buffer : list Z) : bool :=
  Codec.calculateCRC16 (firstn (length buffer - 2) buffer)
  =? wrap16 (Z.lor (Z.shiftl (nth (length buffer - 2) buffer 0) 8)
                   (nth (length buffer - 1) buffer 0)).

(** What holds of every entry in every reachable state: its attempt
    counter is between 0 and [MAX_RETRIES], and at least 1 while it waits
    for an acknowledgement. *)
Definition attempts_ok (e : QueuedPacket) : Prop :=
  0 <= transmitAttempts e <= MAX_RETRIES /\
  (waitingForAck e = true -> 1 <= transmitAttempts e).

Definition entries_ok (m : LoRaManager) : Prop :=
  forall p e, In e (priorityQueues m p) -> attempts_ok e.

End LoRaOps.

(** ** Further methods of [PacketHandler] *)

Module HandlerOps.
Import Handler.

(** [PacketHandler::bytesToUint16]. *)
Definition bytesToUint16 (bytes : list Z) : Z :=
  wrap16 (Z.lor (Z.shiftl (nth 0 bytes 0) 8) (nth 1 bytes 0)).

(** [PacketHandler::uint32ToBytes]. *)
Definition uint32ToBytes (value : Z) : list Z :=
  [wrap8 (Z.shiftr value 24);
   wrap8 (Z.land (Z.shiftr value 16) 0xFF);
   wrap8 (Z.land (Z.shiftr value 8) 0xFF);
   wrap8 (Z.land value 0xFF)].

(** [PacketHandler::bytesToUint32]. *)
Definition bytesToUint32 (bytes : list Z) : Z :=
  wrap32 (Z.lor (Z.lor (Z.lor (Z.shiftl (nth 0 bytes 0) 24)
                              (Z.shiftl (nth 1 bytes 0) 16))
                       (Z.shiftl (nth 2 bytes 0) 8))
                (nth 3 bytes 0)).

(** [PacketHandler::disassemblePacket] (the allocation of the payload copy
    is taken to succeed): the type byte and the payload, or [None] for
    [return false]. *)
Definition disassemblePacket (h : PacketHandler) (pkt : list Z)
  : option (Z * list Z) * PacketHandler :=
  match validatePacket h pkt with
  | (false, h) => (None, h)
  | (true, h) =>
      let hdr := header_of_bytes pkt in
      (Some (packetType hdr,
             slice sizeof_PacketHeader (Z.to_nat (payloadLength hdr)) pkt), h)
  end.

(** [PacketHandler::dequeuePacket]: the data of the front element, or
    [None] for [return false]. *)
Definition dequeuePacket (h : PacketHandler) : option (list Z) * PacketHandler :=
  match packetQueue h with
  | [] => (None, h)
  | buffer :: rest => (Some (data buffer), set_packetQueue h rest)
  end.

(** [PacketHandler::getBufferedPacket]. *)
Definition getBufferedPacket (h : PacketHandler) : option (list Z) * PacketHandler :=
  dequeuePacket h.


(** [PacketHandler::getBufferUsage] and [PacketHandler::isBufferFull]. *)
Definition getBufferUsage (h : PacketHandler) : nat := length (packetQueue h).

Definition isBufferFull (h : PacketHandler) : bool :=
  (QUEUE_LENGTH <=? length (packetQueue h))%nat.


(** The queue is in order of descending priority. *)
Fixpoint descending (q : list PacketBuffer) : Prop :=
  match q with
  | [] => True
  | b :: rest => Forall (fun c => priority c <= priority b) rest /\ descending rest
  end.

(** The states of the receive parser between two bytes: seeking with at
    most the first start byte held, or in a packet whose header is not yet
    complete, or in a packet with a validated payload length and room left
    before the frame is complete. *)
Definition parser_ok (h : PacketHandler) : Prop :=
  length (receiveBuffer h) = sizeof_receiveBuffer /\
  (inPacket h = false -> (receiveIndex h <= 1)%nat /\ expectedPayloadSize h = 0) /\
  (inPacket h = true ->
   (2 <= receiveIndex h)%nat /\
   ((receiveIndex h < sizeof_PacketHeader)%nat -> expectedPayloadSize h = 0) /\
   ((sizeof_PacketHeader <= receiveIndex h)%nat ->
    expectedPayloadSize h <= MAX_PAYLOAD_SIZE /\
    Z.of_nat (receiveIndex h)
    < Z.of_nat sizeof_PacketHeader + expectedPayloadSize h
      + Z.of_nat sizeof_PacketFooter)).


(** A handler whose outgoing buffer holds sixteen packets of priority
    [PRIORITY_HIGH] (2), and one that holds fifteen of them behind a packet
    of priority [PRIORITY_NORMAL] stamped at time 7. *)
Definition fullOfHigh : PacketHandler :=
  iter QUEUE_LENGTH (fun h => snd (addToBuffer h [1] 2 0)) init.


(** The parser [h] is inside a packet and holds the first [k] bytes of
    [frame]; the expected payload size is known from the eighth byte on;
    the statistics are those of [h0]. *)
Definition loading (frame : list Z) (h0 h : PacketHandler) (k : nat) : Prop :=
  inPacket h = true /\
  receiveIndex h = k /\
  length (receiveBuffer h) = sizeof_receiveBuffer /\
  firstn k (receiveBuffer h) = firstn k frame /\
  expectedPayloadSize h
  = (if (k <? sizeof_PacketHeader)%nat then 0
     else payloadLength (header_of_bytes frame)) /\
  packetsReceived h = packetsReceived h0 /\
  crcErrors h = crcErrors h0.

(** Calls of [addToBuffer] in a row with one priority, one for each element
    of [items], which gives the data and the clock reading of that call. *)
Definition addAll (h : PacketHandler) (items : list (list Z * Z)) (prio : Z)
  : PacketHandler :=
  fold_left (fun h x => snd (addToBuffer h (fst x) prio (snd x))) items h.

(** Up to [n] calls of [dequeuePacket] in a row, until one returns false:
    the data handed out, in order. *)
Fixpoint drain (n : nat) (h : PacketHandler) : list (list Z) * PacketHandler :=
  match n with
  | O => ([], h)
  | S k =>
      match dequeuePacket h with
      | (Some d, h') => let (ds, h'') := drain k h' in (d :: ds, h'')
      | (None, h') => ([], h')
      end
  end.

(** Two handlers that agree on everything but [lastPacketTime]. *)
Definition same_but_time (h1 h2 : PacketHandler) : Prop :=
  set_lastPacketTime h1 0 = set_lastPacketTime h2 0.






(** The buffer full of packets of priority HIGH with the sequence counter
    at 5, and three calls: a heartbeat, a [dequeuePacket], a heartbeat. *)
Definition fullOfHighAt5 : PacketHandler := set_currentSequenceNumber fullOfHigh 5.


End HandlerOps.

(** * Properties *)

Module PriorityFacts.
Import Priority.

Lemma eqb_eq (p q : t) : eqb p q = true <-> p = q.
Proof. destruct p, q; cbv; split; intro H; congruence. Qed.

Lemma eqb_refl (p : t) : eqb p p = true.
Proof. apply eqb_eq; reflexivity. Qed.

Lemma eqb_neq (p q : t) : eqb p q = false <-> p <> q.
Proof.
  split.
  - intros H E. subst. rewrite eqb_refl in H. discriminate.
  - intro H. destruct (eqb p q) eqn:E; [|reflexivity].
    apply eqb_eq in E. contradiction.
Qed.

End PriorityFacts.

(** ** Bytes and big-endian pairs *)

Lemma wrap8_byte (b : Z) : is_byte b -> wrap8 b = b.
Proof. unfold is_byte, wrap8. intro H. apply Z.mod_small. lia. Qed.

Lemma wrap16_range (x : Z) : 0 <= wrap16 x < 65536.
Proof. unfold wrap16. apply Z.mod_pos_bound. lia. Qed.

Lemma testbit_high16 (s n : Z) : 0 <= s < 65536 -> 16 <= n -> Z.testbit s n = false.
Proof.
  intros Hs Hn.
  rewrite <- (Z.mod_small s (2 ^ 16)) by (change (2 ^ 16) with 65536; lia).
  apply Z.mod_pow2_bits_high. lia.
Qed.

Lemma iter_last {A : Type} (n : nat) (f : A -> A) (x : A) :
  iter (S n) f x = f (iter n f x).
Proof.
  revert x. induction n as [|n IH]; intro x.
  - reflexivity.
  - change (iter (S (S n)) f x) with (iter (S n) f (f x)).
    rewrite IH. reflexivity.
Qed.

(** Splitting a 16-bit value into its two bytes and joining them again. *)
Lemma be16_join_split (s : Z) :
  0 <= s < 65536 ->
  Z.lor (Z.shiftl (Z.land (Z.shiftr s 8) 0xFF) 8) (Z.land s 0xFF) = s.
Proof.
  intro Hs. apply Z.bits_inj'. intros n Hn.
  change 0xFF with (Z.ones 8).
  rewrite Z.lor_spec, !Z.land_ones by lia.
  destruct (Z.ltb_spec n 8) as [Hlt|Hge].
  - rewrite Z.shiftl_spec_low by lia.
    rewrite Z.mod_pow2_bits_low by lia. reflexivity.
  - rewrite Z.shiftl_spec by lia.
    rewrite (Z.mod_pow2_bits_high s 8 n) by lia.
    rewrite orb_false_r.
    destruct (Z.ltb_spec n 16) as [Hlt16|Hge16].
    + rewrite Z.mod_pow2_bits_low by lia.
      rewrite Z.shiftr_spec by lia. f_equal. lia.
    + rewrite Z.mod_pow2_bits_high by lia.
      symmetry. apply testbit_high16; assumption.
Qed.

Lemma be16_roundtrip (s : Z) :
  0 <= s < 65536 ->
  wrap16 (Z.lor (Z.shiftl (Z.land (Z.shiftr s 8) 0xFF) 8) (Z.land s 0xFF)) = s.
Proof.
  intro Hs. rewrite be16_join_split by assumption.
  unfold wrap16. apply Z.mod_small. assumption.
Qed.

(** ** Packet codec *)

Module CodecFacts.
Import Codec.

Lemma crc16_bit_range (crc : Z) : 0 <= crc16_bit crc < 65536.
Proof. unfold crc16_bit. destruct (Z.testbit crc 0); apply wrap16_range. Qed.

Lemma crc16_byte_range (crc b : Z) : 0 <= crc16_byte crc b < 65536.
Proof.
  unfold crc16_byte. rewrite (iter_last 7). apply crc16_bit_range.
Qed.

Lemma fold_crc16_range (l : list Z) (crc : Z) :
  0 <= crc < 65536 -> 0 <= fold_left crc16_byte l crc < 65536.
Proof.
  revert crc. induction l as [|b l IH]; intros crc H; simpl.
  - assumption.
  - apply IH. apply crc16_byte_range.
Qed.

Lemma calculatePacketCRC_range (p : Packet) : 0 <= calculatePacketCRC p < 65536.
Proof. unfold calculatePacketCRC. apply fold_crc16_range. lia. Qed.

Lemma calculateCRC16_packet (p : Packet) :
  calculateCRC16 (crcInput p) = calculatePacketCRC p.
Proof. reflexivity. Qed.

Lemma header_bytes (l : list Z) :
  length l = sizeof_LoRaPacketHeader ->
  exists a b c d e f g h tl,
    l = a :: b :: c :: d :: e :: f :: g :: h :: tl /\ length tl = 4%nat.
Proof.
  intro H.
  do 8 (destruct l as [|? l]; [discriminate H|]).
  repeat eexists. simpl in H. unfold sizeof_LoRaPacketHeader in H. lia.
Qed.

Lemma payload_of_buffer (p tail : list Z) :
  firstn (length p) (p ++ tail) = p.
Proof.
  rewrite firstn_app, firstn_all, Nat.sub_diag. simpl. apply app_nil_r.
Qed.

(** What [deserializePacket] reads back from a buffer laid out by
    [serializePacket]. *)
Lemma deserialize_layout (a b c d e f g h t s1 s0 c1 c0 : Z) (p : list Z)
  (dst : Packet) :
  deserializePacket
    ([a; b; c; d; e; f; g; h] ++ [t; s1; s0] ++ p ++ [c1; c0]) dst
  = Some (mkPacket ([a; b; c; d; e; f; g; h] ++ skipn 8 (header dst)) t
            (wrap16 (Z.lor (Z.shiftl s1 8) s0)) p
            (wrap16 (Z.lor (Z.shiftl c1 8) c0)) (-128) (-128) false).
Proof.
  unfold deserializePacket, sizeof_PacketHeader.
  assert (Hlen : length ([a; b; c; d; e; f; g; h] ++ [t; s1; s0] ++ p ++ [c1; c0])
                 = (13 + length p)%nat).
  { simpl. rewrite length_app. simpl. lia. }
  rewrite Hlen.
  replace (13 + length p <? 8 + 5)%nat with false
    by (symmetry; apply Nat.ltb_ge; lia).
  replace (13 + length p - 8 - 3 - 2)%nat with (length p) by lia.
  replace (13 + length p - 2)%nat with (11 + length p)%nat by lia.
  replace (13 + length p - 1)%nat with (11 + S (length p))%nat by lia.
  cbn [app firstn skipn nth Nat.add].
  rewrite payload_of_buffer.
  rewrite !app_nth2 by lia.
  replace (length p - length p)%nat with 0%nat by lia.
  replace (S (length p) - length p)%nat with 1%nat by lia.
  reflexivity.
Qed.

Lemma serialize_layout (pkt : Packet) :
  wf_Packet pkt ->
  (length (payload pkt) <= MAX_SERIALIZED_PAYLOAD)%nat ->
  exists a b c d e f g h,
    firstn sizeof_PacketHeader (header pkt) = [a; b; c; d; e; f; g; h] /\
    serializePacket pkt
    = Some ([a; b; c; d; e; f; g; h]
            ++ [type pkt;
                Z.land (Z.shiftr (sequenceNumber pkt) 8) 0xFF;
                Z.land (sequenceNumber pkt) 0xFF]
            ++ payload pkt
            ++ [Z.land (Z.shiftr (calculatePacketCRC pkt) 8) 0xFF;
                Z.land (calculatePacketCRC pkt) 0xFF]).
Proof.
  intros (Hlen & _ & Htype & _ & _) Hsize.
  destruct (header_bytes _ Hlen) as (a & b & c & d & e & f & g & h & tl & Hh & _).
  exists a, b, c, d, e, f, g, h.
  unfold serializePacket, payloadLength, MAX_PACKET_SIZE, MAX_SERIALIZED_PAYLOAD in *.
  rewrite Hh. cbn [firstn sizeof_PacketHeader].
  split; [reflexivity|].
  rewrite (wrap8_byte _ Htype).
  replace (Z.of_nat sizeof_PacketHeader + 1 + 2
           + Z.of_nat (length (payload pkt)) + 2 >? 240)
    with false; [reflexivity|].
  symmetry. rewrite Z.gtb_ltb. apply Z.ltb_ge.
  unfold sizeof_PacketHeader. lia.
Qed.

(** The packet [deserializePacket] returns for a buffer written by
    [serializePacket]. *)
Lemma roundTrip_packet (pkt dst : Packet) :
  wf_Packet pkt ->
  (length (payload pkt) <= MAX_SERIALIZED_PAYLOAD)%nat ->
  roundTrip pkt dst
  = Some (mkPacket (firstn sizeof_PacketHeader (header pkt)
                    ++ skipn sizeof_PacketHeader (header dst))
            (type pkt) (sequenceNumber pkt) (payload pkt)
            (calculatePacketCRC pkt) (-128) (-128) false).
Proof.
  intros Hwf Hsize.
  destruct (serialize_layout pkt Hwf Hsize)
    as (a & b & c & d & e & f & g & h & Hhdr & Hser).
  destruct Hwf as (_ & _ & _ & Hseq & _).
  unfold roundTrip. rewrite Hser, deserialize_layout, Hhdr.
  rewrite (be16_roundtrip _ Hseq).
  rewrite (be16_roundtrip _ (calculatePacketCRC_range pkt)).
  reflexivity.
Qed.

(** The checksum input of the decoded packet is that of the original: its
    header agrees on the first [sizeof(PacketHeader)] bytes. *)
Lemma crcInput_decoded (pkt dst : Packet) :
  wf_Packet pkt ->
  crcInput (mkPacket (firstn sizeof_PacketHeader (header pkt)
                      ++ skipn sizeof_PacketHeader (header dst))
              (type pkt) (sequenceNumber pkt) (payload pkt)
              (calculatePacketCRC pkt) (-128) (-128) false)
  = crcInput pkt.
Proof.
  intros (Hlen & _).
  destruct (header_bytes _ Hlen) as (a & b & c & d & e & f & g & h & tl & Hh & _).
  unfold crcInput. cbn [header type sequenceNumber payload].
  rewrite Hh. reflexivity.
Qed.

Lemma serialized_length (pkt : Packet) (buffer : list Z) :
  serializePacket pkt = Some buffer ->
  (length buffer <= Z.to_nat MAX_PACKET_SIZE)%nat.
Proof.
  unfold serializePacket, payloadLength, MAX_PACKET_SIZE.
  destruct (Z.gtb_spec
              (Z.of_nat sizeof_PacketHeader + 1 + 2
               + Z.of_nat (length (payload pkt)) + 2) 240) as [Hgt|Hle];
    [discriminate|].
  intro H.
  match type of H with
  | Some ?x = _ => assert (E : buffer = x) by congruence
  end.
  rewrite E, !length_app, length_firstn. cbn [length].
  unfold sizeof_PacketHeader in *. lia.
Qed.

(** C2 (as amended).  For every packet type byte, 16-bit sequence number and
    payload of at most 227 bytes, [deserializePacket] applied to the buffer
    [serializePacket] wrote returns a packet with the same type, sequence
    number and payload bytes whose [valid] flag is false; [validatePacket]
    accepts that packet, and [receivePacket], handed the buffer by the
    transceiver, returns it with [valid] set to true. *)
Theorem serialize_deserialize_round_trip (pkt dst : Packet) :
  wf_Packet pkt ->
  (length (payload pkt) <= MAX_SERIALIZED_PAYLOAD)%nat ->
  exists decoded,
    roundTrip pkt dst = Some decoded /\
    type decoded = type pkt /\
    sequenceNumber decoded = sequenceNumber pkt /\
    payload decoded = payload pkt /\
    valid decoded = false /\
    validatePacket decoded = true /\
    forall (m : LoRa.LoRaManager) (io : LoRa.Radio) (buffer : list Z)
           (packetRssi packetSnr : Z),
      serializePacket pkt = Some buffer ->
      LoRa.rx io = Some (buffer, packetRssi, packetSnr) ->
      LoRa.local_packet io = dst ->
      exists received,
        fst (LoRa.receivePacket m io) = Some received /\
        type received = type pkt /\
        sequenceNumber received = sequenceNumber pkt /\
        payload received = payload pkt /\
        valid received = true.
Proof.
  intros Hwf Hsize.
  pose proof (roundTrip_packet pkt dst Hwf Hsize) as Hrt.
  assert (Hval : validatePacket
                   (mkPacket (firstn sizeof_PacketHeader (header pkt)
                              ++ skipn sizeof_PacketHeader (header dst))
                      (type pkt) (sequenceNumber pkt) (payload pkt)
                      (calculatePacketCRC pkt) (-128) (-128) false) = true).
  { unfold validatePacket. rewrite (crcInput_decoded pkt dst Hwf).
    rewrite calculateCRC16_packet. apply Z.eqb_refl. }
  eexists. split; [exact Hrt|].
  repeat (split; [reflexivity|]).
  split; [exact Hval|].
  intros m io buffer r s Hser Hrx Hdst.
  unfold LoRa.receivePacket. rewrite Hrx.
  rewrite firstn_all2 by (apply (serialized_length pkt); assumption).
  unfold roundTrip in Hrt. rewrite Hser in Hrt.
  rewrite Hdst, Hrt, Hval.
  eexists. split; [reflexivity|]. repeat split.
Qed.

(** The instance of the round trip for a GPS frame with sequence number 42. *)
Lemma serialize_deserialize_round_trip_witness :
  exists decoded,
    roundTrip (mkPacket (repeat 0 12) 0x02 42 [1; 2; 3] 0 0 0 false)
              (mkPacket (repeat 0 12) 0 0 [] 0 0 0 false) = Some decoded /\
    type decoded = 0x02 /\ sequenceNumber decoded = 42 /\
    payload decoded = [1; 2; 3] /\ valid decoded = false /\
    validatePacket decoded = true.
Proof.
  destruct (serialize_deserialize_round_trip
              (mkPacket (repeat 0 12) 0x02 42 [1; 2; 3] 0 0 0 false)
              (mkPacket (repeat 0 12) 0 0 [] 0 0 0 false))
    as (decoded & H1 & H2 & H3 & H4 & H5 & H6 & _).
  - unfold wf_Packet, is_bytes, is_byte. cbn.
    repeat split; try lia; repeat constructor; lia.
  - cbn. unfold MAX_SERIALIZED_PAYLOAD. lia.
  - exists decoded. repeat split; assumption.
Defined.

(** C2 as stated fails on the [valid] flag: the packet [deserializePacket]
    returns for the serialized GPS frame (type 0x02, sequence number 42,
    payload 1 2 3) has the three fields back but [valid = false]. *)
Lemma round_trip_valid_flag_counterexample :
  exists decoded,
    roundTrip (mkPacket (repeat 0 12) 0x02 42 [1; 2; 3] 0 0 0 false)
              (mkPacket (repeat 0 12) 0 0 [] 0 0 0 false) = Some decoded /\
    type decoded = 0x02 /\ sequenceNumber decoded = 42 /\
    payload decoded = [1; 2; 3] /\ valid decoded <> true.
Proof.
  eexists. split; [vm_compute; reflexivity|].
  repeat split. discriminate.
Qed.

End CodecFacts.

(** ** Delivery manager *)

Module LoRaFacts.
Import LoRa.

(** *** Rows *)

Lemma set_queue_same (m : LoRaManager) (p : Priority.t) (q : list QueuedPacket) :
  priorityQueues (set_queue m p q) p = q.
Proof. cbn. rewrite PriorityFacts.eqb_refl. reflexivity. Qed.

Lemma set_queue_other (m : LoRaManager) (p p' : Priority.t) (q : list QueuedPacket) :
  p' <> p -> priorityQueues (set_queue m p q) p' = priorityQueues m p'.
Proof.
  intro H. cbn. apply PriorityFacts.eqb_neq in H. rewrite H. reflexivity.
Qed.

(** *** Adaptive spreading factor *)

Lemma adapt_cases (m : LoRaManager) (rssi snr : Z) :
  7 <= currentSpreadingFactor m <= 12 ->
  currentSpreadingFactor (adaptTransmissionSettings m rssi snr)
  = if (to_int8 rssi >? ADAPTIVE_SF_HIGH_THRESHOLD) && (currentSpreadingFactor m >? 7)
    then currentSpreadingFactor m - 1
    else if (to_int8 rssi <? ADAPTIVE_SF_LOW_THRESHOLD)
            && (currentSpreadingFactor m <? 12)
    then currentSpreadingFactor m + 1
    else currentSpreadingFactor m.
Proof.
  intro H. unfold adaptTransmissionSettings, setSpreadingFactor. cbn [ENABLE_ADAPTIVE_SF negb].
  destruct (to_int8 rssi >? ADAPTIVE_SF_HIGH_THRESHOLD); cbn [andb].
  - destruct (Z.gtb_spec (currentSpreadingFactor m) 7) as [H7|H7].
    + replace (currentSpreadingFactor m - 1 <? 6) with false
        by (symmetry; apply Z.ltb_ge; lia).
      replace (currentSpreadingFactor m - 1 >? 12) with false
        by (symmetry; rewrite Z.gtb_ltb; apply Z.ltb_ge; lia).
      reflexivity.
    + destruct (to_int8 rssi <? ADAPTIVE_SF_LOW_THRESHOLD); cbn [andb]; [|reflexivity].
      destruct (Z.ltb_spec (currentSpreadingFactor m) 12) as [H12|H12]; [|reflexivity].
      replace (currentSpreadingFactor m + 1 <? 6) with false
        by (symmetry; apply Z.ltb_ge; lia).
      replace (currentSpreadingFactor m + 1 >? 12) with false
        by (symmetry; rewrite Z.gtb_ltb; apply Z.ltb_ge; lia).
      reflexivity.
  - destruct (to_int8 rssi <? ADAPTIVE_SF_LOW_THRESHOLD); cbn [andb]; [|reflexivity].
    destruct (Z.ltb_spec (currentSpreadingFactor m) 12) as [H12|H12]; [|reflexivity].
    replace (currentSpreadingFactor m + 1 <? 6) with false
      by (symmetry; apply Z.ltb_ge; lia).
    replace (currentSpreadingFactor m + 1 >? 12) with false
      by (symmetry; rewrite Z.gtb_ltb; apply Z.ltb_ge; lia).
    reflexivity.
Qed.

Lemma adapt_range (m : LoRaManager) (rssi snr : Z) :
  7 <= currentSpreadingFactor m <= 12 ->
  7 <= currentSpreadingFactor (adaptTransmissionSettings m rssi snr) <= 12.
Proof.
  intro H. rewrite adapt_cases by assumption.
  destruct (to_int8 rssi >? ADAPTIVE_SF_HIGH_THRESHOLD); cbn [andb].
  - destruct (Z.gtb_spec (currentSpreadingFactor m) 7); [lia|].
    destruct (to_int8 rssi <? ADAPTIVE_SF_LOW_THRESHOLD); cbn [andb]; [|lia].
    destruct (Z.ltb_spec (currentSpreadingFactor m) 12); lia.
  - destruct (to_int8 rssi <? ADAPTIVE_SF_LOW_THRESHOLD); cbn [andb]; [|lia].
    destruct (Z.ltb_spec (currentSpreadingFactor m) 12); lia.
Qed.

Lemma adapt_strong_signal (m : LoRaManager) (rssi snr : Z) :
  7 <= currentSpreadingFactor m <= 12 ->
  ADAPTIVE_SF_HIGH_THRESHOLD < to_int8 rssi ->
  currentSpreadingFactor (adaptTransmissionSettings m rssi snr)
  = Z.max 7 (currentSpreadingFactor m - 1).
Proof.
  intros H Hr. rewrite adapt_cases by assumption.
  replace (to_int8 rssi >? ADAPTIVE_SF_HIGH_THRESHOLD) with true
    by (symmetry; rewrite Z.gtb_ltb; apply Z.ltb_lt; assumption).
  replace (to_int8 rssi <? ADAPTIVE_SF_LOW_THRESHOLD) with false
    by (symmetry; apply Z.ltb_ge;
        unfold ADAPTIVE_SF_LOW_THRESHOLD, ADAPTIVE_SF_HIGH_THRESHOLD in *; lia).
  cbn [andb].
  destruct (Z.gtb_spec (currentSpreadingFactor m) 7); lia.
Qed.

(** C8.  From a spreading factor in [7, 12], any sequence of
    [adaptTransmissionSettings] calls, whatever the [rssi] and [snr] handed
    in, leaves the current spreading factor in [7, 12]; and if every [rssi]
    (as the [int8_t] the method receives) is above the high threshold, the
    factor after [n] calls is the larger of 7 and the start value minus [n]:
    one step down per call until the floor, then no change. *)
Theorem adaptive_spreading_factor_bounds (m : LoRaManager) (samples : list (Z * Z)) :
  7 <= currentSpreadingFactor m <= 12 ->
  7 <= currentSpreadingFactor (adaptAll m samples) <= 12 /\
  (Forall (fun s => ADAPTIVE_SF_HIGH_THRESHOLD < to_int8 (fst s)) samples ->
   currentSpreadingFactor (adaptAll m samples)
   = Z.max 7 (currentSpreadingFactor m - Z.of_nat (length samples))).
Proof.
  revert m. induction samples as [|[rssi snr] samples IH]; intros m H.
  - cbn. split; [assumption|]. intros _. lia.
  - cbn [adaptAll fold_left fst snd].
    pose proof (adapt_range m rssi snr H) as Hr.
    destruct (IH (adaptTransmissionSettings m rssi snr) Hr) as [IH1 IH2].
    split; [exact IH1|].
    intro HF. inversion HF as [|s l Hs Hl]; subst.
    unfold adaptAll in IH2. rewrite (IH2 Hl).
    rewrite (adapt_strong_signal m rssi snr H Hs).
    cbn [length]. lia.
Qed.

(** Ten strong samples from spreading factor 10: the factor ends at 7. *)
Lemma adaptive_spreading_factor_bounds_witness :
  7 <= currentSpreadingFactor
         (adaptAll (set_sf (init 0) 10 10) (repeat (-50, 5) 10)) <= 12 /\
  currentSpreadingFactor (adaptAll (set_sf (init 0) 10 10) (repeat (-50, 5) 10)) = 7.
Proof.
  destruct (adaptive_spreading_factor_bounds
              (set_sf (init 0) 10 10) (repeat (-50, 5) 10)) as [H1 H2].
  - cbn. lia.
  - split; [exact H1|]. rewrite H2.
    + reflexivity.
    + repeat constructor.
Defined.

(** *** Selection of the next packet *)

Lemma getNextPacket_head (m : LoRaManager) (p : Priority.t) (e : QueuedPacket) :
  getNextPacket m = Some (p, e) ->
  (exists rest, priorityQueues m p = e :: rest) /\
  (forall p', Priority.code p' < Priority.code p -> priorityQueues m p' = []).
Proof.
  unfold getNextPacket. cbn [firstNonEmpty Priority.all].
  destruct (priorityQueues m Priority.EMERGENCY) as [|e1 r1] eqn:E1;
    [destruct (priorityQueues m Priority.GPS) as [|e2 r2] eqn:E2;
     [destruct (priorityQueues m Priority.TELEMETRY) as [|e3 r3] eqn:E3;
      [destruct (priorityQueues m Priority.CAMERA) as [|e4 r4] eqn:E4;
       [destruct (priorityQueues m Priority.STATUS) as [|e5 r5] eqn:E5;
        [discriminate|]|]|]|]|];
    intro H; injection H as <- <-;
    (split; [eexists; eassumption|]);
    intros p' Hp'; destruct p'; cbn in Hp'; try lia; assumption.
Qed.

Lemma getNextPacket_intro (m : LoRaManager) (p : Priority.t) (e : QueuedPacket)
  (rest : list QueuedPacket) :
  priorityQueues m p = e :: rest ->
  (forall p', Priority.code p' < Priority.code p -> priorityQueues m p' = []) ->
  getNextPacket m = Some (p, e).
Proof.
  intros Hp Hhi. unfold getNextPacket. cbn [firstNonEmpty Priority.all].
  destruct p; cbn in Hhi;
    repeat
      match goal with
      | |- context [priorityQueues m ?r] =>
          first [ rewrite Hp | rewrite (Hhi r) by (cbn; lia) ]
      end;
    reflexivity.
Qed.

Lemma getNextPacket_none (m : LoRaManager) :
  getNextPacket m = None <-> forall p, priorityQueues m p = [].
Proof.
  unfold getNextPacket. cbn [firstNonEmpty Priority.all]. split.
  - destruct (priorityQueues m Priority.EMERGENCY) eqn:E1; [|discriminate].
    destruct (priorityQueues m Priority.GPS) eqn:E2; [|discriminate].
    destruct (priorityQueues m Priority.TELEMETRY) eqn:E3; [|discriminate].
    destruct (priorityQueues m Priority.CAMERA) eqn:E4; [|discriminate].
    destruct (priorityQueues m Priority.STATUS) eqn:E5; [|discriminate].
    intros _ p. destruct p; assumption.
  - intro H. rewrite !H. reflexivity.
Qed.

(** The selection only looks at the rows. *)
Lemma getNextPacket_ext (m m' : LoRaManager) :
  (forall p, priorityQueues m p = priorityQueues m' p) ->
  getNextPacket m = getNextPacket m'.
Proof.
  intro H. unfold getNextPacket. cbn [firstNonEmpty Priority.all].
  rewrite !H. reflexivity.
Qed.

Lemma some_row_nonempty (m : LoRaManager) (p : Priority.t) :
  priorityQueues m p <> [] -> exists r e, getNextPacket m = Some (r, e).
Proof.
  intro H. destruct (getNextPacket m) as [[r e]|] eqn:E.
  - eauto.
  - exfalso. apply H. apply getNextPacket_none. assumption.
Qed.

(** *** Enqueueing *)

Lemma addToQueueInternal_row (m : LoRaManager) (e : QueuedPacket) :
  priorityQueues (addToQueueInternal m e) (priority e)
  = if (length (priorityQueues m (priority e)) <? MAX_QUEUE_SIZE)%nat
    then priorityQueues m (priority e) ++ [e]
    else firstn (MAX_QUEUE_SIZE - 1) (skipn 1 (priorityQueues m (priority e))) ++ [e].
Proof.
  unfold addToQueueInternal.
  destruct (length (priorityQueues m (priority e)) <? MAX_QUEUE_SIZE)%nat;
    apply set_queue_same.
Qed.

Lemma addToQueueInternal_other (m : LoRaManager) (e : QueuedPacket) (p : Priority.t) :
  p <> priority e ->
  priorityQueues (addToQueueInternal m e) p = priorityQueues m p.
Proof.
  intro H. unfold addToQueueInternal.
  destruct (length (priorityQueues m (priority e)) <? MAX_QUEUE_SIZE)%nat;
    apply set_queue_other; assumption.
Qed.

(** Enqueueing into two different rows gives the same rows in either order. *)
Lemma addToQueueInternal_commute (m : LoRaManager) (a b : QueuedPacket) (p : Priority.t) :
  priority a <> priority b ->
  priorityQueues (addToQueueInternal (addToQueueInternal m a) b) p
  = priorityQueues (addToQueueInternal (addToQueueInternal m b) a) p.
Proof.
  intro Hab.
  destruct (Priority.eqb p (priority a)) eqn:Ea;
    [apply PriorityFacts.eqb_eq in Ea | apply PriorityFacts.eqb_neq in Ea].
  - subst p.
    rewrite (addToQueueInternal_other _ b) by assumption.
    rewrite !addToQueueInternal_row.
    rewrite (addToQueueInternal_other _ b) by assumption. reflexivity.
  - rewrite (addToQueueInternal_other (addToQueueInternal m b) a) by assumption.
    destruct (Priority.eqb p (priority b)) eqn:Eb;
      [apply PriorityFacts.eqb_eq in Eb | apply PriorityFacts.eqb_neq in Eb].
    + subst p. rewrite !addToQueueInternal_row.
      rewrite (addToQueueInternal_other _ a) by congruence. reflexivity.
    + rewrite !addToQueueInternal_other by assumption. reflexivity.
Qed.

(** C6.  With a higher and a lower level both non-empty, [getNextPacket]
    returns the head (element 0, the oldest entry) of the highest-priority
    non-empty row, which is at least as high as the higher of the two levels
    and so never the lower one.  The order of enqueueing does not matter:
    sending to a higher and a lower level in either order selects the same
    packet.  Within a level the head is the oldest entry because
    [sendPacket] places the new entry behind all entries that remain. *)
Theorem getNextPacket_strict_priority (m : LoRaManager) (hi lo : Priority.t) :
  rows_bounded m ->
  Priority.code hi < Priority.code lo ->
  priorityQueues m hi <> [] ->
  priorityQueues m lo <> [] ->
  (exists p e rest,
      getNextPacket m = Some (p, e) /\
      priorityQueues m p = e :: rest /\
      (forall p', Priority.code p' < Priority.code p -> priorityQueues m p' = []) /\
      Priority.code p <= Priority.code hi /\ p <> lo) /\
  (forall a b ta tb,
      getNextPacket (snd (sendPacket (snd (sendPacket m a hi ta)) b lo tb))
      = getNextPacket (snd (sendPacket (snd (sendPacket m b lo tb)) a hi ta))) /\
  (forall pkt prio now,
      exists k,
        priorityQueues (snd (sendPacket m pkt prio now)) prio
        = skipn k (priorityQueues m prio) ++ [mkQueued pkt prio (wrap32 now) 0 0 false]).
Proof.
  intros Hb Hlt Hhi Hlo. split; [|split].
  - destruct (some_row_nonempty m hi Hhi) as (p & e & Hnext).
    destruct (getNextPacket_head m p e Hnext) as [[rest Hrow] Hempty].
    exists p, e, rest. repeat split; try assumption.
    + destruct (Z.le_gt_cases (Priority.code p) (Priority.code hi)) as [H|H];
        [assumption|].
      exfalso. apply Hhi. apply Hempty. lia.
    + intro E. subst p. apply Hhi. apply Hempty. assumption.
  - intros a b ta tb. apply getNextPacket_ext. intro p.
    cbn [sendPacket snd].
    apply addToQueueInternal_commute. cbn [priority].
    intro E. rewrite E in Hlt. lia.
  - intros pkt prio now. cbn [sendPacket snd].
    pose proof (addToQueueInternal_row m (mkQueued pkt prio (wrap32 now) 0 0 false)) as H.
    cbn [priority] in H. rewrite H.
    destruct (Nat.ltb_spec (length (priorityQueues m prio)) MAX_QUEUE_SIZE) as [Hl|Hl].
    + exists 0%nat. reflexivity.
    + exists 1%nat. f_equal. apply firstn_all2.
      rewrite length_skipn. specialize (Hb prio). unfold MAX_QUEUE_SIZE in *. lia.
Qed.

(** An emergency frame sent while the camera row holds five entries is the
    next packet. *)
Lemma getNextPacket_strict_priority_witness :
  let bulk := mkPacket (repeat 0 12) 0x03 0 [7] 0 0 0 false in
  let alarm := mkPacket (repeat 0 12) 0xFF 0 [9] 0 0 0 false in
  let m5 := fold_left (fun m t => snd (sendPacket m bulk Priority.CAMERA t))
              [1; 2; 3; 4; 5] (init 0) in
  let m := snd (sendPacket m5 alarm Priority.EMERGENCY 6) in
  exists p e rest,
    getNextPacket m = Some (p, e) /\
    priorityQueues m p = e :: rest /\
    p = Priority.EMERGENCY /\ packet e = alarm.
Proof.
  intros bulk alarm m5 m.
  destruct (getNextPacket_strict_priority m Priority.EMERGENCY Priority.CAMERA)
    as [(p & e & rest & Hnext & Hrow & _ & Hle & _) _].
  - intro p. destruct p; vm_compute; lia.
  - vm_compute. reflexivity.
  - vm_compute. discriminate.
  - vm_compute. discriminate.
  - exists p, e, rest. split; [exact Hnext|]. split; [exact Hrow|].
    assert (Hp : p = Priority.EMERGENCY) by (destruct p; cbn in Hle; lia || reflexivity).
    split; [exact Hp|].
    subst p. cbn in Hrow. injection Hrow as <- _. reflexivity.
Defined.

(** *** Queue overflow *)

(** C7 (as amended).  Enqueueing into a level that holds [MAX_QUEUE_SIZE]
    entries drops that level's oldest entry (element 0), keeps the other
    nine in order and places the new entry at the tail; every other level
    is unchanged; and none of the four statistics counters moves (the class
    has no overflow counter, the event is only printed under DEBUG_LORA). *)
Theorem enqueue_full_level_evicts_oldest (m : LoRaManager) (e : QueuedPacket) :
  length (priorityQueues m (priority e)) = MAX_QUEUE_SIZE ->
  priorityQueues (addToQueueInternal m e) (priority e)
  = skipn 1 (priorityQueues m (priority e)) ++ [e] /\
  length (priorityQueues (addToQueueInternal m e) (priority e)) = MAX_QUEUE_SIZE /\
  (forall p, p <> priority e ->
             priorityQueues (addToQueueInternal m e) p = priorityQueues m p) /\
  counters (addToQueueInternal m e) = counters m.
Proof.
  intro Hfull.
  assert (Hrow : priorityQueues (addToQueueInternal m e) (priority e)
                 = skipn 1 (priorityQueues m (priority e)) ++ [e]).
  { rewrite addToQueueInternal_row, Hfull. cbn [Nat.ltb Nat.leb MAX_QUEUE_SIZE].
    f_equal. apply firstn_all2. rewrite length_skipn, Hfull.
    unfold MAX_QUEUE_SIZE. lia. }
  split; [exact Hrow|]. split; [|split].
  - rewrite Hrow, length_app, length_skipn, Hfull. unfold MAX_QUEUE_SIZE.
    cbn [length]. lia.
  - intros p Hp. apply addToQueueInternal_other. assumption.
  - unfold addToQueueInternal.
    destruct (length (priorityQueues m (priority e)) <? MAX_QUEUE_SIZE)%nat;
      reflexivity.
Qed.

(** A full status row takes an eleventh frame: the frame with sequence
    number 1 leaves, the new one is last, the counters stay. *)
Lemma enqueue_full_level_evicts_oldest_witness :
  map (fun e => sequenceNumber (packet e))
    (priorityQueues
       (addToQueueInternal fullStatusRow
          (mkQueued (statusFrame 11) Priority.STATUS 11 0 0 false))
       Priority.STATUS)
  = [2; 3; 4; 5; 6; 7; 8; 9; 10; 11] /\
  counters (addToQueueInternal fullStatusRow
              (mkQueued (statusFrame 11) Priority.STATUS 11 0 0 false))
  = counters fullStatusRow.
Proof.
  destruct (enqueue_full_level_evicts_oldest fullStatusRow
              (mkQueued (statusFrame 11) Priority.STATUS 11 0 0 false))
    as (Hrow & _ & _ & Hcount).
  - vm_compute. reflexivity.
  - split; [|exact Hcount].
    cbn [priority] in Hrow. rewrite Hrow. vm_compute. reflexivity.
Defined.

(** C7 as stated fails on the count: sending an eleventh status frame to a
    manager whose status row holds ten leaves all four statistics counters
    as they were, so no overflow event is counted. *)
Lemma overflow_not_counted_counterexample :
  length (priorityQueues fullStatusRow Priority.STATUS) = MAX_QUEUE_SIZE /\
  counters (snd (sendPacket fullStatusRow (statusFrame 11) Priority.STATUS 11))
  = counters fullStatusRow.
Proof. vm_compute. split; reflexivity. Qed.

(** *** Transceiver failure *)

Lemma processIncomingPacket_silent (m : LoRaManager) (io : Radio) :
  silent io -> processIncomingPacket m io = m.
Proof.
  unfold silent, processIncomingPacket, receivePacket. intros ->. reflexivity.
Qed.

(** A tick whose transmit fails: only [transmitErrorCount] moves. *)
Lemma processQueue_transmit_failure (m : LoRaManager) (io : Radio)
  (row : Priority.t) (e : QueuedPacket) :
  silent io ->
  getNextPacket m = Some (row, e) ->
  waitingForAck e = false ->
  transmitAttempts e < MAX_RETRIES ->
  tx_ok io = false ->
  processQueue m io = (false, inc_transmitErrorCount m).
Proof.
  intros Hrx Hnext Hwait Hatt Htx.
  unfold processQueue. rewrite (processIncomingPacket_silent m io Hrx).
  rewrite Hnext, Hwait. cbn [andb].
  replace (transmitAttempts e >=? MAX_RETRIES) with false
    by (symmetry; rewrite Z.geb_leb; apply Z.leb_gt; assumption).
  unfold transmitPacket. rewrite Htx.
  destruct (Codec.serializePacket (packet e)); reflexivity.
Qed.

(** Clearing a flag that is clear leaves the entry as it is. *)
Lemma set_waitingForAck_idle (e : QueuedPacket) :
  waitingForAck e = false -> set_waitingForAck e false = e.
Proof. destruct e. cbn. intros ->. reflexivity. Qed.

(** A tick whose transmit fails, [m] being the manager once the tick has
    dealt with what it received: what the tick returns and leaves. *)
Lemma processQueue_failed_tick (m0 m : LoRaManager) (io : Radio)
  (row : Priority.t) (e : QueuedPacket) :
  processIncomingPacket m0 io = m ->
  getNextPacket m = Some (row, e) ->
  transmitAttempts e < MAX_RETRIES ->
  tx_ok io = false ->
  processQueue m0 io
  = if waitingForAck e && negb (ackTimedOut (now_check io) e)
    then (false, m)
    else if waitingForAck e
    then (false,
          inc_transmitErrorCount
            (inc_ackTimeoutCount
               (set_queue m row
                  (store_at 0 (set_waitingForAck e false) (priorityQueues m row)))))
    else (false, inc_transmitErrorCount m).
Proof.
  intros Hin Hnext Hatt Htx.
  unfold processQueue. rewrite Hin, Hnext.
  destruct (waitingForAck e) eqn:Hwait; cbn [andb].
  - destruct (ackTimedOut (now_check io) e); cbn [negb]; [|reflexivity].
    cbn [transmitAttempts set_waitingForAck].
    replace (transmitAttempts e >=? MAX_RETRIES) with false
      by (symmetry; rewrite Z.geb_leb; apply Z.leb_gt; assumption).
    unfold transmitPacket. rewrite Htx.
    change (packet (set_waitingForAck e false)) with (packet e).
    destruct (Codec.serializePacket (packet e)); reflexivity.
  - replace (transmitAttempts e >=? MAX_RETRIES) with false
      by (symmetry; rewrite Z.geb_leb; apply Z.leb_gt; assumption).
    unfold transmitPacket. rewrite Htx.
    destruct (Codec.serializePacket (packet e)); reflexivity.
Qed.

(** After a tick on which nothing is received and the transmit primitive
    fails, the next packet is the same entry, at most with its
    [waitingForAck] cleared. *)
Lemma failing_tick_keeps_head (m : LoRaManager) (io : Radio) (row : Priority.t)
  (e : QueuedPacket) :
  silent io -> tx_ok io = false ->
  getNextPacket m = Some (row, e) ->
  transmitAttempts e < MAX_RETRIES ->
  exists e',
    (e' = e \/ e' = set_waitingForAck e false) /\
    getNextPacket (snd (processQueue m io)) = Some (row, e') /\
    priorityQueues (snd (processQueue m io)) row = e' :: tl (priorityQueues m row) /\
    (forall p, p <> row ->
               priorityQueues (snd (processQueue m io)) p = priorityQueues m p) /\
    onAir (snd (processQueue m io)) = onAir m.
Proof.
  intros Hrx Htx Hnext Hatt.
  rewrite (processQueue_failed_tick m m io row e
             (processIncomingPacket_silent m io Hrx) Hnext Hatt Htx).
  destruct (getNextPacket_head m row e Hnext) as [[rest Hrow] Hfirst].
  destruct (waitingForAck e && negb (ackTimedOut (now_check io) e)).
  - exists e. cbn [snd]. rewrite Hrow. cbn [tl].
    split; [left; reflexivity|]. split; [assumption|].
    split; [reflexivity|]. split; [reflexivity|]. reflexivity.
  - destruct (waitingForAck e) eqn:Hwait.
    + exists (set_waitingForAck e false). cbn [snd].
      assert (Hrow' : priorityQueues
                        (inc_transmitErrorCount
                           (inc_ackTimeoutCount
                              (set_queue m row
                                 (store_at 0 (set_waitingForAck e false)
                                    (priorityQueues m row))))) row
                      = set_waitingForAck e false :: rest).
      { change (priorityQueues (inc_transmitErrorCount ?x)) with (priorityQueues x).
        change (priorityQueues (inc_ackTimeoutCount ?x)) with (priorityQueues x).
        rewrite set_queue_same, Hrow. reflexivity. }
      assert (Hother : forall p, p <> row ->
                 priorityQueues
                   (inc_transmitErrorCount
                      (inc_ackTimeoutCount
                         (set_queue m row
                            (store_at 0 (set_waitingForAck e false)
                               (priorityQueues m row))))) p
                 = priorityQueues m p).
      { intros p Hp.
        change (priorityQueues (inc_transmitErrorCount ?x)) with (priorityQueues x).
        change (priorityQueues (inc_ackTimeoutCount ?x)) with (priorityQueues x).
        apply set_queue_other. assumption. }
      split; [right; reflexivity|]. split.
      * apply (getNextPacket_intro _ row _ rest); [exact Hrow'|].
        intros p' Hp'. rewrite Hother.
        -- apply Hfirst. assumption.
        -- intro E. subst p'. lia.
      * split; [rewrite Hrow', Hrow; reflexivity|].
        split; [exact Hother | reflexivity].
    + exists e. cbn [snd].
      change (priorityQueues (inc_transmitErrorCount m)) with (priorityQueues m).
      rewrite Hrow. cbn [tl].
      split; [left; reflexivity|]. split; [exact Hnext|].
      split; [reflexivity|]. split; [reflexivity|]. reflexivity.
Qed.

(** C9 (as amended).  When the transmit primitive reports failure on a
    tick, the failure does not count as an attempt.  [m] being the manager
    once the tick has dealt with what it received, and its next packet [e]
    having attempts left: a tick that still waits for the acknowledgement
    of [e] does nothing; otherwise [transmitErrorCount] goes up by one,
    nothing goes on air, and nothing else changes except that, where [e]
    was waiting and its timeout had run out, the tick has cleared its
    [waitingForAck] and counted the timeout in [ackTimeoutCount].  Over any
    number of ticks on which nothing is received and every transmit fails,
    the entry stays the next packet with the same packet and the same
    [transmitAttempts], at most with [waitingForAck] cleared: it is never
    removed.  An entry that was not waiting is left as it was. *)
Theorem transceiver_failure_not_an_attempt (m : LoRaManager) (row : Priority.t)
  (e : QueuedPacket) (ios : list Radio) :
  getNextPacket m = Some (row, e) ->
  transmitAttempts e < MAX_RETRIES ->
  Forall (fun io => silent io /\ tx_ok io = false) ios ->
  (forall m0 io, processIncomingPacket m0 io = m -> tx_ok io = false ->
     processQueue m0 io
     = if waitingForAck e && negb (ackTimedOut (now_check io) e)
       then (false, m)
       else if waitingForAck e
       then (false,
             inc_transmitErrorCount
               (inc_ackTimeoutCount
                  (set_queue m row
                     (store_at 0 (set_waitingForAck e false) (priorityQueues m row)))))
       else (false, inc_transmitErrorCount m)) /\
  (exists e',
      getNextPacket (ticks m ios) = Some (row, e') /\
      (e' = e \/ e' = set_waitingForAck e false) /\
      packet e' = packet e /\
      transmitAttempts e' = transmitAttempts e /\
      priorityQueues (ticks m ios) row = e' :: tl (priorityQueues m row) /\
      (forall p, p <> row -> priorityQueues (ticks m ios) p = priorityQueues m p) /\
      onAir (ticks m ios) = onAir m) /\
  (waitingForAck e = false ->
   (forall io, silent io -> tx_ok io = false ->
               processQueue m io = (false, inc_transmitErrorCount m)) /\
   getNextPacket (ticks m ios) = Some (row, e) /\
   (forall p, priorityQueues (ticks m ios) p = priorityQueues m p)).
Proof.
  intros Hnext Hatt Hall.
  assert (Hrun : exists e',
             getNextPacket (ticks m ios) = Some (row, e') /\
             (e' = e \/ e' = set_waitingForAck e false) /\
             priorityQueues (ticks m ios) row = e' :: tl (priorityQueues m row) /\
             (forall p, p <> row -> priorityQueues (ticks m ios) p = priorityQueues m p) /\
             onAir (ticks m ios) = onAir m).
  { revert m e Hnext Hatt. induction Hall as [|io ios [Hrx Htx] _ IH]; intros m e Hnext Hatt.
    - exists e. cbn [ticks fold_left].
      destruct (getNextPacket_head m row e Hnext) as [[rest Hrow] _].
      rewrite Hrow. cbn [tl].
      split; [assumption|]. split; [left; reflexivity|].
      split; [reflexivity|]. split; reflexivity.
    - change (ticks m (io :: ios)) with (ticks (snd (processQueue m io)) ios).
      destruct (failing_tick_keeps_head m io row e Hrx Htx Hnext Hatt)
        as (e1 & He1 & Hnext1 & Hrow1 & Hother1 & Hair1).
      assert (Hatt1 : transmitAttempts e1 < MAX_RETRIES)
        by (destruct He1 as [-> | ->]; assumption).
      destruct (IH (snd (processQueue m io)) e1 Hnext1 Hatt1)
        as (e2 & Hnext2 & He2 & Hrow2 & Hother2 & Hair2).
      exists e2. split; [exact Hnext2|]. split.
      + destruct He1 as [-> | ->]; destruct He2 as [-> | ->]; auto.
      + split; [rewrite Hrow2, Hrow1; reflexivity|]. split.
        * intros p Hp. rewrite Hother2, Hother1 by assumption. reflexivity.
        * rewrite Hair2. exact Hair1. }
  split; [|split].
  - intros m0 io Hin Htx. apply processQueue_failed_tick; assumption.
  - destruct Hrun as (e' & Hnext' & He' & Hrow' & Hother' & Hair').
    exists e'. split; [assumption|]. split; [assumption|].
    split; [destruct He' as [-> | ->]; reflexivity|].
    split; [destruct He' as [-> | ->]; reflexivity|].
    split; [assumption|]. split; assumption.
  - intro Hwait. split; [|split].
    + intros io Hrx Htx.
      rewrite (processQueue_failed_tick m m io row e
                 (processIncomingPacket_silent m io Hrx) Hnext Hatt Htx).
      rewrite Hwait. reflexivity.
    + destruct Hrun as (e' & Hnext' & He' & _).
      rewrite Hnext'. rewrite (set_waitingForAck_idle e Hwait) in He'.
      destruct He' as [-> | ->]; reflexivity.
    + destruct Hrun as (e' & _ & He' & Hrow' & Hother' & _).
      rewrite (set_waitingForAck_idle e Hwait) in He'.
      assert (E : e' = e) by (destruct He'; assumption). subst e'.
      destruct (getNextPacket_head m row e Hnext) as [[rest Hrow] _].
      intro p. destruct (Priority.eqb p row) eqn:Hp.
      * apply PriorityFacts.eqb_eq in Hp. subst p.
        rewrite Hrow', Hrow. reflexivity.
      * apply PriorityFacts.eqb_neq in Hp. apply Hother'. assumption.
Qed.

(** The status frame 42 has been transmitted once and waits.  A tick at
    5000 ms, past the timeout, on which the transmit primitive fails clears
    its [waitingForAck], counts the timeout and the failure and leaves its
    [transmitAttempts] at 1; after five such ticks it is still the next
    packet with one attempt. *)
Lemma transceiver_failure_not_an_attempt_witness :
  (forall e, getNextPacket awaiting42 = Some (Priority.STATUS, e) ->
     waitingForAck e = true /\ transmitAttempts e = 1 /\
     counters (snd (processQueue awaiting42 (quietRadio 5000 false))) = (1, 0, 0, 1) /\
     getNextPacket (snd (processQueue awaiting42 (quietRadio 5000 false)))
     = Some (Priority.STATUS, set_waitingForAck e false)) /\
  (exists e', getNextPacket (ticks awaiting42 (repeat (quietRadio 5000 false) 5))
              = Some (Priority.STATUS, e') /\ transmitAttempts e' = 1).
Proof.
  pose (e := mkQueued (statusFrame 42) Priority.STATUS 0 1 10 true).
  destruct (transceiver_failure_not_an_attempt awaiting42 Priority.STATUS e
              (repeat (quietRadio 5000 false) 5)) as (Htick & Hrun & _).
  - vm_compute. reflexivity.
  - vm_compute. reflexivity.
  - repeat constructor.
  - split.
    + intros e0 He0. vm_compute in He0. injection He0 as <-.
      split; [reflexivity|]. split; [reflexivity|].
      assert (Hs : silent (quietRadio 5000 false)) by reflexivity.
      rewrite (Htick awaiting42 (quietRadio 5000 false)
                 (processIncomingPacket_silent awaiting42 _ Hs) eq_refl).
      vm_compute. split; reflexivity.
    + destruct Hrun as (e' & Hnext & _ & _ & Hatt & _).
      exists e'. split; [exact Hnext | exact Hatt].
Defined.

(** C9 as stated fails: after five ticks on each of which the transmit
    primitive fails, more than [MAX_RETRIES], the status frame is still
    queued, its [transmitAttempts] is still 0, and the five failures were
    counted in [transmitErrorCount]. *)
Lemma transceiver_failure_counterexample :
  map transmitAttempts
    (priorityQueues (ticks oneStatusQueued (repeat (quietRadio 5000 false) 5))
       Priority.STATUS) = [0] /\
  transmitErrorCount (ticks oneStatusQueued (repeat (quietRadio 5000 false) 5)) = 5.
Proof. vm_compute. split; reflexivity. Qed.

(** *** Sequence numbers on the manager's side *)

(** Frames queued through [sendTelemetry] all carry sequence number 0, and
    [nextSequenceNumber] stays where the constructor put it. *)
Lemma sendTelemetry_sequence_zero (m : LoRaManager) (bytes hdr : list Z) (now : Z) :
  In (mkQueued (createPacket (PacketType.code PacketType.TELEMETRY) bytes hdr)
        Priority.TELEMETRY (wrap32 now) 0 0 false)
     (priorityQueues (snd (sendTelemetry m bytes hdr now)) Priority.TELEMETRY) /\
  sequenceNumber (createPacket (PacketType.code PacketType.TELEMETRY) bytes hdr) = 0 /\
  nextSequenceNumber (snd (sendTelemetry m bytes hdr now)) = nextSequenceNumber m.
Proof.
  unfold sendTelemetry, sendPacket. cbn [snd]. split; [|split].
  - pose proof (addToQueueInternal_row m
                  (mkQueued (createPacket (PacketType.code PacketType.TELEMETRY) bytes hdr)
                     Priority.TELEMETRY (wrap32 now) 0 0 false)) as H.
    cbn [priority] in H. rewrite H.
    destruct (_ <? _)%nat; apply in_or_app; right; left; reflexivity.
  - reflexivity.
  - unfold addToQueueInternal. destruct (_ <? _)%nat; reflexivity.
Qed.

(** *** Invariants of the rows *)

Lemma In_firstn {A : Type} (n : nat) (l : list A) (x : A) :
  In x (firstn n l) -> In x l.
Proof.
  revert l. induction n as [|n IH]; intros [|a l] H; cbn in *; try tauto.
  destruct H as [H|H]; [left; assumption | right; apply IH; assumption].
Qed.

Lemma In_skipn {A : Type} (n : nat) (l : list A) (x : A) :
  In x (skipn n l) -> In x l.
Proof.
  revert l. induction n as [|n IH]; intros [|a l] H; cbn in *; try tauto.
  right. apply IH. assumption.
Qed.

Lemma Forall_tl {A : Type} (P : A -> Prop) (l : list A) :
  Forall P l -> Forall P (tl l).
Proof. intro H. destruct H; [constructor | assumption]. Qed.

Lemma In_removeAt (i : nat) (q : list QueuedPacket) (e : QueuedPacket) :
  In e (removeAt i q) -> In e q.
Proof.
  unfold removeAt. intro H. apply In_firstn in H.
  apply in_app_or in H. destruct H as [H|H].
  - apply In_firstn in H. assumption.
  - apply In_skipn in H. assumption.
Qed.

Lemma removeAt_in_range (i : nat) (q : list QueuedPacket) :
  (i < length q)%nat -> removeAt i q = firstn i q ++ skipn (S i) q.
Proof.
  intro H. unfold removeAt. apply firstn_all2.
  rewrite length_app, length_firstn, length_skipn. lia.
Qed.

Lemma removeAt_head (e : QueuedPacket) (rest : list QueuedPacket) :
  removeAt 0 (e :: rest) = rest.
Proof. rewrite removeAt_in_range by (cbn; lia). reflexivity. Qed.

Lemma length_removeAt (i : nat) (q : list QueuedPacket) :
  (length (removeAt i q) <= length q)%nat.
Proof. unfold removeAt. rewrite length_firstn. lia. Qed.

Lemma tl_removeAt_idle (i : nat) (q : list QueuedPacket) :
  Forall idle (tl q) -> Forall idle (tl (removeAt i q)).
Proof.
  intro H. destruct q as [|x r]; [constructor|]. cbn [tl] in H.
  destruct i as [|j].
  - rewrite removeAt_head. apply Forall_tl. assumption.
  - unfold removeAt.
    change (skipn (S (S j)) (x :: r)) with (skipn (S j) r).
    change (firstn (S j) (x :: r)) with (x :: firstn j r).
    cbn [length Nat.sub app]. rewrite Nat.sub_0_r.
    destruct (length r) as [|n]; [constructor|]. cbn [firstn tl].
    apply Forall_forall. intros e He.
    apply In_firstn in He. apply in_app_or in He.
    rewrite Forall_forall in H. apply H.
    destruct He as [He|He]; [apply In_firstn in He | apply In_skipn in He];
      assumption.
Qed.

Lemma length_store_at (i : nat) (e : QueuedPacket) (q : list QueuedPacket) :
  length (store_at i e q) = length q.
Proof.
  revert i. induction q as [|x q IH]; intros [|i]; cbn; try reflexivity.
  rewrite IH. reflexivity.
Qed.

Lemma In_store_at (i : nat) (e x : QueuedPacket) (q : list QueuedPacket) :
  In x (store_at i e q) -> x = e \/ In x q.
Proof.
  revert i. induction q as [|y q IH]; intros [|i] H; cbn in *; try tauto.
  - destruct H as [H|H]; [left; congruence | tauto].
  - destruct H as [H|H]; [tauto|]. destruct (IH i H); tauto.
Qed.

Lemma Forall_store_at (P : QueuedPacket -> Prop) (i : nat) (e : QueuedPacket)
  (q : list QueuedPacket) :
  P e -> Forall P q -> Forall P (store_at i e q).
Proof.
  intros He Hq. apply Forall_forall. intros x Hx.
  destruct (In_store_at i e x q Hx) as [->|Hin]; [assumption|].
  rewrite Forall_forall in Hq. apply Hq. assumption.
Qed.

Lemma tl_store_at_head (e : QueuedPacket) (q : list QueuedPacket) :
  tl (store_at 0 e q) = tl q.
Proof. destruct q; reflexivity. Qed.

Lemma tl_store_at_idle (i : nat) (e : QueuedPacket) (q : list QueuedPacket) :
  idle e -> Forall idle (tl q) -> Forall idle (tl (store_at i e q)).
Proof.
  intros He H. destruct q as [|x r]; [constructor|].
  destruct i as [|j]; cbn [store_at tl] in *; [assumption|].
  apply Forall_store_at; assumption.
Qed.

Lemma row_ok_append (p : Priority.t) (q : list QueuedPacket) (e : QueuedPacket) :
  row_ok p q -> priority e = p -> idle e ->
  (length q < MAX_QUEUE_SIZE)%nat ->
  row_ok p (q ++ [e]).
Proof.
  intros (Hlen & Hprio & Hidle) Hp He Hlt. split; [|split].
  - rewrite length_app. cbn [length]. lia.
  - intros x Hx. apply in_app_or in Hx. destruct Hx as [Hx|[<-|[]]]; auto.
  - destruct q as [|y r]; cbn [app tl] in *; [constructor|].
    apply Forall_app. split; [assumption | repeat constructor; assumption].
Qed.

Lemma row_ok_overflow (p : Priority.t) (q : list QueuedPacket) (e : QueuedPacket) :
  row_ok p q -> priority e = p -> idle e ->
  row_ok p (firstn (MAX_QUEUE_SIZE - 1) (skipn 1 q) ++ [e]).
Proof.
  intros (Hlen & Hprio & Hidle) Hp He. split; [|split].
  - rewrite length_app, length_firstn. cbn [length]. unfold MAX_QUEUE_SIZE. lia.
  - intros x Hx. apply in_app_or in Hx. destruct Hx as [Hx|[<-|[]]]; [|assumption].
    apply Hprio. apply In_firstn in Hx. apply In_skipn in Hx. assumption.
  - apply Forall_tl. apply Forall_app. split; [|repeat constructor; assumption].
    apply Forall_forall. intros x Hx. apply In_firstn in Hx.
    rewrite Forall_forall in Hidle. apply Hidle.
    destruct q; [destruct Hx | exact Hx].
Qed.

Lemma row_ok_removeAt (p : Priority.t) (q : list QueuedPacket) (i : nat) :
  row_ok p q -> row_ok p (removeAt i q).
Proof.
  intros (Hlen & Hprio & Hidle). split; [|split].
  - pose proof (length_removeAt i q). lia.
  - intros x Hx. apply Hprio. apply (In_removeAt i). assumption.
  - apply tl_removeAt_idle. assumption.
Qed.

Lemma row_ok_store_head (p : Priority.t) (q : list QueuedPacket) (e : QueuedPacket) :
  row_ok p q -> priority e = p -> row_ok p (store_at 0 e q).
Proof.
  intros (Hlen & Hprio & Hidle) Hp. split; [|split].
  - rewrite length_store_at. assumption.
  - intros x Hx. destruct (In_store_at 0 e x q Hx) as [->|Hin]; auto.
  - rewrite tl_store_at_head. assumption.
Qed.

Lemma row_ok_store_idle (p : Priority.t) (q : list QueuedPacket) (i : nat)
  (e : QueuedPacket) :
  row_ok p q -> priority e = p -> idle e -> row_ok p (store_at i e q).
Proof.
  intros (Hlen & Hprio & Hidle) Hp He. split; [|split].
  - rewrite length_store_at. assumption.
  - intros x Hx. destruct (In_store_at i e x q Hx) as [->|Hin]; auto.
  - apply tl_store_at_idle; assumption.
Qed.

Lemma rows_ok_set_queue (m : LoRaManager) (p : Priority.t) (q : list QueuedPacket) :
  rows_ok m -> row_ok p q -> rows_ok (set_queue m p q).
Proof.
  intros Hm Hq p'.
  destruct (Priority.eqb p' p) eqn:E;
    [apply PriorityFacts.eqb_eq in E | apply PriorityFacts.eqb_neq in E].
  - subst p'. rewrite set_queue_same. assumption.
  - rewrite set_queue_other by assumption. apply Hm.
Qed.

(** The invariant only looks at the rows. *)
Lemma rows_ok_ext (m m' : LoRaManager) :
  priorityQueues m' = priorityQueues m -> rows_ok m -> rows_ok m'.
Proof. intros E H p. rewrite E. apply H. Qed.

Lemma rows_ok_addToQueueInternal (m : LoRaManager) (e : QueuedPacket) :
  rows_ok m -> idle e -> rows_ok (addToQueueInternal m e).
Proof.
  intros Hm He. unfold addToQueueInternal.
  destruct (Nat.ltb_spec (length (priorityQueues m (priority e))) MAX_QUEUE_SIZE).
  - apply rows_ok_set_queue; [assumption|].
    apply row_ok_append; auto.
  - apply rows_ok_set_queue; [assumption|].
    apply row_ok_overflow; auto.
Qed.

Lemma rows_ok_removePacketFromQueue (m : LoRaManager) (p : Priority.t) (i : nat) :
  rows_ok m -> rows_ok (removePacketFromQueue m p i).
Proof.
  intro Hm. unfold removePacketFromQueue.
  apply rows_ok_set_queue; [assumption|]. apply row_ok_removeAt. apply Hm.
Qed.

Lemma adaptTransmissionSettings_queues (m : LoRaManager) (rssi snr : Z) :
  priorityQueues (adaptTransmissionSettings m rssi snr) = priorityQueues m.
Proof.
  unfold adaptTransmissionSettings, setSpreadingFactor.
  repeat match goal with
         | |- context [if ?b then _ else _] => destruct b
         end; reflexivity.
Qed.

Lemma rows_ok_handleAck (m : LoRaManager) (ack : Packet) :
  rows_ok m -> rows_ok (handleAck m ack).
Proof.
  intro Hm. unfold handleAck.
  destruct (payloadLength ack <? 4); [assumption|].
  destruct (findWaiting _ _ _) as [[p i]|]; [|assumption].
  apply (rows_ok_ext (removePacketFromQueue m p i)).
  - apply adaptTransmissionSettings_queues.
  - apply rows_ok_removePacketFromQueue. assumption.
Qed.

Lemma rows_ok_handleNack (m : LoRaManager) (nack : Packet) :
  rows_ok m -> rows_ok (handleNack m nack).
Proof.
  intro Hm. unfold handleNack.
  destruct (payloadLength nack <? 3); [assumption|].
  destruct (findWaiting _ _ _) as [[p i]|]; [|assumption].
  destruct (nth_error (priorityQueues m p) i) as [qp|] eqn:E; [|assumption].
  apply rows_ok_set_queue; [assumption|].
  apply row_ok_store_idle; [apply Hm | | reflexivity].
  cbn [set_waitingForAck priority].
  destruct (Hm p) as (_ & Hprio & _). apply Hprio.
  apply (nth_error_In _ i). assumption.
Qed.

Lemma receivePacket_queues (m : LoRaManager) (io : Radio) :
  priorityQueues (snd (receivePacket m io)) = priorityQueues m.
Proof.
  unfold receivePacket.
  destruct (rx io) as [[[bytes r] s]|]; [|reflexivity].
  destruct (Codec.deserializePacket _ _) as [pkt|]; [|reflexivity].
  destruct (Codec.validatePacket pkt); reflexivity.
Qed.

Lemma rows_ok_processIncomingPacket (m : LoRaManager) (io : Radio) :
  rows_ok m -> rows_ok (processIncomingPacket m io).
Proof.
  intro Hm. unfold processIncomingPacket.
  pose proof (receivePacket_queues m io) as Hq.
  destruct (receivePacket m io) as [[pkt|] m1]; cbn [snd] in Hq.
  - pose proof (rows_ok_ext m m1 Hq Hm) as Hm1.
    destruct (type pkt =? _); [apply rows_ok_handleAck; assumption|].
    destruct (type pkt =? _); [apply rows_ok_handleNack; assumption|].
    assumption.
  - apply (rows_ok_ext m m1 Hq Hm).
Qed.

Lemma transmitPacket_queues (m : LoRaManager) (pkt : Packet) (io : Radio) :
  priorityQueues (snd (transmitPacket m pkt io)) = priorityQueues m.
Proof.
  unfold transmitPacket.
  destruct (Codec.serializePacket pkt); [|reflexivity].
  destruct (tx_ok io); reflexivity.
Qed.

Lemma rows_ok_processQueue (m : LoRaManager) (io : Radio) :
  rows_ok m -> rows_ok (snd (processQueue m io)).
Proof.
  intro Hm0. unfold processQueue.
  pose proof (rows_ok_processIncomingPacket m io Hm0) as Hm.
  set (m1 := processIncomingPacket m io) in *. clearbody m1.
  destruct (getNextPacket m1) as [[row e]|] eqn:Hnext; [|assumption].
  destruct (getNextPacket_head m1 row e Hnext) as [[rest Hrow] _].
  assert (Hprio : priority e = row).
  { destruct (Hm row) as (_ & H & _). apply H. rewrite Hrow. left. reflexivity. }
  destruct (waitingForAck e && negb (ackTimedOut (now_check io) e));
    [assumption|].
  assert (Hgen : forall (e1 : QueuedPacket) (m2 : LoRaManager),
             rows_ok m2 -> priority e1 = row ->
             rows_ok
               (snd
                  (if transmitAttempts e1 >=? MAX_RETRIES
                   then
                     (false,
                      inc_transmitErrorCount
                        (removePacketFromQueue m2 (priority e1) 0))
                   else
                     match transmitPacket m2 (packet e1) io with
                     | (true, m3) =>
                         (true,
                          set_transmit
                            (set_queue m3 row
                               (store_at 0 (mark_transmitted e1 (now_tx io))
                                  (priorityQueues m3 row)))
                            true (wrap32 (now_start io)))
                     | (false, m3) => (false, inc_transmitErrorCount m3)
                     end))).
  { intros e1 m2 Hm2 Hp1.
    destruct (transmitAttempts e1 >=? MAX_RETRIES).
    - cbn [snd]. apply (rows_ok_ext (removePacketFromQueue m2 (priority e1) 0));
        [reflexivity|].
      apply rows_ok_removePacketFromQueue. assumption.
    - pose proof (transmitPacket_queues m2 (packet e1) io) as Hq.
      destruct (transmitPacket m2 (packet e1) io) as [[|] m3]; cbn [snd] in *.
      + pose proof (rows_ok_ext m2 m3 Hq Hm2) as Hm3.
        apply (rows_ok_ext
                 (set_queue m3 row
                    (store_at 0 (mark_transmitted e1 (now_tx io))
                       (priorityQueues m3 row)))); [reflexivity|].
        apply rows_ok_set_queue; [assumption|].
        apply row_ok_store_head; [apply Hm3 | assumption].
      + apply (rows_ok_ext m3); [reflexivity|].
        apply (rows_ok_ext m2 m3 Hq Hm2). }
  destruct (waitingForAck e).
  - apply Hgen; [|assumption].
    apply (rows_ok_ext
             (set_queue m1 row
                (store_at 0 (set_waitingForAck e false) (priorityQueues m1 row))));
      [reflexivity|].
    apply rows_ok_set_queue; [assumption|].
    apply row_ok_store_head; [apply Hm | assumption].
  - apply Hgen; assumption.
Qed.

Lemma rows_ok_init (seed : Z) : rows_ok (init seed).
Proof.
  intro p. cbn. repeat split.
  - unfold MAX_QUEUE_SIZE. cbn [length]. lia.
  - intros e [].
  - constructor.
Qed.

(** The row invariant holds in every reachable state. *)
Lemma reachable_rows_ok (m : LoRaManager) : reachable m -> rows_ok m.
Proof.
  induction 1 as [seed | m pkt prio now _ IH | m io _ IH | m ack _ IH | m nack _ IH].
  - apply rows_ok_init.
  - cbn [sendPacket snd]. apply rows_ok_addToQueueInternal; [assumption|reflexivity].
  - apply rows_ok_processQueue. assumption.
  - apply rows_ok_handleAck. assumption.
  - apply rows_ok_handleNack. assumption.
Qed.

(** In particular the hypotheses on the rows made further down hold of
    every reachable state. *)
Lemma reachable_rows_consistent (m : LoRaManager) :
  reachable m -> rows_consistent m /\ rows_bounded m.
Proof.
  intro H. pose proof (reachable_rows_ok m H) as Hok. split.
  - intros p e He. destruct (Hok p) as (_ & Hp & _). apply Hp. assumption.
  - intro p. destruct (Hok p) as (Hl & _). assumption.
Qed.

Lemma waitingInRow_idle (q : list QueuedPacket) :
  Forall idle q -> waitingInRow q = 0%nat.
Proof.
  unfold waitingInRow. induction 1 as [|e q He _ IH]; [reflexivity|].
  cbn [filter]. unfold idle in He. rewrite He. assumption.
Qed.

Lemma waitingInRow_head_only (q : list QueuedPacket) :
  Forall idle (tl q) -> (waitingInRow q <= 1)%nat.
Proof.
  destruct q as [|e r]; cbn [tl]; intro H.
  - cbn. lia.
  - pose proof (waitingInRow_idle r H) as Hr. unfold waitingInRow in *.
    cbn [filter]. destruct (waitingForAck e); cbn [length]; lia.
Qed.

(** C1 (as amended).  In every state reachable from the constructor by
    [sendPacket], [processQueue], [handleAck] and [handleNack], within each
    priority level only the head entry can have [waitingForAck] set, so at
    most one entry per level, and at most five in all, wait for an
    acknowledgement. *)
Theorem one_in_flight_per_level (m : LoRaManager) :
  reachable m ->
  (forall p, Forall idle (tl (priorityQueues m p)) /\
             (waitingInRow (priorityQueues m p) <= 1)%nat) /\
  (waitingCount m <= 5)%nat.
Proof.
  intro H. pose proof (reachable_rows_ok m H) as Hok.
  assert (Hrow : forall p, Forall idle (tl (priorityQueues m p)) /\
                           (waitingInRow (priorityQueues m p) <= 1)%nat).
  { intro p. destruct (Hok p) as (_ & _ & Hidle).
    split; [assumption | apply waitingInRow_head_only; assumption]. }
  split; [exact Hrow|].
  unfold waitingCount. cbn [fold_right Priority.all].
  pose proof (proj2 (Hrow Priority.EMERGENCY)).
  pose proof (proj2 (Hrow Priority.GPS)).
  pose proof (proj2 (Hrow Priority.TELEMETRY)).
  pose proof (proj2 (Hrow Priority.CAMERA)).
  pose proof (proj2 (Hrow Priority.STATUS)).
  lia.
Qed.

Lemma overtaken_reachable : reachable overtaken.
Proof.
  unfold overtaken.
  apply reach_processQueue, reach_sendPacket, reach_processQueue,
    reach_sendPacket, reach_init.
Qed.

(** The overtaken status frame: two entries wait, one in each of two
    levels, none behind a head. *)
Lemma one_in_flight_per_level_witness :
  (waitingInRow (priorityQueues overtaken Priority.EMERGENCY) <= 1)%nat /\
  (waitingInRow (priorityQueues overtaken Priority.STATUS) <= 1)%nat /\
  (waitingCount overtaken <= 5)%nat.
Proof.
  destruct (one_in_flight_per_level overtaken overtaken_reachable) as [Hrow Hall].
  split; [apply Hrow|]. split; [apply Hrow | exact Hall].
Defined.

(** C1 as stated fails: a status frame is sent and transmitted; while it
    waits for its acknowledgement an emergency frame is sent, and the next
    tick transmits that one too.  The state is reachable and two entries
    have [waitingForAck] set. *)
Lemma single_flight_counterexample :
  reachable overtaken /\ waitingCount overtaken = 2%nat /\
  ~ (waitingCount overtaken <= 1)%nat.
Proof.
  split; [exact overtaken_reachable|].
  assert (H : waitingCount overtaken = 2%nat) by (vm_compute; reflexivity).
  split; [exact H|]. rewrite H. lia.
Qed.

(** *** NACK handling and the shared type codes *)

Lemma findInRow_first (seq : Z) (q : list QueuedPacket) (i0 j : nat)
  (e : QueuedPacket) :
  nth_error q j = Some e ->
  awaited seq e = true ->
  (forall j' e', (j' < j)%nat -> nth_error q j' = Some e' -> awaited seq e' = false) ->
  findInRow seq q i0 = Some (i0 + j)%nat.
Proof.
  revert i0 j. induction q as [|x r IH]; intros i0 j Hj He Hbefore.
  - destruct j; discriminate.
  - destruct j as [|j]; cbn [nth_error] in Hj.
    + injection Hj as ->. cbn [findInRow]. rewrite He.
      f_equal. lia.
    + cbn [findInRow].
      pose proof (Hbefore 0%nat x ltac:(lia) eq_refl) as Hx.
      rewrite Hx.
      rewrite (IH (S i0) j Hj He).
      * f_equal. lia.
      * intros j' e' Hlt Hn. apply (Hbefore (S j') e'); [lia | exact Hn].
Qed.

Lemma findInRow_none (seq : Z) (q : list QueuedPacket) (i0 : nat) :
  (forall e, In e q -> awaited seq e = false) -> findInRow seq q i0 = None.
Proof.
  revert i0. induction q as [|x r IH]; intros i0 H; [reflexivity|].
  cbn [findInRow]. pose proof (H x (or_introl eq_refl)) as Hx.
  rewrite Hx. apply IH.
  intros e He. apply H. right. assumption.
Qed.

Lemma findWaiting_first (m : LoRaManager) (seq : Z) (p : Priority.t) (i : nat) :
  firstAwaited m seq p i ->
  findWaiting (priorityQueues m) seq Priority.all = Some (p, i).
Proof.
  intros ((e & Hi & He) & Hbefore & Hrows).
  pose proof (findInRow_first seq (priorityQueues m p) 0 i e Hi He Hbefore) as Hrow.
  assert (Hearlier : forall p', Priority.code p' < Priority.code p ->
                                findInRow seq (priorityQueues m p') 0 = None).
  { intros p' Hlt. apply findInRow_none. intros x Hx. apply (Hrows p'); assumption. }
  cbn [Nat.add] in Hrow.
  destruct p; cbn [findWaiting Priority.all];
    repeat
      match goal with
      | |- context [findInRow seq (priorityQueues m ?r) 0] =>
          first [ rewrite Hrow | rewrite (Hearlier r) by (cbn; lia) ]
      end;
    reflexivity.
Qed.

Lemma findWaiting_none (m : LoRaManager) (seq : Z) :
  (forall p e, In e (priorityQueues m p) -> awaited seq e = false) ->
  findWaiting (priorityQueues m) seq Priority.all = None.
Proof.
  intro H. cbn [findWaiting Priority.all].
  rewrite !findInRow_none by (intros e He; eapply H; eassumption).
  reflexivity.
Qed.

Lemma nth_error_store_at_same (i : nat) (x y : QueuedPacket) (q : list QueuedPacket) :
  nth_error q i = Some y -> nth_error (store_at i x q) i = Some x.
Proof.
  revert i. induction q as [|z r IH]; intros [|i] H; try discriminate.
  - reflexivity.
  - cbn [store_at nth_error] in *. apply IH. assumption.
Qed.

Lemma nth_error_store_at_other (i j : nat) (x : QueuedPacket) (q : list QueuedPacket) :
  j <> i -> nth_error (store_at i x q) j = nth_error q j.
Proof.
  revert i j. induction q as [|z r IH]; intros [|i] [|j] H;
    cbn [store_at nth_error]; try reflexivity.
  - contradiction.
  - apply IH. lia.
Qed.

(** C10 (as amended).  The enumeration gives one code to two names five
    times over (TELEMETRY/GPS 0x02, CAMERA_THUMB/GPS_DATA 0x03,
    ACK/COMMAND_ACK 0x06, NACK/STATUS 0x07, PING/DEBUG 0x08), so the type
    byte does not determine the name.  Every frame [receivePacket] accepts
    whose type byte is 0x07, a STATUS frame included, is handed to
    [handleNack].  With fewer than three payload bytes the handler changes
    nothing.  With three or more it clears [waitingForAck] on the first
    entry (levels in priority order, each from its head) that is waiting and
    whose sequence number is the frame's first two payload bytes, and leaves
    every other entry, every other level and the counters as they were; if
    no such entry exists it changes nothing. *)
Theorem type_0x07_frames_reach_handleNack (m m1 : LoRaManager) (io : Radio)
  (pkt : Packet) :
  receivePacket m io = (Some pkt, m1) ->
  type pkt = 0x07 ->
  (PacketType.code PacketType.TELEMETRY = PacketType.code PacketType.GPS /\
   PacketType.code PacketType.CAMERA_THUMB = PacketType.code PacketType.GPS_DATA /\
   PacketType.code PacketType.ACK = PacketType.code PacketType.COMMAND_ACK /\
   PacketType.code PacketType.NACK = PacketType.code PacketType.STATUS /\
   PacketType.code PacketType.PING = PacketType.code PacketType.DEBUG /\
   PacketType.STATUS <> PacketType.NACK /\
   type pkt = PacketType.code PacketType.STATUS) /\
  processIncomingPacket m io = handleNack m1 pkt /\
  (payloadLength pkt < 3 -> handleNack m1 pkt = m1) /\
  ((forall p e, In e (priorityQueues m1 p) ->
                awaited (payloadSequence pkt) e = false) ->
   handleNack m1 pkt = m1) /\
  (forall p i,
      3 <= payloadLength pkt ->
      firstAwaited m1 (payloadSequence pkt) p i ->
      exists e,
        nth_error (priorityQueues m1 p) i = Some e /\
        sequenceNumber (packet e) = payloadSequence pkt /\
        waitingForAck e = true /\
        nth_error (priorityQueues (handleNack m1 pkt) p) i
        = Some (set_waitingForAck e false) /\
        (forall j, j <> i ->
                   nth_error (priorityQueues (handleNack m1 pkt) p) j
                   = nth_error (priorityQueues m1 p) j) /\
        (forall p', p' <> p ->
                    priorityQueues (handleNack m1 pkt) p' = priorityQueues m1 p') /\
        counters (handleNack m1 pkt) = counters m1 /\
        onAir (handleNack m1 pkt) = onAir m1).
Proof.
  intros Hrecv Htype. split; [|split; [|split; [|split]]].
  - repeat split; try reflexivity; [discriminate | exact Htype].
  - unfold processIncomingPacket. rewrite Hrecv, Htype. reflexivity.
  - intro Hshort. unfold handleNack.
    replace (payloadLength pkt <? 3) with true
      by (symmetry; apply Z.ltb_lt; assumption).
    reflexivity.
  - intro Hnone. unfold handleNack.
    destruct (payloadLength pkt <? 3); [reflexivity|].
    rewrite (findWaiting_none m1 _ Hnone). reflexivity.
  - intros p i Hlong Hfirst.
    pose proof Hfirst as ((e & Hi & He) & _).
    exists e. unfold handleNack.
    replace (payloadLength pkt <? 3) with false
      by (symmetry; apply Z.ltb_ge; assumption).
    rewrite (findWaiting_first m1 _ p i Hfirst), Hi.
    unfold awaited in He. apply andb_prop in He. destruct He as [Hseq Hwait].
    apply Z.eqb_eq in Hseq.
    repeat split; try assumption.
    + rewrite set_queue_same. apply (nth_error_store_at_same i _ e). assumption.
    + intros j Hj. rewrite set_queue_same. apply nth_error_store_at_other. assumption.
    + intros p' Hp'. apply set_queue_other. assumption.
Qed.

(** A status frame whose three text bytes are 0, 42, 33 reaches a manager
    whose entry 42 waits: the entry stops waiting. *)
Lemma type_0x07_frames_reach_handleNack_witness :
  exists e,
    nth_error
      (priorityQueues
         (processIncomingPacket awaiting42 (hearing (statusOnAir [0; 42; 33])))
         Priority.STATUS) 0 = Some e /\
    sequenceNumber (packet e) = 42 /\ waitingForAck e = false.
Proof.
  pose (io := hearing (statusOnAir [0; 42; 33])).
  pose (pkt := match fst (receivePacket awaiting42 io) with
               | Some p => p
               | None => statusFrame 0
               end).
  pose (m1 := snd (receivePacket awaiting42 io)).
  destruct (type_0x07_frames_reach_handleNack awaiting42 m1 io pkt)
    as (_ & Hproc & _ & _ & Hclear).
  - vm_compute. reflexivity.
  - vm_compute. reflexivity.
  - destruct (Hclear Priority.STATUS 0%nat) as (e & He & Hseq & _ & Hnew & _).
    + vm_compute. discriminate.
    + split; [|split].
      * eexists. split; vm_compute; reflexivity.
      * intros j e Hj. lia.
      * intros p' e Hp' Hin. destruct p'; vm_compute in Hin; try contradiction.
        vm_compute in Hp'. discriminate.
    + exists (set_waitingForAck e false). fold io. rewrite Hproc.
      split; [exact Hnew|]. split; [|reflexivity].
      cbn [set_waitingForAck packet]. rewrite Hseq. vm_compute. reflexivity.
Defined.

(** C10 as stated fails for short frames: a STATUS frame whose text is the
    two bytes 0, 42 is accepted by [receivePacket], has type byte 0x07 and
    its first two payload bytes give 42, the sequence number of the waiting
    entry; after [processIncomingPacket] the entry still waits. *)
Lemma short_status_frame_counterexample :
  exists pkt m1,
    receivePacket awaiting42 (hearing (statusOnAir [0; 42])) = (Some pkt, m1) /\
    type pkt = 0x07 /\ payload pkt = [0; 42] /\ payloadSequence pkt = 42 /\
    map (fun e => (sequenceNumber (packet e), waitingForAck e))
      (priorityQueues m1 Priority.STATUS) = [(42, true)] /\
    map (fun e => (sequenceNumber (packet e), waitingForAck e))
      (priorityQueues
         (processIncomingPacket awaiting42 (hearing (statusOnAir [0; 42])))
         Priority.STATUS) = [(42, true)].
Proof.
  eexists. eexists. split; [vm_compute; reflexivity|].
  repeat split; vm_compute; reflexivity.
Qed.

(** *** The retry cycle *)

Section Tick.

Variables (m : LoRaManager) (io : Radio) (row : Priority.t) (e : QueuedPacket)
          (rest : list QueuedPacket).
Hypothesis Hrow : priorityQueues m row = e :: rest.
Hypothesis Hfirst :
  forall p', Priority.code p' < Priority.code row -> priorityQueues m p' = [].
Hypothesis Hsilent : silent io.

Lemma tick_next : getNextPacket m = Some (row, e).
Proof. apply (getNextPacket_intro m row e rest); assumption. Qed.


(** Not waiting, or timed out, with attempts left: the packet goes on air
    and the head is marked. *)
Lemma tick_transmits (buffer : list Z) :
  waitingForAck e && negb (ackTimedOut (now_check io) e) = false ->
  transmitAttempts e < MAX_RETRIES ->
  Codec.serializePacket (packet e) = Some buffer ->
  tx_ok io = true ->
  exists m',
    processQueue m io = (true, m') /\
    priorityQueues m' row = mark_transmitted e (now_tx io) :: rest /\
    (forall p, p <> row -> priorityQueues m' p = priorityQueues m p) /\
    onAir m' = onAir m ++ [buffer] /\
    transmitErrorCount m' = transmitErrorCount m.
Proof.
  intros Hc Hatt Hser Htx. unfold processQueue.
  rewrite (processIncomingPacket_silent m io Hsilent), tick_next, Hc.
  assert (Hlt : (transmitAttempts e >=? MAX_RETRIES) = false)
    by (rewrite Z.geb_leb; apply Z.leb_gt; assumption).
  destruct (waitingForAck e) eqn:Hw;
    cbn [set_waitingForAck transmitAttempts packet];
    rewrite Hlt; unfold transmitPacket; rewrite Hser, Htx;
    eexists; (split; [reflexivity|]);
    cbn [priorityQueues set_queue set_queues set_transmit log_onAir
         inc_ackTimeoutCount onAir transmitErrorCount];
    rewrite ?PriorityFacts.eqb_refl, ?Hrow; cbn [store_at];
    (split; [reflexivity|]);
    (split; [|split; reflexivity]);
    intros p Hp; apply PriorityFacts.eqb_neq in Hp; rewrite ?Hp; reflexivity.
Qed.

(** Not waiting, or timed out, with no attempt left: the entry is removed
    and counted. *)
Lemma tick_drops :
  waitingForAck e && negb (ackTimedOut (now_check io) e) = false ->
  MAX_RETRIES <= transmitAttempts e ->
  priority e = row ->
  exists m',
    processQueue m io = (false, m') /\
    priorityQueues m' row = rest /\
    (forall p, p <> row -> priorityQueues m' p = priorityQueues m p) /\
    onAir m' = onAir m /\
    transmitErrorCount m' = wrap32 (transmitErrorCount m + 1).
Proof.
  intros Hc Hatt Hprio. unfold processQueue.
  rewrite (processIncomingPacket_silent m io Hsilent), tick_next, Hc.
  assert (Hge : (transmitAttempts e >=? MAX_RETRIES) = true)
    by (rewrite Z.geb_leb; apply Z.leb_le; assumption).
  destruct (waitingForAck e) eqn:Hw;
    cbn [set_waitingForAck transmitAttempts priority];
    rewrite Hge, Hprio;
    eexists; (split; [reflexivity|]);
    unfold removePacketFromQueue;
    cbn [priorityQueues set_queue set_queues inc_transmitErrorCount
         inc_ackTimeoutCount onAir transmitErrorCount];
    rewrite ?PriorityFacts.eqb_refl, ?Hrow; cbn [store_at];
    rewrite removeAt_head;
    (split; [reflexivity|]);
    (split; [|split; reflexivity]);
    intros p Hp; apply PriorityFacts.eqb_neq in Hp; rewrite ?Hp; reflexivity.
Qed.

End Tick.

Section RetryCycle.

Variables (m0 : LoRaManager) (row : Priority.t) (e : QueuedPacket)
          (buffer : list Z).
Hypothesis Hfirst0 :
  forall p', Priority.code p' < Priority.code row -> priorityQueues m0 p' = [].
Hypothesis Hprio : priority e = row.
Hypothesis Hser : Codec.serializePacket (packet e) = Some buffer.







End RetryCycle.


(** *** The retry cycle under writes of the caller *)



(** Successive ticks are a run without writes. *)
Lemma ticks_run (ios : list Radio) (m : LoRaManager) :
  ticks m ios = run m (map Tick ios).
Proof.
  revert m. induction ios as [|io ios IH]; intro m; [reflexivity|].
  cbn [ticks run map fold_left step]. apply IH.
Qed.

Section RetryWithWrites.

Variables (m0 : LoRaManager) (row : Priority.t) (e : QueuedPacket)
          (buffer : list Z).
Hypothesis Hprio : priority e = row.
Hypothesis Hser : Codec.serializePacket (packet e) = Some buffer.




End RetryWithWrites.



(** The same cycle with a write of the caller after the first
    transmission: still three transmissions, one removal and one failure
    counted, but the second and third frame carry the byte written, not the
    byte the packet had when it was queued. *)
Lemma rewritten_payload_goes_on_air :
  priorityQueues (run status42Queued rewrittenCycle) Priority.STATUS = [] /\
  onAir (run status42Queued rewrittenCycle)
  = [status42Buffer;
     match Codec.serializePacket (set_payload (statusFrame 42) [7]) with
     | Some frame => frame
     | None => []
     end;
     match Codec.serializePacket (set_payload (statusFrame 42) [7]) with
     | Some frame => frame
     | None => []
     end] /\
  nth 11 status42Buffer 0 = 42 /\
  map (fun frame => nth 11 frame 0) (onAir (run status42Queued rewrittenCycle))
  = [42; 7; 7] /\
  transmitErrorCount (run status42Queued rewrittenCycle) = 1.
Proof. repeat split; vm_compute; reflexivity. Qed.


End LoRaFacts.


(** ** Framer and packet production *)

Module HandlerFacts.
Import Handler.

(** *** Sequence numbers of heartbeat frames *)




Lemma assembled_sequence_byte (h : PacketHandler) (type : Z) (payload block frame : list Z) :
  assemblePacket h type payload block = Some frame ->
  nth 3 frame 0 = currentSequenceNumber h.
Proof.
  unfold assemblePacket.
  destruct (Z.of_nat _ >? maxPacketSize h); [discriminate|].
  intro H.
  match type of H with
  | Some ?x = _ => assert (E : frame = x) by congruence
  end.
  rewrite E. reflexivity.
Qed.

Lemma addToBuffer_queued (h h' : PacketHandler) (bytes : list Z) (prio now : Z) :
  addToBuffer h bytes prio now = (true, h') ->
  In (mkBuffer bytes (wrap32 now) prio true) (packetQueue h') /\
  currentSequenceNumber h' = currentSequenceNumber h.
Proof.
  unfold addToBuffer.
  destruct (if (QUEUE_LENGTH <=? _)%nat then _ else _) as [q|]; [|discriminate].
  intro H.
  match type of H with
  | (true, ?x) = _ => assert (E : h' = x) by congruence
  end.
  rewrite E. cbn [packetQueue set_packetQueue currentSequenceNumber].
  split; [|reflexivity].
  apply in_or_app. right. left. reflexivity.
Qed.












(** A refused call skips a value.  The buffer holds sixteen packets of
    priority HIGH and the counter stands at 5: a heartbeat is refused, for
    there is no packet of priority LOW or NORMAL to give way, yet the
    counter goes to 6; once a packet has been taken out of the buffer the
    next heartbeat is produced, and it carries 7.  The one heartbeat frame
    in the buffer carries 7. *)
Lemma refused_heartbeat_skips_value :
  let h := HandlerOps.fullOfHighAt5 in
  let refused := createHeartbeatPacket h (repeat 0 13) 0 in
  let freed := snd (HandlerOps.dequeuePacket (snd refused)) in
  fst refused = false /\
  currentSequenceNumber (snd refused) = 6 /\
  packetQueue (snd refused) = packetQueue h /\
  fst (createHeartbeatPacket freed (repeat 0 13) 1) = true /\
  map (fun b => nth 3 (data b) 0)
    (filter (fun b => priority b =? PRIORITY_NORMAL)
       (packetQueue (snd (createHeartbeatPacket freed (repeat 0 13) 1))))
  = [7].
Proof.
  cbv zeta.
  split; [vm_compute; reflexivity|].
  split; [vm_compute; reflexivity|].
  split; [vm_compute; reflexivity|].
  split; vm_compute; reflexivity.
Qed.


(** A status frame produced after a heartbeat repeats the heartbeat's
    sequence number: only [createHeartbeatPacket] advances the counter. *)
Lemma status_frame_repeats_sequence (h : PacketHandler) (status block : list Z)
  (now : Z) :
  currentSequenceNumber (snd (createStatusPacket h status block now))
  = currentSequenceNumber h /\
  forall frame,
    assemblePacket h (PacketType.code PacketType.STATUS) (firstn 100 status) block
    = Some frame ->
    nth 3 frame 0 = currentSequenceNumber h.
Proof.
  split.
  - unfold createStatusPacket, createPacket.
    destruct (Z.of_nat _ >? MAX_PAYLOAD_SIZE); [reflexivity|].
    destruct (assemblePacket _ _ _ _); [|reflexivity].
    unfold addToBuffer.
    destruct (if (QUEUE_LENGTH <=? _)%nat then _ else _); reflexivity.
  - intros frame H. apply (assembled_sequence_byte _ _ _ _ _ H).
Qed.

(** *** Resynchronisation of the receive parser *)

(** What the parser accepts is not what [assemblePacket] writes: the
    assembler stores the payload length high byte first and starts the
    payload at offset 7, while the parser reads the length low byte first
    out of an 8-byte header.  A heartbeat assembled by this very class, with
    its one payload byte, is read as announcing 256 payload bytes and
    rejected by [validateHeader]. *)
Lemma assembled_heartbeat_not_accepted :
  exists frame,
    assemblePacket (counterAt 1) (PacketType.code PacketType.HEARTBEAT) [1]
      (repeat 0 13) = Some frame /\
    payloadLength (header_of_bytes frame) = 256 /\
    fst (processIncomingData init frame 0) = false.
Proof.
  eexists. split; [vm_compute; reflexivity|].
  split; vm_compute; reflexivity.
Qed.

(** A second 0xAA while the first start byte is held, and a 0x55 at index
    0: both only reset the index. *)
Lemma second_start_byte_resets (h : PacketHandler) :
  inPacket h = false ->
  receiveIndex h = 1%nat ->
  processReceivedByte h 0xAA = (false, set_receive h (receiveBuffer h) 0 false).
Proof.
  intros Hin Hidx. unfold processReceivedByte. rewrite Hin, Hidx. reflexivity.
Qed.

Lemma lone_second_byte_resets (h : PacketHandler) :
  inPacket h = false ->
  receiveIndex h = 0%nat ->
  processReceivedByte h 0x55 = (false, set_receive h (receiveBuffer h) 0 false).
Proof.
  intros Hin Hidx. unfold processReceivedByte. rewrite Hin, Hidx. reflexivity.
Qed.

(** In any seeking state that holds a first start byte, a second 0xAA
    followed by 0x55 leaves the parser seeking at index 0: the start
    sequence that begins with the second 0xAA is not recognised. *)
Lemma stray_sync_resets_scan (h : PacketHandler) :
  inPacket h = false ->
  receiveIndex h = 1%nat ->
  feed h [0xAA; 0x55] false = (false, set_receive h (receiveBuffer h) 0 false).
Proof.
  intros Hin Hidx. cbn [feed].
  rewrite (second_start_byte_resets h Hin Hidx).
  rewrite lone_second_byte_resets by reflexivity.
  reflexivity.
Qed.

(** C5.  The code at a failing input: [acceptedFrame] passes
    [validatePacket] and is emitted when fed alone or behind garbage that
    holds no 0xAA; fed one byte after a stray 0xAA it is not emitted.  The
    second 0xAA, which does not continue the start pattern, resets the scan
    and is itself not taken as a first start byte, so the 0x55 behind it
    finds the parser at index 0. *)
Theorem stray_sync_byte_loses_frame :
  fst (validatePacket init acceptedFrame) = true /\
  fst (processIncomingData init acceptedFrame 0) = true /\
  fst (processIncomingData init ([0x00; 0x13] ++ acceptedFrame) 0) = true /\
  fst (processIncomingData init (0xAA :: acceptedFrame) 0) = false /\
  receiveIndex (snd (feed init [0xAA; 0xAA] false)) = 0%nat /\
  inPacket (snd (feed init [0xAA; 0xAA; 0x55] false)) = false.
Proof. vm_compute. repeat split; reflexivity. Qed.

End HandlerFacts.

(** ** Further properties of the framer and the outgoing buffer *)

Module HandlerOpsFacts.
Import Handler HandlerOps.

(** *** Assembly against validation *)

Lemma assembled_layout (h : PacketHandler) (type : Z) (payload block frame : list Z) :
  length block = (sizeof_PacketHeader + length payload + sizeof_PacketFooter)%nat ->
  assemblePacket h type payload block = Some frame ->
  exists pre c1 c0 last,
    length pre = 7%nat /\
    nth 0 pre 0 = PACKET_START_BYTE1 /\ nth 1 pre 0 = PACKET_START_BYTE2 /\
    frame = pre ++ payload ++ [c1; c0; PACKET_END_BYTE1; PACKET_END_BYTE2; last].
Proof.
  intros Hlen. unfold assemblePacket.
  destruct (Z.of_nat _ >? maxPacketSize h); [discriminate|].
  intro H.
  match type of H with
  | Some ?x = _ => assert (E : frame = x) by congruence
  end.
  clear H.
  assert (Htail : exists last, skipn (7 + length payload + 4) block = [last]).
  { assert (Hl : length (skipn (7 + length payload + 4) block) = 1%nat).
    { rewrite length_skipn, Hlen. unfold sizeof_PacketHeader, sizeof_PacketFooter. lia. }
    destruct (skipn (7 + length payload + 4) block) as [|x [|y r]];
      try discriminate Hl. exists x. reflexivity. }
  destruct Htail as [last Hlast].
  rewrite Hlast in E.
  eexists (_ :: _ :: _ :: _ :: _ :: _ :: [_]), _, _, last.
  split; [reflexivity|]. split; [reflexivity|]. split; [reflexivity|].
  rewrite E. unfold uint16ToBytes. cbn [app]. reflexivity.
Qed.

(** X1.  Every packet [assemblePacket] writes is rejected by [validatePacket],
    and so by [disassemblePacket]: the writes stop one byte short of the
    allocated size, so the byte [validatePacket] compares with the first end
    byte is the second one. *)
Theorem assembled_packet_never_validates (h h' : PacketHandler) (type : Z)
  (payload block frame : list Z) :
  length block = (sizeof_PacketHeader + length payload + sizeof_PacketFooter)%nat ->
  assemblePacket h type payload block = Some frame ->
  length frame = length block /\
  nth (length frame - 2) frame 0 = PACKET_END_BYTE2 /\
  validatePacket h' frame = (false, h') /\
  disassemblePacket h' frame = (None, h').
Proof.
  intros Hlen Hasm.
  destruct (assembled_layout h type payload block frame Hlen Hasm)
    as (pre & c1 & c0 & last & Hpre & H0 & H1 & ->).
  assert (Hl : length (pre ++ payload ++ [c1; c0; PACKET_END_BYTE1; PACKET_END_BYTE2; last])
               = (12 + length payload)%nat).
  { rewrite !length_app, Hpre. cbn [length]. lia. }
  assert (Hend : nth (12 + length payload - 2)
                   (pre ++ payload ++ [c1; c0; PACKET_END_BYTE1; PACKET_END_BYTE2; last]) 0
                 = PACKET_END_BYTE2).
  { rewrite app_nth2 by lia. rewrite app_nth2 by lia.
    replace (12 + length payload - 2 - length pre - length payload)%nat with 3%nat by lia.
    reflexivity. }
  assert (Hval : validatePacket h'
                   (pre ++ payload ++ [c1; c0; PACKET_END_BYTE1; PACKET_END_BYTE2; last])
                 = (false, h')).
  { unfold validatePacket. rewrite Hl.
    replace (12 + length payload <? sizeof_PacketHeader + sizeof_PacketFooter)%nat
      with false by (symmetry; apply Nat.ltb_ge;
                     unfold sizeof_PacketHeader, sizeof_PacketFooter; lia).
    rewrite !app_nth1 by lia. rewrite H0, H1.
    rewrite !Z.eqb_refl. cbn [andb negb].
    rewrite Hend. reflexivity. }
  rewrite Hl. split; [|split; [|split]].
  - rewrite Hlen. unfold sizeof_PacketHeader, sizeof_PacketFooter. lia.
  - exact Hend.
  - exact Hval.
  - unfold disassemblePacket. rewrite Hval. reflexivity.
Qed.

(** A heartbeat assembled with counter 7 does not validate. *)
Lemma assembled_packet_never_validates_witness :
  exists frame,
    assemblePacket (counterAt 7) 1 [7] (repeat 0 13) = Some frame /\
    validatePacket init frame = (false, init) /\
    disassemblePacket init frame = (None, init).
Proof.
  destruct (assemblePacket (counterAt 7) 1 [7] (repeat 0 13)) as [frame|] eqn:E;
    [|vm_compute in E; discriminate].
  destruct (assembled_packet_never_validates (counterAt 7) init 1 [7]
              (repeat 0 13) frame) as (_ & _ & Hv & Hd).
  - reflexivity.
  - exact E.
  - exists frame. repeat split; assumption.
Defined.

(** *** Seeking *)

Lemma seeking_skips (h : PacketHandler) (b : Z) :
  inPacket h = false ->
  receiveIndex h = 0%nat ->
  b <> PACKET_START_BYTE1 ->
  processReceivedByte h b = (false, h).
Proof.
  intros Hin Hidx Hb. unfold processReceivedByte. rewrite Hin, Hidx.
  cbn [negb Nat.eqb andb].
  replace (b =? PACKET_START_BYTE1) with false
    by (symmetry; apply Z.eqb_neq; assumption).
  f_equal. destruct h. cbn in *. subst. reflexivity.
Qed.

Lemma feed_garbage (h : PacketHandler) (garbage : list Z) (r : bool) :
  inPacket h = false ->
  receiveIndex h = 0%nat ->
  Forall (fun b => b <> PACKET_START_BYTE1) garbage ->
  feed h garbage r = (r, h).
Proof.
  intros Hin Hidx Hg. induction Hg as [|b g Hb _ IH]; [reflexivity|].
  cbn [feed]. rewrite (seeking_skips h b Hin Hidx Hb). cbn. exact IH.
Qed.

Lemma feed_app (h : PacketHandler) (a b : list Z) (r : bool) :
  feed h (a ++ b) r = feed (snd (feed h a r)) b (fst (feed h a r)).
Proof.
  revert h r. induction a as [|x a IH]; intros h r; [reflexivity|].
  cbn [app feed]. destruct (processReceivedByte h x) as [r1 h1]. apply IH.
Qed.

(** X2.  Bytes in front of a frame, none of them 0xAA, are skipped by a seeking
    parser without a trace: the outcome is that of the frame alone. *)
Theorem garbage_without_start_byte_is_skipped (h : PacketHandler)
  (garbage frame : list Z) (now : Z) :
  inPacket h = false ->
  receiveIndex h = 0%nat ->
  Forall (fun b => b <> PACKET_START_BYTE1) garbage ->
  frame <> [] ->
  processIncomingData h (garbage ++ frame) now = processIncomingData h frame now.
Proof.
  intros Hin Hidx Hg Hne. unfold processIncomingData.
  rewrite feed_app, (feed_garbage h garbage false Hin Hidx Hg). cbn [fst snd].
  destruct frame as [|x f]; [contradiction|].
  destruct garbage; reflexivity.
Qed.

Lemma garbage_without_start_byte_is_skipped_witness :
  processIncomingData init ([0x00; 0x55; 0xFF] ++ acceptedFrame) 9
  = processIncomingData init acceptedFrame 9 /\
  fst (processIncomingData init acceptedFrame 9) = true.
Proof.
  split.
  - apply garbage_without_start_byte_is_skipped.
    + reflexivity.
    + reflexivity.
    + repeat constructor; discriminate.
    + discriminate.
  - vm_compute. reflexivity.
Defined.

(** *** Completed packets *)

Lemma verifyCRC_result (h h0 : PacketHandler) (pkt : list Z) (n : nat) :
  fst (verifyCRC h pkt n) = fst (verifyCRC h0 pkt n).
Proof.
  unfold verifyCRC.
  destruct (n <? _)%nat; [reflexivity|].
  destruct (negb _); [reflexivity|].
  destruct (negb _); reflexivity.
Qed.

Lemma verifyCRC_state (h : PacketHandler) (pkt : list Z) (n : nat) :
  (fst (verifyCRC h pkt n) = true -> snd (verifyCRC h pkt n) = h) /\
  (snd (verifyCRC h pkt n) = h \/ snd (verifyCRC h pkt n) = inc_crcErrors h).
Proof.
  unfold verifyCRC.
  destruct (n <? _)%nat; [split; [discriminate | left; reflexivity]|].
  destruct (negb _); [split; [discriminate | right; reflexivity]|].
  destruct (negb _); [split; [discriminate | right; reflexivity]|].
  split; [reflexivity | left; reflexivity].
Qed.

(** The receive members after [processCompletePacket] and the reset that
    follows it. *)
Lemma checkComplete_done (h : PacketHandler) :
  Z.of_nat (receiveIndex h)
  >= Z.of_nat sizeof_PacketHeader + expectedPayloadSize h + Z.of_nat sizeof_PacketFooter ->
  receiveBuffer (snd (checkComplete h)) = receiveBuffer h /\
  receiveIndex (snd (checkComplete h)) = 0%nat /\
  inPacket (snd (checkComplete h)) = false /\
  expectedPayloadSize (snd (checkComplete h)) = 0 /\
  fst (checkComplete h) = fst (verifyCRC h (receiveBuffer h) (receiveIndex h)) /\
  (fst (checkComplete h) = true ->
   packetsReceived (snd (checkComplete h))
   = wrap32 (wrap32 (packetsReceived h + 1) + 1) /\
   crcErrors (snd (checkComplete h)) = crcErrors h).
Proof.
  intro Hge. unfold checkComplete.
  replace (Z.of_nat (receiveIndex h) >=? _) with true
    by (symmetry; rewrite Z.geb_leb; apply Z.leb_le; lia).
  unfold processCompletePacket.
  destruct (verifyCRC_state h (receiveBuffer h) (receiveIndex h)) as [Ht Hs].
  destruct (verifyCRC h (receiveBuffer h) (receiveIndex h)) as [[|] h1];
    cbn [fst snd] in *.
  - rewrite (Ht eq_refl). repeat split; reflexivity.
  - destruct Hs as [->| ->]; repeat split; try reflexivity; discriminate.
Qed.

Lemma checkComplete_pending (h : PacketHandler) :
  Z.of_nat (receiveIndex h)
  < Z.of_nat sizeof_PacketHeader + expectedPayloadSize h + Z.of_nat sizeof_PacketFooter ->
  checkComplete h = (false, h).
Proof.
  intro Hlt. unfold checkComplete.
  replace (Z.of_nat (receiveIndex h) >=? _) with false
    by (symmetry; rewrite Z.geb_leb; apply Z.leb_gt; lia).
  reflexivity.
Qed.

Lemma checkComplete_cases (h : PacketHandler) :
  checkComplete h = (false, h) \/
  (receiveBuffer (snd (checkComplete h)) = receiveBuffer h /\
   receiveIndex (snd (checkComplete h)) = 0%nat /\
   inPacket (snd (checkComplete h)) = false /\
   expectedPayloadSize (snd (checkComplete h)) = 0 /\
   fst (checkComplete h) = fst (verifyCRC h (receiveBuffer h) (receiveIndex h)) /\
   (fst (checkComplete h) = true ->
    packetsReceived (snd (checkComplete h))
    = wrap32 (wrap32 (packetsReceived h + 1) + 1) /\
    crcErrors (snd (checkComplete h)) = crcErrors h)).
Proof.
  destruct (Z_lt_ge_dec (Z.of_nat (receiveIndex h))
              (Z.of_nat sizeof_PacketHeader + expectedPayloadSize h
               + Z.of_nat sizeof_PacketFooter)) as [Hlt|Hge].
  - left. apply checkComplete_pending. assumption.
  - right. apply checkComplete_done. assumption.
Qed.

(** X3.  Whenever [processReceivedByte] reports a packet, the handler was inside
    a packet, the buffered bytes with the new one passed [verifyCRC], the
    parser is back to seeking at index 0, no checksum error was counted, and
    [packetsReceived] went up by two: once in [processCompletePacket] and
    once more in [updateStatistics]. *)
Theorem reported_packet_is_checked_and_counted_twice (h h' : PacketHandler) (b : Z) :
  processReceivedByte h b = (true, h') ->
  inPacket h = true /\
  fst (verifyCRC h (store (receiveIndex h) b (receiveBuffer h)) (S (receiveIndex h)))
  = true /\
  inPacket h' = false /\ receiveIndex h' = 0%nat /\ expectedPayloadSize h' = 0 /\
  packetsReceived h' = wrap32 (wrap32 (packetsReceived h + 1) + 1) /\
  crcErrors h' = crcErrors h.
Proof.
  unfold processReceivedByte.
  destruct (inPacket h) eqn:Hin; cbn [negb].
  2:{ destruct (_ && _); [discriminate|]. destruct (_ && _); discriminate. }
  set (h1 := set_receive h (store (receiveIndex h) b (receiveBuffer h))
               (S (receiveIndex h)) true).
  assert (Hfin : forall hx,
             receiveBuffer hx = receiveBuffer h1 ->
             receiveIndex hx = receiveIndex h1 ->
             packetsReceived hx = packetsReceived h ->
             crcErrors hx = crcErrors h ->
             checkComplete hx = (true, h') ->
             true = true /\
             fst (verifyCRC h (store (receiveIndex h) b (receiveBuffer h))
                    (S (receiveIndex h))) = true /\
             inPacket h' = false /\ receiveIndex h' = 0%nat /\
             expectedPayloadSize h' = 0 /\
             packetsReceived h' = wrap32 (wrap32 (packetsReceived h + 1) + 1) /\
             crcErrors h' = crcErrors h).
  { intros hx Hb Hi Hp Hc Hcc.
    destruct (checkComplete_cases hx) as [E|(_ & H2 & H3 & H4 & H5 & H6)].
    - rewrite E in Hcc. discriminate.
    - rewrite Hcc in *. cbn [fst snd] in *.
      destruct (H6 eq_refl) as [H7 H8].
      split; [reflexivity|]. split.
      + rewrite Hb, Hi in H5. unfold h1 in H5.
        cbn [receiveBuffer receiveIndex set_receive] in H5.
        rewrite (verifyCRC_result h hx). symmetry. exact H5.
      + repeat split; try assumption; congruence. }
  destruct (receiveIndex h1 =? sizeof_PacketHeader)%nat.
  - destruct (negb (validateHeader _)); [discriminate|].
    destruct (_ >? _); [discriminate|].
    intro Hcc. eapply Hfin; [| | | |exact Hcc]; reflexivity.
  - intro Hcc. eapply Hfin; [| | | |exact Hcc]; reflexivity.
Qed.

(** The last byte of the accepted frame, fed to a parser that holds the
    first fourteen: the packet is reported and counted twice. *)
Lemma reported_packet_is_checked_and_counted_twice_witness :
  let h := snd (feed init (firstn 14 acceptedFrame) false) in
  fst (processReceivedByte h 0x0A) = true /\
  packetsReceived (snd (processReceivedByte h 0x0A)) = 2 /\
  receiveIndex (snd (processReceivedByte h 0x0A)) = 0%nat.
Proof.
  intro h.
  assert (E : processReceivedByte h 0x0A = (true, snd (processReceivedByte h 0x0A)))
    by (vm_compute; reflexivity).
  destruct (reported_packet_is_checked_and_counted_twice h
              (snd (processReceivedByte h 0x0A)) 0x0A E)
    as (_ & _ & _ & Hi & _ & Hp & _).
  split; [rewrite E; reflexivity|].
  split; [rewrite Hp; vm_compute; reflexivity | exact Hi].
Defined.

(** *** The receive buffer is never overrun *)

Lemma length_store (i : nat) (v : Z) (buffer : list Z) :
  length (store i v buffer) = length buffer.
Proof.
  unfold store. destruct (Nat.ltb_spec i (length buffer)) as [Hlt|Hge]; [|reflexivity].
  rewrite length_app, length_firstn. cbn [length]. rewrite length_skipn. lia.
Qed.

Lemma validateHeader_length (hdr : PacketHeader) :
  validateHeader hdr = true -> payloadLength hdr <= MAX_PAYLOAD_SIZE.
Proof.
  unfold validateHeader. destruct (_ || _); [discriminate|].
  destruct (Z.gtb_spec (payloadLength hdr) MAX_PAYLOAD_SIZE); [discriminate|].
  intros _. assumption.
Qed.

Lemma parser_ok_seeking (buffer : list Z) (h : PacketHandler) :
  length buffer = sizeof_receiveBuffer ->
  receiveBuffer h = buffer -> receiveIndex h = 0%nat -> inPacket h = false ->
  expectedPayloadSize h = 0 ->
  parser_ok h.
Proof.
  intros Hl Hb Hi Hin He. unfold parser_ok. rewrite Hb, Hi, Hin, He.
  split; [assumption|]. split.
  - intros _. split; [lia | reflexivity].
  - discriminate.
Qed.

Lemma parser_ok_checkComplete (h : PacketHandler) :
  length (receiveBuffer h) = sizeof_receiveBuffer ->
  inPacket h = true ->
  (2 <= receiveIndex h)%nat ->
  ((receiveIndex h < sizeof_PacketHeader)%nat -> expectedPayloadSize h = 0) ->
  ((sizeof_PacketHeader <= receiveIndex h)%nat ->
   expectedPayloadSize h <= MAX_PAYLOAD_SIZE) ->
  parser_ok (snd (checkComplete h)).
Proof.
  intros Hl Hin H2 Hlt8 Hge8.
  destruct (Z_lt_ge_dec (Z.of_nat (receiveIndex h))
              (Z.of_nat sizeof_PacketHeader + expectedPayloadSize h
               + Z.of_nat sizeof_PacketFooter)) as [Hlt|Hge].
  - rewrite (checkComplete_pending h Hlt). cbn [snd].
    unfold parser_ok. rewrite Hin. split; [assumption|]. split; [discriminate|].
    intros _. split; [assumption|]. split; [assumption|].
    intro H8. split; [apply Hge8; assumption | assumption].
  - destruct (checkComplete_done h Hge) as (Hb & Hi & Hp & He & _).
    apply (parser_ok_seeking (receiveBuffer h)); assumption.
Qed.

Lemma parser_ok_step (h : PacketHandler) (b : Z) :
  parser_ok h -> parser_ok (snd (processReceivedByte h b)).
Proof.
  intros (Hlen & Hseek & Hpkt). unfold processReceivedByte.
  destruct (inPacket h) eqn:Hin; cbn [negb].
  - destruct (Hpkt eq_refl) as (H2 & Hlt8 & Hge8).
    set (h1 := set_receive h (store (receiveIndex h) b (receiveBuffer h))
                 (S (receiveIndex h)) true).
    assert (Hl1 : length (receiveBuffer h1) = sizeof_receiveBuffer)
      by (unfold h1; cbn [receiveBuffer set_receive]; rewrite length_store; assumption).
    destruct (Nat.eqb_spec (receiveIndex h1) sizeof_PacketHeader) as [E8|N8].
    + destruct (validateHeader (header_of_bytes (receiveBuffer h1))) eqn:Hv;
        cbn [negb].
      * apply validateHeader_length in Hv.
        destruct (_ >? _).
        -- cbn [snd]. apply (parser_ok_seeking (receiveBuffer h1)); auto.
        -- apply parser_ok_checkComplete; cbn; auto; try lia.
           intro Hlt. unfold h1 in E8. cbn in E8.
           unfold sizeof_PacketHeader in *. lia.
      * cbn [snd]. apply (parser_ok_seeking (receiveBuffer h1)); auto.
    + apply parser_ok_checkComplete; auto.
      * unfold h1. cbn. lia.
      * unfold h1. cbn [receiveIndex expectedPayloadSize set_receive].
        intro Hlt. apply Hlt8. lia.
      * unfold h1 in *. cbn [receiveIndex expectedPayloadSize set_receive] in *.
        intro Hge. apply Hge8. lia.
  - destruct (Hseek eq_refl) as [Hi He].
    destruct (Nat.eqb_spec (receiveIndex h) 0) as [E0|N0]; cbn [andb].
    + destruct (b =? PACKET_START_BYTE1); cbn [snd].
      * unfold parser_ok. cbn [receiveBuffer receiveIndex inPacket
                               expectedPayloadSize set_receive].
        rewrite length_store.
        split; [assumption|]. split; [|discriminate].
        intros _. split; [lia | assumption].
      * rewrite E0. cbn [Nat.eqb andb snd].
        apply (parser_ok_seeking (receiveBuffer h)); auto.
    + destruct (Nat.eqb_spec (receiveIndex h) 1) as [E1|N1]; cbn [andb].
      * destruct (b =? PACKET_START_BYTE2); cbn [snd].
        -- unfold parser_ok. cbn [receiveBuffer receiveIndex inPacket
                                 expectedPayloadSize set_receive].
           rewrite length_store.
           split; [assumption|]. split; [discriminate|].
           intros _. split; [lia|]. split; [intros _; assumption|].
           unfold sizeof_PacketHeader. lia.
        -- apply (parser_ok_seeking (receiveBuffer h)); auto.
      * cbn [snd]. apply (parser_ok_seeking (receiveBuffer h)); auto.
Qed.

Lemma parser_ok_init : parser_ok init.
Proof.
  apply (parser_ok_seeking (repeat 0 sizeof_receiveBuffer)); reflexivity.
Qed.

Lemma parser_ok_feed (bytes : list Z) (h : PacketHandler) (r : bool) :
  parser_ok h -> parser_ok (snd (feed h bytes r)).
Proof.
  revert h r. induction bytes as [|b bytes IH]; intros h r Hok; [assumption|].
  cbn [feed]. pose proof (parser_ok_step h b Hok) as Hs.
  destruct (processReceivedByte h b) as [r1 h1]. apply IH. assumption.
Qed.

(** X4.  Whatever bytes arrive, in whatever chunks, the parser's write index
    stays below 212 (header, the largest payload the header check lets
    through, footer), so no byte is ever stored past the 512 bytes of
    [receiveBuffer]. *)
Theorem receive_buffer_never_overrun (h : PacketHandler) (bytes : list Z) (now : Z) :
  parser_ok h ->
  parser_ok (snd (processIncomingData h bytes now)) /\
  (receiveIndex (snd (processIncomingData h bytes now)) < 212)%nat /\
  length (receiveBuffer (snd (processIncomingData h bytes now))) = sizeof_receiveBuffer.
Proof.
  intro Hok.
  assert (Hok' : parser_ok (snd (processIncomingData h bytes now))).
  { unfold processIncomingData. destruct (length bytes =? 0)%nat; [assumption|].
    pose proof (parser_ok_feed bytes h false Hok) as Hf.
    destruct (feed h bytes false) as [[|] h1]; cbn [snd] in *; [|assumption].
    exact Hf. }
  split; [assumption|].
  destruct Hok' as (Hlen & Hseek & Hpkt). split; [|assumption].
  destruct (inPacket (snd (processIncomingData h bytes now))) eqn:Hin.
  - destruct (Hpkt eq_refl) as (_ & Hlt8 & Hge8).
    destruct (Nat.lt_ge_cases
                (receiveIndex (snd (processIncomingData h bytes now)))
                sizeof_PacketHeader) as [Hlt|Hge].
    + unfold sizeof_PacketHeader in Hlt. lia.
    + destruct (Hge8 Hge) as [He Hi].
      unfold MAX_PAYLOAD_SIZE, sizeof_PacketHeader, sizeof_PacketFooter in *. lia.
  - destruct (Hseek eq_refl). lia.
Qed.

Lemma receive_buffer_never_overrun_witness :
  lt (receiveIndex (snd (processIncomingData init (0xAA :: acceptedFrame) 0))) 212.
Proof.
  destruct (receive_buffer_never_overrun init (0xAA :: acceptedFrame) 0 parser_ok_init)
    as (_ & H & _).
  exact H.
Defined.

(** *** Chunking *)

Lemma verifyCRC_time (h : PacketHandler) (t : Z) (pkt : list Z) (n : nat) :
  verifyCRC (set_lastPacketTime h t) pkt n
  = (fst (verifyCRC h pkt n), set_lastPacketTime (snd (verifyCRC h pkt n)) t).
Proof.
  unfold verifyCRC.
  destruct (n <? _)%nat; [reflexivity|].
  destruct (negb _); [reflexivity|].
  destruct (negb _); reflexivity.
Qed.

Lemma processCompletePacket_time (h : PacketHandler) (t : Z) :
  processCompletePacket (set_lastPacketTime h t)
  = (fst (processCompletePacket h),
     set_lastPacketTime (snd (processCompletePacket h)) t).
Proof.
  unfold processCompletePacket.
  change (receiveBuffer (set_lastPacketTime h t)) with (receiveBuffer h).
  change (receiveIndex (set_lastPacketTime h t)) with (receiveIndex h).
  rewrite verifyCRC_time.
  destruct (verifyCRC h (receiveBuffer h) (receiveIndex h)) as [[|] h1]; reflexivity.
Qed.

Lemma checkComplete_time (h : PacketHandler) (t : Z) :
  checkComplete (set_lastPacketTime h t)
  = (fst (checkComplete h), set_lastPacketTime (snd (checkComplete h)) t).
Proof.
  unfold checkComplete.
  change (receiveIndex (set_lastPacketTime h t)) with (receiveIndex h).
  change (expectedPayloadSize (set_lastPacketTime h t)) with (expectedPayloadSize h).
  destruct (_ >=? _); [|reflexivity].
  rewrite processCompletePacket_time.
  destruct (processCompletePacket h) as [r h1]. reflexivity.
Qed.

Lemma processReceivedByte_time (h : PacketHandler) (t : Z) (b : Z) :
  processReceivedByte (set_lastPacketTime h t) b
  = (fst (processReceivedByte h b),
     set_lastPacketTime (snd (processReceivedByte h b)) t).
Proof.
  unfold processReceivedByte. cbv zeta.
  change (inPacket (set_lastPacketTime h t)) with (inPacket h).
  change (receiveIndex (set_lastPacketTime h t)) with (receiveIndex h).
  change (receiveBuffer (set_lastPacketTime h t)) with (receiveBuffer h).
  destruct (inPacket h); cbn [negb].
  - change (set_receive (set_lastPacketTime h t)
              (store (receiveIndex h) b (receiveBuffer h)) (S (receiveIndex h)) true)
      with (set_lastPacketTime
              (set_receive h (store (receiveIndex h) b (receiveBuffer h))
                 (S (receiveIndex h)) true) t).
    set (h1 := set_receive h (store (receiveIndex h) b (receiveBuffer h))
                 (S (receiveIndex h)) true).
    change (receiveIndex (set_lastPacketTime h1 t)) with (receiveIndex h1).
    change (receiveBuffer (set_lastPacketTime h1 t)) with (receiveBuffer h1).
    change (expectedPayloadSize (set_lastPacketTime h1 t))
      with (expectedPayloadSize h1).
    destruct (receiveIndex h1 =? sizeof_PacketHeader)%nat;
      [|apply checkComplete_time].
    set (hdr := header_of_bytes (receiveBuffer h1)).
    destruct (negb (validateHeader hdr)); [reflexivity|].
    change (set_header (set_header (set_lastPacketTime h1 t) hdr (expectedPayloadSize h1))
              hdr (payloadLength hdr))
      with (set_lastPacketTime
              (set_header (set_header h1 hdr (expectedPayloadSize h1))
                 hdr (payloadLength hdr)) t).
    set (h3 := set_header (set_header h1 hdr (expectedPayloadSize h1))
                 hdr (payloadLength hdr)).
    change (expectedPayloadSize (set_lastPacketTime h3 t))
      with (expectedPayloadSize h3).
    destruct (_ >? _); [reflexivity | apply checkComplete_time].
  - destruct (_ && _); [reflexivity|]. destruct (_ && _); reflexivity.
Qed.

Lemma feed_time (bytes : list Z) (h : PacketHandler) (t : Z) (r : bool) :
  feed (set_lastPacketTime h t) bytes r
  = (fst (feed h bytes r), set_lastPacketTime (snd (feed h bytes r)) t).
Proof.
  revert h r. induction bytes as [|b bytes IH]; intros h r; [reflexivity|].
  cbn [feed]. rewrite processReceivedByte_time.
  destruct (processReceivedByte h b) as [r1 h1]. cbn [fst snd]. apply IH.
Qed.

Lemma feed_acc (bytes : list Z) (h : PacketHandler) (r : bool) :
  feed h bytes r = (r || fst (feed h bytes false), snd (feed h bytes false)).
Proof.
  revert h r. induction bytes as [|b bytes IH]; intros h r.
  - cbn. rewrite orb_false_r. reflexivity.
  - cbn [feed]. destruct (processReceivedByte h b) as [r1 h1].
    rewrite (IH h1 (if r1 then true else r)), (IH h1 (if r1 then true else false)).
    cbn [fst snd]. destruct r1, r; reflexivity.
Qed.

Lemma same_but_time_set (h : PacketHandler) (t : Z) :
  same_but_time (set_lastPacketTime h t) h.
Proof. reflexivity. Qed.

Lemma same_but_time_eq (h1 h2 : PacketHandler) :
  same_but_time h1 h2 -> h1 = set_lastPacketTime h2 (lastPacketTime h1).
Proof.
  destruct h1, h2. unfold same_but_time, set_lastPacketTime.
  cbn. intro H. injection H. intros. subst. reflexivity.
Qed.

Lemma processIncomingData_feed (h : PacketHandler) (bytes : list Z) (now : Z) :
  fst (processIncomingData h bytes now) = fst (feed h bytes false) /\
  same_but_time (snd (processIncomingData h bytes now)) (snd (feed h bytes false)).
Proof.
  unfold processIncomingData. destruct bytes as [|b bytes]; [split; reflexivity|].
  cbn [length Nat.eqb].
  destruct (feed h (b :: bytes) false) as [[|] h1]; split; reflexivity.
Qed.

(** X5.  Feeding a stream in two calls gives what feeding it in one call gives: a
    packet is reported by the one call exactly when one of the two calls
    reports one, and the handlers agree on everything but [lastPacketTime]. *)
Theorem chunking_does_not_matter (h : PacketHandler) (a b : list Z) (now now1 now2 : Z) :
  fst (processIncomingData h (a ++ b) now)
  = fst (processIncomingData h a now1)
    || fst (processIncomingData (snd (processIncomingData h a now1)) b now2) /\
  same_but_time
    (snd (processIncomingData h (a ++ b) now))
    (snd (processIncomingData (snd (processIncomingData h a now1)) b now2)).
Proof.
  destruct (processIncomingData_feed h (a ++ b) now) as [Hr Hs].
  destruct (processIncomingData_feed h a now1) as [Hr1 Hs1].
  destruct (processIncomingData_feed (snd (processIncomingData h a now1)) b now2)
    as [Hr2 Hs2].
  assert (Hf : feed (snd (processIncomingData h a now1)) b false
               = (fst (feed (snd (feed h a false)) b false),
                  set_lastPacketTime (snd (feed (snd (feed h a false)) b false))
                    (lastPacketTime (snd (processIncomingData h a now1))))).
  { unfold same_but_time in Hs1.
    assert (E : snd (processIncomingData h a now1)
                = set_lastPacketTime (snd (feed h a false))
                    (lastPacketTime (snd (processIncomingData h a now1)))).
    { apply same_but_time_eq. exact Hs1. }
    rewrite E at 1. apply feed_time. }
  rewrite feed_app, feed_acc in Hr, Hs. cbn [fst snd] in Hr, Hs.
  split.
  - rewrite Hr, Hr1, Hr2, Hf. reflexivity.
  - unfold same_but_time in *. rewrite Hs, Hs2, Hf. reflexivity.
Qed.

(** *** Integers to bytes and back *)

Lemma lor_disjoint (h lo k : Z) :
  0 <= k -> 0 <= lo < 2 ^ k -> Z.lor (h * 2 ^ k) lo = h * 2 ^ k + lo.
Proof.
  intros Hk Hlo.
  assert (Hland : Z.land (h * 2 ^ k) lo = 0).
  { apply Z.bits_inj'. intros n Hn. rewrite Z.land_spec, Z.bits_0.
    destruct (Z.ltb_spec n k) as [Hlt|Hge].
    - rewrite Z.mul_pow2_bits_low by lia. reflexivity.
    - rewrite <- (Z.mod_small lo (2 ^ k)) by assumption.
      rewrite Z.mod_pow2_bits_high by lia. apply andb_false_r. }
  rewrite <- Z.lxor_lor by assumption.
  symmetry. apply Z.add_nocarry_lxor. assumption.
Qed.

Lemma low_byte (v : Z) : Z.land v 0xFF = v mod 256.
Proof. change 0xFF with (Z.ones 8). rewrite Z.land_ones by lia. reflexivity. Qed.

(** X6.  The 16-bit conversions are inverse to each other: every [uint16_t]
    survives [uint16ToBytes] followed by [bytesToUint16], and every pair of
    bytes the other way round. *)
Theorem uint16_bytes_round_trip (v a b : Z) :
  0 <= v < 65536 -> is_byte a -> is_byte b ->
  bytesToUint16 (uint16ToBytes v) = v /\
  uint16ToBytes (bytesToUint16 [a; b]) = [a; b].
Proof.
  unfold is_byte. intros Hv Ha Hb.
  unfold bytesToUint16, uint16ToBytes, wrap8, wrap16. cbn [nth].
  rewrite !low_byte, !Z.shiftr_div_pow2, !Z.shiftl_mul_pow2 by lia.
  change (2 ^ 8) with 256.
  split.
  - rewrite (lor_disjoint _ _ 8) by (change (2 ^ 8) with 256; try lia;
                                     apply Z.mod_pos_bound; lia).
    change (2 ^ 8) with 256.
    Z.div_mod_to_equations. lia.
  - rewrite (lor_disjoint _ _ 8) by (change (2 ^ 8) with 256; lia).
    change (2 ^ 8) with 256.
    f_equal; [|f_equal]; Z.div_mod_to_equations; lia.
Qed.

Lemma uint16_bytes_round_trip_witness :
  bytesToUint16 (uint16ToBytes 0xBEEF) = 0xBEEF /\
  uint16ToBytes (bytesToUint16 [0x12; 0x34]) = [0x12; 0x34].
Proof.
  apply uint16_bytes_round_trip; unfold is_byte; lia.
Defined.

(** X7.  The 32-bit conversions are inverse to each other: every [uint32_t]
    survives [uint32ToBytes] followed by [bytesToUint32], and every four
    bytes the other way round. *)
Theorem uint32_bytes_round_trip (v a b c d : Z) :
  0 <= v < 4294967296 -> is_byte a -> is_byte b -> is_byte c -> is_byte d ->
  bytesToUint32 (uint32ToBytes v) = v /\
  uint32ToBytes (bytesToUint32 [a; b; c; d]) = [a; b; c; d].
Proof.
  unfold is_byte. intros Hv Ha Hb Hc Hd.
  assert (Hjoin : forall w x y z,
             0 <= w < 256 -> 0 <= x < 256 -> 0 <= y < 256 -> 0 <= z < 256 ->
             Z.lor (Z.lor (Z.lor (Z.shiftl w 24) (Z.shiftl x 16)) (Z.shiftl y 8)) z
             = w * 16777216 + x * 65536 + y * 256 + z).
  { intros w x y z Hw Hx Hy Hz.
    replace (Z.shiftl w 24) with (Z.shiftl (Z.shiftl w 8) 16)
      by (rewrite Z.shiftl_shiftl by lia; reflexivity).
    rewrite <- Z.shiftl_lor.
    rewrite (Z.shiftl_mul_pow2 w 8) by lia.
    rewrite (lor_disjoint w x 8) by (change (2 ^ 8) with 256; lia).
    replace (Z.shiftl (w * 2 ^ 8 + x) 16)
      with (Z.shiftl (Z.shiftl (w * 2 ^ 8 + x) 8) 8)
      by (rewrite Z.shiftl_shiftl by lia; reflexivity).
    rewrite <- Z.shiftl_lor.
    rewrite (Z.shiftl_mul_pow2 (w * 2 ^ 8 + x) 8) by lia.
    rewrite (lor_disjoint _ y 8) by (change (2 ^ 8) with 256; lia).
    rewrite Z.shiftl_mul_pow2 by lia.
    rewrite (lor_disjoint _ z 8) by (change (2 ^ 8) with 256; lia).
    change (2 ^ 8) with 256. lia. }
  unfold bytesToUint32, uint32ToBytes, wrap8, wrap32. cbn [nth].
  split.
  - rewrite Hjoin by (apply Z.mod_pos_bound; lia).
    rewrite !low_byte, !Z.shiftr_div_pow2 by lia.
    change (2 ^ 24) with 16777216. change (2 ^ 16) with 65536.
    change (2 ^ 8) with 256.
    Z.div_mod_to_equations. lia.
  - rewrite Hjoin by assumption.
    rewrite !low_byte, !Z.shiftr_div_pow2 by lia.
    change (2 ^ 24) with 16777216. change (2 ^ 16) with 65536.
    change (2 ^ 8) with 256.
    f_equal; [|f_equal; [|f_equal; [|f_equal]]]; Z.div_mod_to_equations; lia.
Qed.

Lemma uint32_bytes_round_trip_witness :
  bytesToUint32 (uint32ToBytes 0xDEADBEEF) = 0xDEADBEEF /\
  uint32ToBytes (bytesToUint32 [0x12; 0x34; 0x56; 0x78]) = [0x12; 0x34; 0x56; 0x78].
Proof.
  apply uint32_bytes_round_trip; unfold is_byte; lia.
Defined.

(** *** The outgoing buffer *)

Lemma descending_app (a b : list PacketBuffer) :
  descending (a ++ b) <->
  descending a /\ descending b /\
  (forall x y, In x a -> In y b -> priority y <= priority x).
Proof.
  induction a as [|x a IH]; cbn [app descending].
  - split; [intro H; repeat split; [assumption | intros x y []] | tauto].
  - rewrite IH, Forall_app. split.
    + intros ((Ha & Hb) & Hda & Hdb & Hc). repeat split; try assumption.
      intros u v [<-|Hu] Hv.
      * rewrite Forall_forall in Hb. apply Hb. assumption.
      * apply Hc; assumption.
    + intros ((Ha & Hda) & Hdb & Hc). repeat split; try assumption.
      * apply Forall_forall. intros v Hv. apply Hc; [left; reflexivity | assumption].
      * intros u v Hu Hv. apply Hc; [right; assumption | assumption].
Qed.

Lemma descending_remove (i : nat) (q : list PacketBuffer) :
  descending q -> descending (firstn i q ++ skipn (S i) q).
Proof.
  intro H. rewrite <- (firstn_skipn i q) in H.
  apply descending_app in H. destruct H as (Ha & Hb & Hc).
  apply descending_app. split; [assumption|].
  destruct (skipn i q) as [|x r] eqn:E.
  - assert (Hl : (length q <= i)%nat) by (apply skipn_all_iff; exact E).
    rewrite skipn_all2 by lia.
    repeat split. intros x y _ [].
  - assert (Er : skipn (S i) q = r).
    { replace (S i) with (1 + i)%nat by lia. rewrite <- skipn_skipn, E. reflexivity. }
    rewrite Er. cbn [descending] in Hb. split; [apply Hb|].
    intros u v Hu Hv. apply Hc; [assumption | right; assumption].
Qed.

Lemma insertPosFrom_spec (prio : Z) (q : list PacketBuffer) (i : nat) :
  exists k,
    insertPosFrom prio q i = (i + k)%nat /\ (k <= length q)%nat /\
    Forall (fun b => prio <= priority b) (firstn k q) /\
    match skipn k q with
    | [] => True
    | b :: _ => priority b < prio
    end.
Proof.
  revert i. induction q as [|b q IH]; intro i.
  - exists 0%nat. cbn. repeat split; [lia | lia | constructor].
  - cbn [insertPosFrom]. destruct (Z.gtb_spec prio (priority b)) as [Hgt|Hle].
    + exists 0%nat. cbn. repeat split; [lia | lia | constructor | lia].
    + destruct (IH (S i)) as (k & Hk & Hl & Hf & Hs).
      exists (S k). cbn [firstn skipn length]. repeat split.
      * lia.
      * lia.
      * constructor; assumption.
      * assumption.
Qed.

Lemma descending_insert (q : list PacketBuffer) (new : PacketBuffer) :
  descending q ->
  let k := insertPosFrom (priority new) q 0 in
  descending (firstn k q ++ new :: skipn k q) /\
  Forall (fun b => priority new <= priority b) (firstn k q) /\
  Forall (fun b => priority b < priority new) (skipn k q).
Proof.
  intros Hd k.
  destruct (insertPosFrom_spec (priority new) q 0) as (k' & Hk & Hl & Hf & Hs).
  cbn [Nat.add] in Hk. subst k. rewrite Hk.
  rewrite <- (firstn_skipn k' q) in Hd.
  apply descending_app in Hd. destruct Hd as (Ha & Hb & Hc).
  assert (Hpost : Forall (fun b => priority b < priority new) (skipn k' q)).
  { destruct (skipn k' q) as [|x r]; [constructor|].
    cbn [descending] in Hb. destruct Hb as [Hr _].
    constructor; [assumption|].
    apply Forall_forall. intros y Hy. rewrite Forall_forall in Hr.
    specialize (Hr y Hy). lia. }
  split; [|split; assumption].
  apply descending_app. split; [assumption|]. split.
  - cbn [descending]. split; [|assumption].
    apply Forall_forall. intros y Hy. rewrite Forall_forall in Hpost.
    specialize (Hpost y Hy). lia.
  - intros x y Hx [<-|Hy].
    + rewrite Forall_forall in Hf. apply Hf. assumption.
    + apply Hc; assumption.
Qed.

(** X8.  [addToBuffer] keeps the outgoing buffer within its sixteen slots and in
    order of descending priority; a packet it accepts is placed behind every
    buffered packet of the same or a higher priority and before every one
    of a lower priority. *)
Theorem outgoing_buffer_stays_ordered (h : PacketHandler) (bytes : list Z)
  (prio now : Z) :
  descending (packetQueue h) ->
  (length (packetQueue h) <= QUEUE_LENGTH)%nat ->
  descending (packetQueue (snd (addToBuffer h bytes prio now))) /\
  (length (packetQueue (snd (addToBuffer h bytes prio now))) <= QUEUE_LENGTH)%nat /\
  (fst (addToBuffer h bytes prio now) = true ->
   exists pre post,
     packetQueue (snd (addToBuffer h bytes prio now))
     = pre ++ mkBuffer bytes (wrap32 now) prio true :: post /\
     Forall (fun b => prio <= priority b) pre /\
     Forall (fun b => priority b < prio) post).
Proof.
  intros Hd Hlen. unfold addToBuffer.
  assert (Hins : forall q,
             descending q -> (length q < QUEUE_LENGTH)%nat ->
             let k := insertPosFrom prio q 0 in
             descending (firstn k q ++ mkBuffer bytes (wrap32 now) prio true :: skipn k q) /\
             (length (firstn k q ++ mkBuffer bytes (wrap32 now) prio true :: skipn k q)
              <= QUEUE_LENGTH)%nat /\
             (true = true ->
              exists pre post,
                firstn k q ++ mkBuffer bytes (wrap32 now) prio true :: skipn k q
                = pre ++ mkBuffer bytes (wrap32 now) prio true :: post /\
                Forall (fun b => prio <= priority b) pre /\
                Forall (fun b => priority b < prio) post)).
  { intros q Hq Hl k.
    destruct (descending_insert q (mkBuffer bytes (wrap32 now) prio true) Hq)
      as (H1 & H2 & H3).
    cbn [priority] in *. fold k in H1, H2, H3.
    split; [assumption|]. split.
    - rewrite length_app. cbn [length].
      pose proof (firstn_skipn k q) as E.
      apply (f_equal (@length PacketBuffer)) in E. rewrite length_app in E. lia.
    - intros _. eexists. eexists. split; [reflexivity|]. split; assumption. }
  destruct (Nat.leb_spec QUEUE_LENGTH (length (packetQueue h))) as [Hfull|Hroom].
  - destruct (Nat.ltb_spec (findOldestLowPriorityPacket h) QUEUE_LENGTH) as [Hev|Hno].
    + cbn [fst snd packetQueue set_packetQueue].
      apply Hins.
      * apply descending_remove. assumption.
      * rewrite length_app, length_firstn, length_skipn. lia.
    + cbn [fst snd packetQueue inc_packetsDropped].
      split; [assumption|]. split; [assumption | discriminate].
  - cbn [fst snd packetQueue set_packetQueue]. apply Hins; assumption.
Qed.

Lemma outgoing_buffer_stays_ordered_witness :
  map priority
    (packetQueue
       (snd (addToBuffer
               (snd (addToBuffer (snd (addToBuffer init [1] 1 10)) [2] 1 20))
               [3] 2 30)))
  = [2; 1; 1] /\
  descending
    (packetQueue
       (snd (addToBuffer
               (snd (addToBuffer (snd (addToBuffer init [1] 1 10)) [2] 1 20))
               [3] 2 30))).
Proof.
  split; [vm_compute; reflexivity|].
  apply (outgoing_buffer_stays_ordered
           (snd (addToBuffer (snd (addToBuffer init [1] 1 10)) [2] 1 20)) [3] 2 30).
  - vm_compute. repeat constructor; discriminate.
  - vm_compute. lia.
Defined.

(** X9.  From a buffer in descending order [dequeuePacket] hands out the data of
    a packet whose priority no buffered packet exceeds, removes exactly that
    packet and leaves the rest in order; from an empty buffer it returns
    nothing and changes nothing. *)
Theorem dequeue_takes_highest_priority (h : PacketHandler) :
  descending (packetQueue h) ->
  match packetQueue h with
  | [] => dequeuePacket h = (None, h)
  | b :: rest =>
      fst (dequeuePacket h) = Some (data b) /\
      packetQueue (snd (dequeuePacket h)) = rest /\
      (forall c, In c (packetQueue h) -> priority c <= priority b) /\
      descending (packetQueue (snd (dequeuePacket h)))
  end.
Proof.
  intro Hd. unfold dequeuePacket.
  destruct (packetQueue h) as [|b rest] eqn:E; [reflexivity|].
  cbn [fst snd packetQueue set_packetQueue]. cbn [descending] in Hd.
  destruct Hd as [Hb Hr]. repeat split; try assumption.
  intros c [<-|Hc]; [lia|]. rewrite Forall_forall in Hb. apply Hb. assumption.
Qed.

Lemma dequeue_takes_highest_priority_witness :
  descending
    (packetQueue (snd (addToBuffer (snd (addToBuffer init [1] 1 10)) [3] 2 30))) /\
  fst (dequeuePacket
         (snd (addToBuffer (snd (addToBuffer init [1] 1 10)) [3] 2 30)))
  = Some [3].
Proof.
  assert (Hd : descending
                 (packetQueue
                    (snd (addToBuffer (snd (addToBuffer init [1] 1 10)) [3] 2 30))))
    by (vm_compute; repeat constructor; discriminate).
  split; [exact Hd|].
  pose proof (dequeue_takes_highest_priority _ Hd) as H.
  assert (E : packetQueue
                (snd (addToBuffer (snd (addToBuffer init [1] 1 10)) [3] 2 30))
              = [mkBuffer [3] 30 2 true; mkBuffer [1] 10 1 true])
    by (vm_compute; reflexivity).
  rewrite E in H. destruct H as [H _]. exact H.
Defined.

(** *** A full outgoing buffer *)




(** *** A well-formed frame is reported *)

Lemma firstn_prefix (n m : nat) (a b : list Z) :
  firstn n a = firstn n b -> (m <= n)%nat -> firstn m a = firstn m b.
Proof.
  intros E Hm.
  replace m with (Nat.min m n) by lia.
  rewrite <- !firstn_firstn, E. reflexivity.
Qed.

Lemma nth_prefix (n i : nat) (a b : list Z) :
  firstn n a = firstn n b -> (i < n)%nat -> nth i a 0 = nth i b 0.
Proof.
  intros E Hi.
  pose proof (nth_firstn n a i 0) as Ha. pose proof (nth_firstn n b i 0) as Hb.
  replace (i <? n)%nat with true in Ha, Hb by (symmetry; apply Nat.ltb_lt; lia).
  rewrite <- Ha, <- Hb, E. reflexivity.
Qed.

Lemma slice_prefix (n start len : nat) (a b : list Z) :
  firstn n a = firstn n b -> (start + len <= n)%nat ->
  slice start len a = slice start len b.
Proof.
  intros E Hle. unfold slice. rewrite !firstn_skipn_comm.
  rewrite (firstn_prefix n (start + len) a b E Hle). reflexivity.
Qed.

Lemma header_prefix (n : nat) (a b : list Z) :
  firstn n a = firstn n b -> (7 <= n)%nat -> header_of_bytes a = header_of_bytes b.
Proof.
  intros E Hn. unfold header_of_bytes.
  rewrite !(nth_prefix n _ a b E) by lia. reflexivity.
Qed.

(** [verifyCRC] looks at the first [n] bytes only. *)
Lemma verifyCRC_prefix (h h' : PacketHandler) (a b : list Z) (n : nat) :
  firstn n a = firstn n b ->
  0 <= payloadLength (header_of_bytes b) ->
  Z.of_nat sizeof_PacketHeader + payloadLength (header_of_bytes b)
  + Z.of_nat sizeof_PacketFooter <= Z.of_nat n ->
  fst (verifyCRC h a n) = fst (verifyCRC h' b n).
Proof.
  unfold sizeof_PacketHeader, sizeof_PacketFooter. intros E Hpos Hn.
  assert (Hh : header_of_bytes a = header_of_bytes b)
    by (apply (header_prefix n); [assumption | lia]).
  unfold verifyCRC, sizeof_PacketHeader, sizeof_PacketFooter.
  rewrite Hh.
  rewrite (firstn_prefix n (8 - 1) a b E) by lia.
  rewrite (slice_prefix n 8 (Z.to_nat (payloadLength (header_of_bytes b))) a b E)
    by lia.
  rewrite !(nth_prefix n _ a b E) by lia.
  destruct (n <? 8 + 4)%nat; [reflexivity|].
  destruct (negb _); [reflexivity|].
  destruct (negb _); reflexivity.
Qed.

Lemma firstn_store (k : nat) (v : Z) (buffer : list Z) :
  (k < length buffer)%nat ->
  firstn (S k) (store k v buffer) = firstn k buffer ++ [v].
Proof.
  intro Hk. unfold store.
  replace (k <? length buffer)%nat with true by (symmetry; apply Nat.ltb_lt; lia).
  rewrite firstn_app, length_firstn.
  replace (Nat.min k (length buffer)) with k by lia.
  replace (S k - k)%nat with 1%nat by lia.
  rewrite firstn_all2 by (rewrite length_firstn; lia).
  reflexivity.
Qed.

Lemma firstn_next (k : nat) (b : Z) (l : list Z) :
  nth_error l k = Some b -> firstn (S k) l = firstn k l ++ [b].
Proof.
  revert k. induction l as [|x l IH]; intros [|k] H; try discriminate.
  - cbn in H. injection H as ->. reflexivity.
  - cbn [firstn app]. f_equal. apply IH. exact H.
Qed.

Lemma skipn_cons (k : nat) (b : Z) (l r : list Z) :
  skipn k l = b :: r -> nth_error l k = Some b /\ skipn (S k) l = r.
Proof.
  revert l. induction k as [|k IH]; intros [|x l] H; try discriminate.
  - cbn in H. injection H as -> ->. split; reflexivity.
  - cbn [skipn] in H. destruct (IH l H) as [H1 H2]. split; assumption.
Qed.

Section Frame.

Variables (frame : list Z) (h0 : PacketHandler).
Hypothesis Hvalid : validateHeader (header_of_bytes frame) = true.
Hypothesis Hpos : 0 <= payloadLength (header_of_bytes frame).
Hypothesis Hlen :
  Z.of_nat (length frame)
  = Z.of_nat sizeof_PacketHeader + payloadLength (header_of_bytes frame)
    + Z.of_nat sizeof_PacketFooter.

(** A byte of the frame other than the last is stored and nothing is
    reported. *)
Lemma loading_step (h : PacketHandler) (k : nat) (b : Z) :
  loading frame h0 h k ->
  nth_error frame k = Some b ->
  (S k < length frame)%nat ->
  exists h', processReceivedByte h b = (false, h') /\ loading frame h0 h' (S k).
Proof.
  intros (Hin & Hidx & Hbuf & Hpre & Hexp & Hrecv & Hcrc) Hb Hk.
  pose proof (validateHeader_length _ Hvalid) as Hmax.
  unfold sizeof_PacketHeader, sizeof_PacketFooter, sizeof_receiveBuffer,
    MAX_PAYLOAD_SIZE in *.
  assert (Hroom : (k < length (receiveBuffer h))%nat) by lia.
  assert (Hpre' : firstn (S k) (store k b (receiveBuffer h)) = firstn (S k) frame).
  { rewrite (firstn_store k b _ Hroom), (firstn_next k b frame Hb), Hpre.
    reflexivity. }
  unfold processReceivedByte. rewrite Hin, Hidx. cbn [negb].
  cbn [receiveIndex set_receive receiveBuffer expectedPayloadSize].
  unfold sizeof_PacketHeader.
  destruct (Nat.eqb_spec (S k) 8) as [E8|N8].
  - (* the header is complete *)
    rewrite (header_prefix (S k) _ frame Hpre') by lia.
    rewrite Hvalid. cbn [negb].
    cbn [expectedPayloadSize set_header].
    unfold sizeof_PacketFooter, sizeof_receiveBuffer.
    replace (Z.of_nat 8 + payloadLength (header_of_bytes frame) + Z.of_nat 4
             >? Z.of_nat 512) with false
      by (symmetry; rewrite Z.gtb_ltb; apply Z.ltb_ge; lia).
    rewrite checkComplete_pending
      by (cbn [receiveIndex expectedPayloadSize set_header set_receive];
          unfold sizeof_PacketHeader, sizeof_PacketFooter; lia).
    eexists. split; [reflexivity|].
    unfold loading, sizeof_PacketHeader, sizeof_receiveBuffer.
    cbn [inPacket receiveIndex receiveBuffer expectedPayloadSize packetsReceived
         crcErrors set_header set_receive].
    rewrite length_store.
    replace (S k <? 8)%nat with false by (symmetry; apply Nat.ltb_ge; lia).
    repeat split; assumption.
  - assert (Hexp' : expectedPayloadSize h
                    = if (S k <? 8)%nat then 0
                      else payloadLength (header_of_bytes frame)).
    { rewrite Hexp. destruct (Nat.ltb_spec k 8), (Nat.ltb_spec (S k) 8);
        try reflexivity; lia. }
    rewrite checkComplete_pending.
    + eexists. split; [reflexivity|].
      unfold loading, sizeof_PacketHeader, sizeof_receiveBuffer.
      cbn [inPacket receiveIndex receiveBuffer expectedPayloadSize packetsReceived
           crcErrors set_receive].
      rewrite length_store.
      repeat split; assumption.
    + cbn [receiveIndex expectedPayloadSize set_receive].
      unfold sizeof_PacketHeader, sizeof_PacketFooter. rewrite Hexp'.
      destruct (S k <? 8)%nat eqn:E; [apply Nat.ltb_lt in E|]; lia.
Qed.

Lemma loading_feed (mid : list Z) (h : PacketHandler) (k : nat) (rest : list Z) :
  loading frame h0 h k ->
  skipn k frame = mid ++ rest ->
  rest <> [] ->
  exists h', feed h mid false = (false, h') /\
             loading frame h0 h' (k + length mid).
Proof.
  revert h k. induction mid as [|b mid IH]; intros h k Hload Hskip Hrest.
  - exists h. split; [reflexivity|]. rewrite Nat.add_0_r. assumption.
  - cbn [app] in Hskip. destruct (skipn_cons k b frame _ Hskip) as [Hb Hnext].
    assert (Hk : (S k < length frame)%nat).
    { assert (Hl : length (skipn (S k) frame) = length (mid ++ rest))
        by (rewrite Hnext; reflexivity).
      rewrite length_skipn, length_app in Hl.
      destruct rest; [contradiction|]. cbn [length] in Hl. lia. }
    destruct (loading_step h k b Hload Hb Hk) as (h1 & Hstep & Hload1).
    destruct (IH h1 (S k) Hload1 Hnext Hrest) as (h' & Hfeed & Hload').
    exists h'. cbn [feed]. rewrite Hstep. split; [exact Hfeed|].
    cbn [length]. replace (k + S (length mid))%nat with (S k + length mid)%nat by lia.
    exact Hload'.
Qed.

(** The last byte completes the packet: the parser runs [verifyCRC] over
    the frame. *)
Lemma loading_last (h : PacketHandler) (k : nat) (b : Z) :
  loading frame h0 h k ->
  nth_error frame k = Some b ->
  S k = length frame ->
  fst (verifyCRC h0 frame (length frame)) = true ->
  exists h',
    processReceivedByte h b = (true, h') /\
    inPacket h' = false /\ receiveIndex h' = 0%nat /\
    expectedPayloadSize h' = 0 /\
    packetsReceived h' = wrap32 (wrap32 (packetsReceived h0 + 1) + 1) /\
    crcErrors h' = crcErrors h0.
Proof.
  intros (Hin & Hidx & Hbuf & Hpre & Hexp & Hrecv & Hcrc) Hb Hk Hok.
  pose proof (validateHeader_length _ Hvalid) as Hmax.
  unfold sizeof_PacketHeader, sizeof_PacketFooter, sizeof_receiveBuffer,
    MAX_PAYLOAD_SIZE in *.
  assert (Hroom : (k < length (receiveBuffer h))%nat) by lia.
  assert (Hpre' : firstn (S k) (store k b (receiveBuffer h)) = firstn (S k) frame).
  { rewrite (firstn_store k b _ Hroom), (firstn_next k b frame Hb), Hpre.
    reflexivity. }
  replace (k <? 8)%nat with false in Hexp by (symmetry; apply Nat.ltb_ge; lia).
  unfold processReceivedByte. rewrite Hin, Hidx. cbn [negb].
  cbn [receiveIndex set_receive].
  unfold sizeof_PacketHeader.
  replace (S k =? 8)%nat with false by (symmetry; apply Nat.eqb_neq; lia).
  set (h1 := set_receive h (store k b (receiveBuffer h)) (S k) true).
  destruct (checkComplete_done h1) as (_ & H2 & H3 & H4 & H5 & H6).
  { cbn [receiveIndex expectedPayloadSize h1 set_receive].
    unfold sizeof_PacketHeader, sizeof_PacketFooter. lia. }
  assert (Hv : fst (checkComplete h1) = true).
  { rewrite H5. cbn [receiveBuffer receiveIndex h1 set_receive].
    rewrite (verifyCRC_prefix h1 h0 _ frame (S k) Hpre' Hpos)
      by (unfold sizeof_PacketHeader, sizeof_PacketFooter; lia).
    rewrite Hk. exact Hok. }
  destruct (H6 Hv) as [H7 H8].
  exists (snd (checkComplete h1)).
  split; [rewrite <- Hv; apply surjective_pairing|].
  repeat split; try assumption.
  - rewrite H7. cbn [packetsReceived h1 set_receive]. rewrite Hrecv. reflexivity.
  - rewrite H8. cbn [crcErrors h1 set_receive]. exact Hcrc.
Qed.

End Frame.

Lemma loading_start (h : PacketHandler) (rest : list Z) :
  parser_ok h -> inPacket h = false -> receiveIndex h = 0%nat ->
  exists h2,
    feed h [PACKET_START_BYTE1; PACKET_START_BYTE2] false = (false, h2) /\
    loading (PACKET_START_BYTE1 :: PACKET_START_BYTE2 :: rest) h h2 2.
Proof.
  intros (Hbuf & Hseek & _) Hin Hidx.
  destruct (Hseek Hin) as [_ Hexp].
  cbn [feed]. unfold processReceivedByte at 1. rewrite Hin, Hidx.
  cbn [negb Nat.eqb andb]. rewrite Z.eqb_refl.
  unfold processReceivedByte.
  cbn [inPacket receiveIndex receiveBuffer set_receive negb Nat.eqb andb].
  rewrite Z.eqb_refl.
  eexists. split; [reflexivity|].
  unfold loading.
  cbn [inPacket receiveIndex receiveBuffer expectedPayloadSize packetsReceived
       crcErrors set_receive].
  rewrite !length_store.
  unfold sizeof_receiveBuffer in *.
  rewrite (firstn_store 1) by (rewrite length_store; lia).
  rewrite (firstn_store 0) by lia.
  repeat split; try assumption; reflexivity.
Qed.

(** X11.  A seeking parser handed a frame that starts with the two start bytes,
    whose header passes [validateHeader], whose length is that of header,
    announced payload and footer, and which passes [verifyCRC], reports the
    packet: [processIncomingData] returns true, the packet is counted (twice)
    and stamped, and the parser is back to seeking.  The two end bytes of
    the frame are not looked at. *)
Theorem well_formed_frame_is_reported (h : PacketHandler) (frame : list Z)
  (now : Z) :
  parser_ok h -> inPacket h = false -> receiveIndex h = 0%nat ->
  nth 0 frame 0 = PACKET_START_BYTE1 ->
  nth 1 frame 0 = PACKET_START_BYTE2 ->
  validateHeader (header_of_bytes frame) = true ->
  0 <= payloadLength (header_of_bytes frame) ->
  Z.of_nat (length frame)
  = Z.of_nat sizeof_PacketHeader + payloadLength (header_of_bytes frame)
    + Z.of_nat sizeof_PacketFooter ->
  fst (verifyCRC h frame (length frame)) = true ->
  exists h',
    processIncomingData h frame now = (true, h') /\
    inPacket h' = false /\ receiveIndex h' = 0%nat /\
    lastPacketTime h' = wrap32 now /\
    packetsReceived h' = wrap32 (wrap32 (packetsReceived h + 1) + 1) /\
    crcErrors h' = crcErrors h.
Proof.
  intros Hok Hin Hidx H0 H1 Hvalid Hpos Hlen Hcrc.
  assert (Hn : (12 <= length frame)%nat)
    by (unfold sizeof_PacketHeader, sizeof_PacketFooter in Hlen; lia).
  destruct frame as [|a [|b rest]]; try (cbn in Hn; lia).
  cbn [nth] in H0, H1. subst a b.
  destruct (exists_last (l := rest)) as (mid & last & ->);
    [intros ->; cbn in Hn; lia|].
  set (frame := PACKET_START_BYTE1 :: PACKET_START_BYTE2 :: mid ++ [last]) in *.
  destruct (loading_start h (mid ++ [last]) Hok Hin Hidx) as (h2 & Hfeed2 & Hload2).
  fold frame in Hload2.
  destruct (loading_feed frame h Hvalid Hpos Hlen mid h2 2 [last] Hload2 eq_refl)
    as (h3 & Hfeed3 & Hload3); [discriminate|].
  assert (Hlast : nth_error frame (2 + length mid) = Some last).
  { unfold frame. cbn [Nat.add nth_error].
    rewrite nth_error_app2, Nat.sub_diag by lia. reflexivity. }
  assert (Hend : S (2 + length mid) = length frame).
  { unfold frame. cbn [length]. rewrite length_app. cbn [length]. lia. }
  destruct (loading_last frame h Hvalid Hpos Hlen h3 (2 + length mid) last
              Hload3 Hlast Hend Hcrc)
    as (h4 & Hstep & Hin4 & Hidx4 & _ & Hrecv4 & Hcrc4).
  assert (Hfeed : feed h frame false = (true, h4)).
  { change frame
      with ([PACKET_START_BYTE1; PACKET_START_BYTE2] ++ mid ++ [last]).
    rewrite feed_app, Hfeed2. cbn [fst snd].
    rewrite feed_app, Hfeed3. cbn [fst snd feed].
    rewrite Hstep. reflexivity. }
  exists (set_lastPacketTime h4 (wrap32 now)).
  split.
  - unfold processIncomingData. rewrite Hfeed.
    replace (length frame =? 0)%nat with false
      by (symmetry; apply Nat.eqb_neq; lia).
    reflexivity.
  - cbn [inPacket receiveIndex lastPacketTime packetsReceived crcErrors
         set_lastPacketTime].
    repeat split; assumption.
Qed.

(** The frame [acceptedFrame], whose last two bytes are replaced by
    zeroes, handed to a fresh handler. *)
Lemma well_formed_frame_is_reported_witness :
  fst (processIncomingData init (firstn 13 acceptedFrame ++ [0; 0]) 9) = true.
Proof.
  destruct (well_formed_frame_is_reported init (firstn 13 acceptedFrame ++ [0; 0]) 9)
    as (h' & H & _).
  - apply parser_ok_init.
  - reflexivity.
  - reflexivity.
  - reflexivity.
  - reflexivity.
  - vm_compute. reflexivity.
  - vm_compute. discriminate.
  - vm_compute. reflexivity.
  - vm_compute. reflexivity.
  - rewrite H. reflexivity.
Defined.

(** *** First in, first out *)

Lemma insertPosFrom_end (prio : Z) (q : list PacketBuffer) (i : nat) :
  Forall (fun b => prio <= priority b) q ->
  insertPosFrom prio q i = (i + length q)%nat.
Proof.
  intro H. revert i. induction H as [|b q Hb _ IH]; intro i; cbn [insertPosFrom length].
  - lia.
  - replace (prio >? priority b) with false
      by (symmetry; rewrite Z.gtb_ltb; apply Z.ltb_ge; assumption).
    rewrite IH. lia.
Qed.

Lemma addToBuffer_append (h : PacketHandler) (bytes : list Z) (prio now : Z) :
  (length (packetQueue h) < QUEUE_LENGTH)%nat ->
  Forall (fun b => prio <= priority b) (packetQueue h) ->
  addToBuffer h bytes prio now
  = (true, set_packetQueue h
             (packetQueue h ++ [mkBuffer bytes (wrap32 now) prio true])).
Proof.
  intros Hroom Hall. unfold addToBuffer.
  replace (QUEUE_LENGTH <=? length (packetQueue h))%nat with false
    by (symmetry; apply Nat.leb_gt; assumption).
  rewrite (insertPosFrom_end prio _ 0 Hall). cbn [Nat.add].
  rewrite firstn_all, skipn_all. reflexivity.
Qed.

Lemma addAll_queue (items : list (list Z * Z)) (h : PacketHandler) (prio : Z) :
  (length (packetQueue h) + length items <= QUEUE_LENGTH)%nat ->
  Forall (fun b => prio <= priority b) (packetQueue h) ->
  packetQueue (addAll h items prio)
  = packetQueue h
    ++ map (fun x => mkBuffer (fst x) (wrap32 (snd x)) prio true) items.
Proof.
  revert h. induction items as [|[bytes now] items IH]; intros h Hroom Hall.
  - cbn. rewrite app_nil_r. reflexivity.
  - cbn [length] in Hroom. cbn [addAll fold_left fst snd].
    rewrite addToBuffer_append by (assumption || lia). cbn [snd].
    change (fold_left _ items ?x) with (addAll x items prio).
    rewrite IH.
    + cbn [packetQueue set_packetQueue map fst snd].
      rewrite <- app_assoc. reflexivity.
    + cbn [packetQueue set_packetQueue]. rewrite length_app. cbn [length]. lia.
    + cbn [packetQueue set_packetQueue]. apply Forall_app. split; [assumption|].
      repeat constructor. cbn. lia.
Qed.

Lemma drain_queue (q : list PacketBuffer) (h : PacketHandler) :
  packetQueue h = q ->
  fst (drain (length q) h) = map data q /\
  packetQueue (snd (drain (length q) h)) = [].
Proof.
  revert h. induction q as [|b q IH]; intros h Hq.
  - cbn. split; [reflexivity | assumption].
  - cbn [length drain]. unfold dequeuePacket. rewrite Hq.
    destruct (IH (set_packetQueue h q) eq_refl) as [H1 H2].
    destruct (drain (length q) (set_packetQueue h q)) as [ds h'].
    cbn [fst snd map] in *. split; [f_equal; assumption | assumption].
Qed.

(** X12.  Packets put into an empty outgoing buffer with one and the same priority,
    sixteen at most, leave it through [dequeuePacket] in the order in which
    [addToBuffer] took them, and the buffer is empty again. *)
Theorem equal_priority_is_first_in_first_out (h : PacketHandler)
  (items : list (list Z * Z)) (prio : Z) :
  packetQueue h = [] ->
  (length items <= QUEUE_LENGTH)%nat ->
  fst (drain (length items) (addAll h items prio)) = map fst items /\
  packetQueue (snd (drain (length items) (addAll h items prio))) = [].
Proof.
  intros Hempty Hn.
  pose proof (addAll_queue items h prio) as Hq.
  rewrite Hempty in Hq. cbn [length Nat.add app] in Hq.
  specialize (Hq Hn (Forall_nil _)).
  destruct (drain_queue _ (addAll h items prio) Hq) as [H1 H2].
  rewrite length_map in H1, H2.
  split; [|exact H2].
  rewrite H1, map_map. cbn [data]. reflexivity.
Qed.

Lemma equal_priority_is_first_in_first_out_witness :
  fst (drain 3 (addAll init [([1], 10); ([2], 20); ([3], 30)] PRIORITY_NORMAL))
  = [[1]; [2]; [3]].
Proof.
  apply (equal_priority_is_first_in_first_out init
           [([1], 10); ([2], 20); ([3], 30)] PRIORITY_NORMAL).
  - reflexivity.
  - unfold QUEUE_LENGTH. cbn [length]. lia.
Defined.

End HandlerOpsFacts.

(** ** Further properties of the delivery manager *)

Module LoRaOpsFacts.
Import Codec LoRa LoRaOps.

Lemma to_int8_range (x : Z) : -128 <= to_int8 x <= 127.
Proof. unfold to_int8. pose proof (Z.mod_pos_bound (x + 128) 256). lia. Qed.

Lemma to_int8_small (x : Z) : -128 <= x <= 127 -> to_int8 x = x.
Proof. unfold to_int8. intro H. rewrite Z.mod_small by lia. lia. Qed.

Lemma to_int8_idem (x : Z) : to_int8 (to_int8 x) = to_int8 x.
Proof. apply to_int8_small, to_int8_range. Qed.

Lemma to_int8_wrap8 (x : Z) : to_int8 (wrap8 x) = to_int8 x.
Proof.
  unfold to_int8, wrap8. rewrite Zplus_mod_idemp_l. reflexivity.
Qed.

(** *** The checksum catches a corrupted byte *)

Lemma lxor_range16 (s b : Z) :
  0 <= s < 65536 -> 0 <= b < 65536 -> 0 <= Z.lxor s b < 65536.
Proof.
  intros Hs Hb.
  assert (E : Z.lxor s b mod 2 ^ 16 = Z.lxor s b).
  { apply Z.bits_inj'. intros n Hn.
    destruct (Z.ltb_spec n 16) as [Hlt|Hge].
    - rewrite Z.mod_pow2_bits_low by lia. reflexivity.
    - rewrite Z.mod_pow2_bits_high by lia.
      rewrite Z.lxor_spec, !testbit_high16 by lia. reflexivity. }
  rewrite <- E. apply Z.mod_pos_bound. lia.
Qed.

Lemma lxor_cancel_r (a b c : Z) : Z.lxor a c = Z.lxor b c -> a = b.
Proof.
  intro H. apply (f_equal (fun x => Z.lxor x c)) in H.
  rewrite !Z.lxor_assoc, Z.lxor_nilpotent, !Z.lxor_0_r in H. exact H.
Qed.

Lemma lxor_cancel_l (a b c : Z) : Z.lxor c a = Z.lxor c b -> a = b.
Proof. rewrite !(Z.lxor_comm c). apply lxor_cancel_r. Qed.

Lemma half_range (c : Z) : 0 <= c < 65536 -> 0 <= Z.shiftr c 1 < 65536.
Proof.
  intro Hc. rewrite Z.shiftr_div_pow2 by lia. change (2 ^ 1) with 2.
  Z.div_mod_to_equations. lia.
Qed.

(** The shift step without its reduction to 16 bits. *)
Lemma crc16_bit_eq (c : Z) :
  0 <= c < 65536 ->
  crc16_bit c = Z.lxor (Z.shiftr c 1) (if Z.testbit c 0 then 0xA001 else 0).
Proof.
  intro Hc. pose proof (half_range c Hc) as Hh.
  unfold crc16_bit, wrap16. destruct (Z.testbit c 0).
  - apply Z.mod_small. apply lxor_range16; lia.
  - rewrite Z.lxor_0_r. apply Z.mod_small. assumption.
Qed.

(** Bit 15 of the result tells whether the polynomial was mixed in. *)
Lemma crc16_bit_top (c : Z) :
  0 <= c < 65536 -> Z.testbit (crc16_bit c) 15 = Z.testbit c 0.
Proof.
  intro Hc. rewrite crc16_bit_eq, Z.lxor_spec by assumption.
  rewrite Z.shiftr_spec by lia.
  rewrite (testbit_high16 c (15 + 1)) by lia.
  destruct (Z.testbit c 0); reflexivity.
Qed.

Lemma crc16_bit_inj (c c' : Z) :
  0 <= c < 65536 -> 0 <= c' < 65536 -> crc16_bit c = crc16_bit c' -> c = c'.
Proof.
  intros Hc Hc' H.
  assert (Ht : Z.testbit c 0 = Z.testbit c' 0).
  { rewrite <- (crc16_bit_top c Hc), <- (crc16_bit_top c' Hc'), H. reflexivity. }
  rewrite (crc16_bit_eq c Hc), (crc16_bit_eq c' Hc'), Ht in H.
  apply lxor_cancel_r in H.
  apply Z.bits_inj'. intros n Hn.
  destruct (Z.eq_dec n 0) as [->|Hn0]; [exact Ht|].
  replace n with (n - 1 + 1) by lia.
  rewrite <- !Z.shiftr_spec by lia. rewrite H. reflexivity.
Qed.

Lemma iter_crc16_bit_range (n : nat) (c : Z) :
  0 <= c < 65536 -> 0 <= iter n crc16_bit c < 65536.
Proof.
  revert c. induction n as [|n IH]; intros c Hc; [assumption|].
  cbn [iter]. apply IH, CodecFacts.crc16_bit_range.
Qed.

Lemma iter_crc16_bit_inj (n : nat) (c c' : Z) :
  0 <= c < 65536 -> 0 <= c' < 65536 ->
  iter n crc16_bit c = iter n crc16_bit c' -> c = c'.
Proof.
  revert c c'. induction n as [|n IH]; intros c c' Hc Hc' H; [assumption|].
  cbn [iter] in H.
  apply IH in H; try apply CodecFacts.crc16_bit_range.
  apply crc16_bit_inj; assumption.
Qed.

Lemma crc16_byte_lxor (s s' b b' : Z) :
  0 <= s < 65536 -> 0 <= s' < 65536 -> is_byte b -> is_byte b' ->
  crc16_byte s b = crc16_byte s' b' -> Z.lxor s b = Z.lxor s' b'.
Proof.
  unfold is_byte, crc16_byte. intros Hs Hs' Hb Hb' H.
  apply iter_crc16_bit_inj in H; try apply wrap16_range.
  unfold wrap16 in H.
  rewrite !Z.mod_small in H by (apply lxor_range16; lia). exact H.
Qed.

Lemma fold_crc16_inj (l : list Z) (s s' : Z) :
  is_bytes l -> 0 <= s < 65536 -> 0 <= s' < 65536 ->
  fold_left crc16_byte l s = fold_left crc16_byte l s' -> s = s'.
Proof.
  intro Hl. revert s s'. induction Hl as [|b l Hb _ IH]; intros s s' Hs Hs' H;
    [assumption|].
  cbn [fold_left] in H.
  apply IH in H; try apply CodecFacts.crc16_byte_range.
  apply crc16_byte_lxor in H; try assumption.
  apply lxor_cancel_r in H. exact H.
Qed.

Lemma is_bytes_firstn (n : nat) (l : list Z) : is_bytes l -> is_bytes (firstn n l).
Proof.
  unfold is_bytes. rewrite !Forall_forall. intros H x Hx.
  apply H. apply (LoRaFacts.In_firstn n). assumption.
Qed.

Lemma is_bytes_skipn (n : nat) (l : list Z) : is_bytes l -> is_bytes (skipn n l).
Proof.
  unfold is_bytes. rewrite !Forall_forall. intros H x Hx.
  apply H. apply (LoRaFacts.In_skipn n). assumption.
Qed.

Lemma split_at (i : nat) (l : list Z) :
  (i < length l)%nat -> l = firstn i l ++ nth i l 0 :: skipn (S i) l.
Proof.
  revert i. induction l as [|x l IH]; intros i Hi; [cbn in Hi; lia|].
  destruct i as [|i]; [reflexivity|].
  cbn [firstn nth skipn app]. f_equal. apply IH. cbn in Hi. lia.
Qed.

Lemma single_byte_changes_crc16 (i : nat) (l l' : list Z) :
  is_bytes l -> corruptedAt i l l' -> calculateCRC16 l' <> calculateCRC16 l.
Proof.
  intros Hl (Hi & x & Hx & Hne & ->) H.
  pose proof (split_at i l Hi) as E.
  assert (Hpost : is_bytes (skipn (S i) l)) by (apply is_bytes_skipn; assumption).
  assert (Hy : is_byte (nth i l 0)).
  { unfold is_bytes in Hl. rewrite Forall_forall in Hl. apply Hl.
    apply nth_In. assumption. }
  remember (firstn i l) as pre. remember (skipn (S i) l) as post.
  remember (nth i l 0) as y.
  rewrite E in H. clear E.
  unfold calculateCRC16 in H. rewrite !fold_left_app in H. cbn [fold_left] in H.
  assert (Hs : 0 <= fold_left crc16_byte pre 0xFFFF < 65536)
    by (apply CodecFacts.fold_crc16_range; lia).
  apply fold_crc16_inj in H;
    [| assumption
     | apply CodecFacts.crc16_byte_range | apply CodecFacts.crc16_byte_range].
  apply crc16_byte_lxor in H; try assumption.
  apply lxor_cancel_l in H. contradiction.
Qed.

(** X13.  Two byte strings that differ in exactly one byte never have the same
    checksum: [calculateCRC16] detects every corruption of a single byte. *)
Theorem crc16_detects_single_byte_corruption (i : nat) (l l' : list Z) :
  is_bytes l -> corruptedAt i l l' -> calculateCRC16 l' <> calculateCRC16 l.
Proof. apply single_byte_changes_crc16. Qed.

Lemma crc16_detects_single_byte_corruption_witness :
  calculateCRC16 [1; 2; 0xFF; 4] <> calculateCRC16 [1; 2; 3; 4].
Proof.
  apply (crc16_detects_single_byte_corruption 2).
  - repeat constructor; unfold is_byte; lia.
  - split; [cbn; lia|]. exists 0xFF. split; [unfold is_byte; lia|].
    split; [cbn; lia | reflexivity].
Defined.

(** *** A corrupted frame is rejected *)

Lemma two_last (l : list Z) :
  (2 <= length l)%nat -> exists p c1 c0, l = p ++ [c1; c0].
Proof.
  intro H.
  destruct (exists_last (l := l)) as (l1 & c0 & ->);
    [intros ->; cbn in H; lia|].
  rewrite length_app in H. cbn [length] in H.
  destruct (exists_last (l := l1)) as (p & c1 & ->);
    [intros ->; cbn in H; lia|].
  exists p, c1, c0. rewrite <- app_assoc. reflexivity.
Qed.

Lemma be16_split_join (hi lo : Z) :
  is_byte hi -> is_byte lo ->
  Z.land (Z.shiftr (wrap16 (Z.lor (Z.shiftl hi 8) lo)) 8) 0xFF = hi /\
  Z.land (wrap16 (Z.lor (Z.shiftl hi 8) lo)) 0xFF = lo.
Proof.
  unfold is_byte, wrap16. intros Hhi Hlo.
  rewrite Z.shiftl_mul_pow2 by lia.
  rewrite (HandlerOpsFacts.lor_disjoint hi lo 8) by (change (2 ^ 8) with 256; lia).
  rewrite !HandlerOpsFacts.low_byte, Z.shiftr_div_pow2 by lia.
  change (2 ^ 8) with 256.
  split; Z.div_mod_to_equations; lia.
Qed.

Lemma be16_join_inj (a b a' b' : Z) :
  is_byte a -> is_byte b -> is_byte a' -> is_byte b' ->
  wrap16 (Z.lor (Z.shiftl a 8) b) = wrap16 (Z.lor (Z.shiftl a' 8) b') ->
  a = a' /\ b = b'.
Proof.
  intros Ha Hb Ha' Hb' H.
  destruct (be16_split_join a b Ha Hb) as [H1 H2].
  destruct (be16_split_join a' b' Ha' Hb') as [H1' H2'].
  rewrite H in H1, H2. split; congruence.
Qed.

(** What [deserializePacket] and [validatePacket] make of a frame: the
    checksum runs over everything but the last two bytes and is compared
    with these. *)
Lemma check_of_frame (body : list Z) (c1 c0 : Z) (dst : Packet) :
  is_bytes body -> (11 <= length body)%nat ->
  exists pkt,
    deserializePacket (body ++ [c1; c0]) dst = Some pkt /\
    validatePacket pkt
    = (calculateCRC16 body =? wrap16 (Z.lor (Z.shiftl c1 8) c0)).
Proof.
  intros Hb Hlen.
  do 11 (destruct body as [|? body]; [cbn in Hlen; lia|]).
  repeat match goal with
         | H : is_bytes (_ :: _) |- _ => inversion H; subst; clear H
         | H : Forall is_byte (_ :: _) |- _ => inversion H; subst; clear H
         end.
  eexists. split.
  - apply (CodecFacts.deserialize_layout z z0 z1 z2 z3 z4 z5 z6 z7 z8 z9 c1 c0 body dst).
  - unfold validatePacket, crcInput.
    cbn [header type sequenceNumber payload crc16 app firstn sizeof_PacketHeader].
    rewrite wrap8_byte by assumption.
    destruct (be16_split_join z8 z9) as [-> ->]; try assumption.
    reflexivity.
Qed.

Lemma receivePacket_frame (m : LoRaManager) (io : Radio) (body : list Z)
  (c1 c0 r s : Z) :
  is_bytes body -> (11 <= length body)%nat ->
  (length (body ++ [c1; c0]) <= Z.to_nat MAX_PACKET_SIZE)%nat ->
  rx io = Some (body ++ [c1; c0], r, s) ->
  (calculateCRC16 body =? wrap16 (Z.lor (Z.shiftl c1 8) c0)) = true /\
  (exists pkt, fst (receivePacket m io) = Some pkt)
  \/
  (calculateCRC16 body =? wrap16 (Z.lor (Z.shiftl c1 8) c0)) = false /\
  receivePacket m io
  = (None, inc_crcErrorCount (set_lastReceiveTime m (wrap32 (now_rx io)))).
Proof.
  intros Hb Hlen Hmax Hrx.
  destruct (check_of_frame body c1 c0 (local_packet io) Hb Hlen) as (pkt & Hd & Hv).
  unfold receivePacket. rewrite Hrx, firstn_all2, Hd, Hv by assumption.
  destruct (calculateCRC16 body =? _).
  - left. split; [reflexivity|]. eexists. reflexivity.
  - right. split; reflexivity.
Qed.

(** X14.  A frame [receivePacket] accepts is no longer accepted once one of its
    bytes has been replaced by a different one, wherever the byte sits
    (header, type, sequence number, payload or the checksum itself): the
    call returns false and counts the frame in [crcErrorCount], and
    [processIncomingPacket] dispatches nothing. *)
Theorem corrupted_frame_is_rejected (m m' : LoRaManager) (io io' : Radio)
  (buffer buffer' : list Z) (i : nat) (r s r' s' : Z) (pkt : Packet) :
  is_bytes buffer ->
  (length buffer <= Z.to_nat MAX_PACKET_SIZE)%nat ->
  rx io = Some (buffer, r, s) ->
  fst (receivePacket m io) = Some pkt ->
  corruptedAt i buffer buffer' ->
  rx io' = Some (buffer', r', s') ->
  receivePacket m' io'
  = (None, inc_crcErrorCount (set_lastReceiveTime m' (wrap32 (now_rx io')))) /\
  processIncomingPacket m' io'
  = inc_crcErrorCount (set_lastReceiveTime m' (wrap32 (now_rx io'))).
Proof.
  intros Hb Hmax Hrx Hacc (Hi & x & Hx & Hne & ->) Hrx'.
  assert (Hlen : (13 <= length buffer)%nat).
  { destruct (Nat.ltb_spec (length buffer) 13) as [Hlt|Hge]; [|assumption].
    unfold receivePacket in Hacc. rewrite Hrx, firstn_all2 in Hacc by assumption.
    unfold deserializePacket, sizeof_PacketHeader in Hacc.
    replace (length buffer <? 8 + 5)%nat with true in Hacc
      by (symmetry; apply Nat.ltb_lt; lia).
    discriminate. }
  destruct (two_last buffer) as (body & c1 & c0 & ->); [lia|].
  rewrite length_app in Hlen, Hi. cbn [length] in Hlen, Hi.
  apply Forall_app in Hb. destruct Hb as [Hbody Hcc].
  assert (Hc1 : is_byte c1) by (inversion Hcc; assumption).
  assert (Hc0 : is_byte c0)
    by (inversion Hcc as [|? ? _ Hcc']; inversion Hcc'; assumption).
  assert (Hok : (calculateCRC16 body =? wrap16 (Z.lor (Z.shiftl c1 8) c0)) = true).
  { assert (Hl11 : (11 <= length body)%nat) by lia.
    destruct (receivePacket_frame m io body c1 c0 r s Hbody Hl11 Hmax Hrx)
      as [[H _]|[_ H]]; [exact H|].
    rewrite H in Hacc. discriminate. }
  apply Z.eqb_eq in Hok.
  assert (Hgen : forall body' c1' c0',
             is_bytes body' -> length body' = length body ->
             rx io' = Some (body' ++ [c1'; c0'], r', s') ->
             calculateCRC16 body' <> wrap16 (Z.lor (Z.shiftl c1' 8) c0') ->
             receivePacket m' io'
             = (None, inc_crcErrorCount (set_lastReceiveTime m' (wrap32 (now_rx io')))) /\
             processIncomingPacket m' io'
             = inc_crcErrorCount (set_lastReceiveTime m' (wrap32 (now_rx io')))).
  { intros body' c1' c0' Hb' Hl' Hrx2 Hbad.
    assert (Hl11 : (11 <= length body')%nat) by lia.
    assert (Hmax' : (length (body' ++ [c1'; c0']) <= Z.to_nat MAX_PACKET_SIZE)%nat)
      by (rewrite length_app in *; cbn [length] in *; lia).
    destruct (receivePacket_frame m' io' body' c1' c0' r' s' Hb' Hl11 Hmax' Hrx2)
      as [[H _]|[_ H]].
    - apply Z.eqb_eq in H. contradiction.
    - unfold processIncomingPacket. rewrite H. split; reflexivity. }
  destruct (Nat.lt_ge_cases i (length body)) as [Hin|Hout].
  - (* the byte lies before the checksum *)
    rewrite app_nth1 in Hne by assumption.
    assert (E : firstn i (body ++ [c1; c0]) ++ x :: skipn (S i) (body ++ [c1; c0])
                = (firstn i body ++ x :: skipn (S i) body) ++ [c1; c0]).
    { rewrite firstn_app, skipn_app.
      replace (i - length body)%nat with 0%nat by lia.
      replace (S i - length body)%nat with 0%nat by lia.
      change (firstn 0 [c1; c0]) with (@nil Z).
      change (skipn 0 [c1; c0]) with [c1; c0].
      rewrite app_nil_r, <- app_assoc. reflexivity. }
    rewrite E in Hrx'.
    apply (Hgen (firstn i body ++ x :: skipn (S i) body) c1 c0); try assumption.
    + apply Forall_app. split; [apply is_bytes_firstn; assumption|].
      constructor; [assumption | apply is_bytes_skipn; assumption].
    + rewrite length_app, length_firstn. cbn [length]. rewrite length_skipn. lia.
    + rewrite <- Hok.
      apply (single_byte_changes_crc16 i); [assumption|].
      split; [assumption|]. exists x.
      split; [assumption|]. split; [assumption | reflexivity].
  - destruct (Nat.eq_dec i (length body)) as [->|Hi2].
    + (* the high byte of the checksum *)
      rewrite app_nth2, Nat.sub_diag in Hne by lia. cbn [nth] in Hne.
      assert (E : firstn (length body) (body ++ [c1; c0])
                  ++ x :: skipn (S (length body)) (body ++ [c1; c0])
                  = body ++ [x; c0]).
      { rewrite firstn_app, skipn_app, firstn_all, Nat.sub_diag.
        replace (S (length body) - length body)%nat with 1%nat by lia.
        rewrite (skipn_all2 (n := S (length body))) by lia.
        change (firstn 0 [c1; c0]) with (@nil Z).
        change (skipn 1 [c1; c0]) with [c0].
        rewrite app_nil_r. reflexivity. }
      rewrite E in Hrx'.
      apply (Hgen body x c0); try assumption; [reflexivity|].
      rewrite Hok. intro E'.
      apply be16_join_inj in E'; try assumption. destruct E' as [E' _]. congruence.
    + (* the low byte of the checksum *)
      assert (Ei : i = S (length body)) by lia. subst i.
      rewrite app_nth2 in Hne by lia.
      replace (S (length body) - length body)%nat with 1%nat in Hne by lia.
      cbn [nth] in Hne.
      assert (E : firstn (S (length body)) (body ++ [c1; c0])
                  ++ x :: skipn (S (S (length body))) (body ++ [c1; c0])
                  = body ++ [c1; x]).
      { rewrite firstn_app, skipn_app.
        rewrite (firstn_all2 (n := S (length body))) by lia.
        rewrite (skipn_all2 (n := S (S (length body)))) by lia.
        replace (S (length body) - length body)%nat with 1%nat by lia.
        replace (S (S (length body)) - length body)%nat with 2%nat by lia.
        change (firstn 1 [c1; c0]) with [c1].
        change (skipn 2 [c1; c0]) with (@nil Z).
        rewrite <- app_assoc. reflexivity. }
      rewrite E in Hrx'.
      apply (Hgen body c1 x); try assumption; [reflexivity|].
      rewrite Hok. intro E'.
      apply be16_join_inj in E'; try assumption. destruct E' as [_ E']. congruence.
Qed.

(** A status frame whose second text byte, 42, arrives as 0xFF. *)
Lemma corrupted_frame_is_rejected_witness :
  nth 12 (statusOnAir [0; 42; 33]) 0 = 42 /\
  processIncomingPacket awaiting42
    (hearing (firstn 12 (statusOnAir [0; 42; 33])
              ++ 0xFF :: skipn 13 (statusOnAir [0; 42; 33])))
  = inc_crcErrorCount (set_lastReceiveTime awaiting42 (wrap32 100)).
Proof.
  split; [vm_compute; reflexivity|].
  pose (pkt := match fst (receivePacket awaiting42 (hearing (statusOnAir [0; 42; 33]))) with
               | Some p => p
               | None => statusFrame 0
               end).
  apply (corrupted_frame_is_rejected awaiting42 awaiting42
           (hearing (statusOnAir [0; 42; 33]))
           (hearing (firstn 12 (statusOnAir [0; 42; 33])
                     ++ 0xFF :: skipn 13 (statusOnAir [0; 42; 33])))
           (statusOnAir [0; 42; 33])
           (firstn 12 (statusOnAir [0; 42; 33])
            ++ 0xFF :: skipn 13 (statusOnAir [0; 42; 33]))
           12 (-60) 8 (-60) 8 pkt).
  - vm_compute. repeat constructor; discriminate.
  - vm_compute. lia.
  - reflexivity.
  - vm_compute. reflexivity.
  - split; [vm_compute; lia|]. exists 0xFF.
    split; [unfold is_byte; lia|]. split; [vm_compute; discriminate | reflexivity].
  - reflexivity.
Defined.

(** *** What becomes of an incoming frame *)

Lemma checksumOk_frame (body : list Z) (c1 c0 : Z) :
  checksumOk (body ++ [c1; c0])
  = (calculateCRC16 body =? wrap16 (Z.lor (Z.shiftl c1 8) c0)).
Proof.
  unfold checksumOk. rewrite length_app. cbn [length].
  replace (length body + 2 - 2)%nat with (length body) by lia.
  replace (length body + 2 - 1)%nat with (S (length body)) by lia.
  rewrite firstn_app, firstn_all, Nat.sub_diag.
  change (firstn 0 [c1; c0]) with (@nil Z). rewrite app_nil_r.
  rewrite !app_nth2 by lia. rewrite Nat.sub_diag.
  replace (S (length body) - length body)%nat with 1%nat by lia.
  reflexivity.
Qed.

(** X15.  [receivePacket] looks at the first 240 bytes the transceiver holds.
    Fewer than 13 bytes are a receive error; otherwise the frame is accepted
    exactly when its last two bytes are the checksum of the bytes before
    them, and a frame that is not is a checksum error.  Each frame moves at
    most one counter, by one; an accepted frame comes back marked valid with
    the signal readings of the transceiver. *)
Theorem incoming_frame_is_accounted_for (m : LoRaManager) (io : Radio)
  (bytes : list Z) (r s : Z) :
  rx io = Some (bytes, r, s) ->
  is_bytes bytes ->
  let buffer := firstn (Z.to_nat MAX_PACKET_SIZE) bytes in
  let m1 := set_lastReceiveTime m (wrap32 (now_rx io)) in
  if (length buffer <? 13)%nat
  then receivePacket m io = (None, inc_receiveErrorCount m1)
  else if checksumOk buffer
  then exists pkt,
         receivePacket m io = (Some pkt, m1) /\
         valid pkt = true /\ rssi pkt = to_int8 r /\ snr pkt = to_int8 s /\
         type pkt = nth 8 buffer 0 /\
         payload pkt = firstn (length buffer - 13) (skipn 11 buffer)
  else receivePacket m io = (None, inc_crcErrorCount m1).
Proof.
  intros Hrx Hb buffer m1.
  assert (Hbb : is_bytes buffer) by (apply is_bytes_firstn; assumption).
  unfold receivePacket. rewrite Hrx. fold buffer. fold m1. clearbody buffer.
  destruct (Nat.ltb_spec (length buffer) 13) as [Hlt|Hge].
  - unfold deserializePacket, sizeof_PacketHeader.
    replace (length buffer <? 8 + 5)%nat with true
      by (symmetry; apply Nat.ltb_lt; lia).
    reflexivity.
  - destruct (two_last buffer) as (body & c1 & c0 & E); [lia|].
    assert (Hfields : forall pkt,
               deserializePacket buffer (local_packet io) = Some pkt ->
               type pkt = nth 8 buffer 0 /\
               payload pkt = firstn (length buffer - 13) (skipn 11 buffer)).
    { intros pkt Hd. unfold deserializePacket, sizeof_PacketHeader in Hd.
      replace (length buffer <? 8 + 5)%nat with false in Hd
        by (symmetry; apply Nat.ltb_ge; lia).
      injection Hd as <-. cbn [type payload]. split; [reflexivity|].
      f_equal. lia. }
    subst buffer. rewrite checksumOk_frame.
    rewrite length_app in Hge. cbn [length] in Hge.
    apply Forall_app in Hbb. destruct Hbb as [Hbody _].
    destruct (check_of_frame body c1 c0 (local_packet io) Hbody) as (pkt & Hd & Hv);
      [lia|].
    destruct (Hfields pkt Hd) as [Ht Hp].
    rewrite Hd, Hv.
    destruct (calculateCRC16 body =? _); [|reflexivity].
    eexists. split; [reflexivity|]. cbn [valid rssi snr type payload].
    repeat split; assumption.
Qed.

(** The three kinds of frame: two bytes, a status frame as a peer sends it,
    and that frame with its last byte changed. *)
Lemma incoming_frame_is_accounted_for_witness :
  receivePacket awaiting42 (hearing [1; 2])
  = (None, inc_receiveErrorCount (set_lastReceiveTime awaiting42 (wrap32 100))) /\
  checksumOk (statusOnAir [0; 42; 33]) = true /\
  fst (receivePacket awaiting42 (hearing (statusOnAir [0; 42; 33]))) <> None.
Proof.
  split; [|split; [vm_compute; reflexivity|]].
  - apply (incoming_frame_is_accounted_for awaiting42 (hearing [1; 2]) [1; 2] (-60) 8).
    + reflexivity.
    + repeat constructor; unfold is_byte; lia.
  - pose proof (incoming_frame_is_accounted_for awaiting42
                  (hearing (statusOnAir [0; 42; 33])) (statusOnAir [0; 42; 33])
                  (-60) 8 eq_refl) as H.
    assert (Hb : is_bytes (statusOnAir [0; 42; 33]))
      by (vm_compute; repeat constructor; discriminate).
    specialize (H Hb). cbv zeta in H.
    assert (E1 : Nat.ltb
                   (length (firstn (Z.to_nat MAX_PACKET_SIZE) (statusOnAir [0; 42; 33])))
                   13 = false) by (vm_compute; reflexivity).
    assert (E2 : checksumOk (firstn (Z.to_nat MAX_PACKET_SIZE) (statusOnAir [0; 42; 33]))
                 = true) by (vm_compute; reflexivity).
    rewrite E1, E2 in H. destruct H as (pkt & H & _). rewrite H. discriminate.
Defined.

(** *** Acknowledgements *)

Lemma handleAck_found (m : LoRaManager) (ack : Packet) (p : Priority.t) (i : nat) :
  4 <= payloadLength ack ->
  firstAwaited m (payloadSequence ack) p i ->
  handleAck m ack
  = adaptTransmissionSettings (removePacketFromQueue m p i)
      (to_int8 (nth 3 (payload ack) 0)) (snr ack).
Proof.
  intros Hlong Hfirst. unfold handleAck.
  replace (payloadLength ack <? 4) with false
    by (symmetry; apply Z.ltb_ge; assumption).
  rewrite (LoRaFacts.findWaiting_first m _ p i Hfirst). reflexivity.
Qed.

Lemma adaptTransmissionSettings_rest (m : LoRaManager) (rssi snr : Z) :
  counters (adaptTransmissionSettings m rssi snr) = counters m /\
  onAir (adaptTransmissionSettings m rssi snr) = onAir m.
Proof.
  unfold adaptTransmissionSettings, setSpreadingFactor.
  repeat match goal with
         | |- context [if ?b then _ else _] => destruct b
         end; split; reflexivity.
Qed.

(** The adaptation reads the spreading factor only, and its [rssi]
    argument as an [int8_t]. *)
Lemma adapt_sf_ext (m m' : LoRaManager) (rssi snr : Z) :
  currentSpreadingFactor m' = currentSpreadingFactor m ->
  currentSpreadingFactor (adaptTransmissionSettings m' rssi snr)
  = currentSpreadingFactor (adaptTransmissionSettings m rssi snr).
Proof.
  intro E. unfold adaptTransmissionSettings, setSpreadingFactor. rewrite E.
  repeat match goal with
         | |- context [if ?b then _ else _] => destruct b
         end; cbn [snd currentSpreadingFactor set_sf]; try assumption; reflexivity.
Qed.

Lemma adapt_int8 (m : LoRaManager) (rssi snr : Z) :
  adaptTransmissionSettings m (to_int8 rssi) snr
  = adaptTransmissionSettings m rssi snr.
Proof. unfold adaptTransmissionSettings. rewrite to_int8_idem. reflexivity. Qed.

Lemma removed_row (m : LoRaManager) (p : Priority.t) (i : nat) (e : QueuedPacket) :
  nth_error (priorityQueues m p) i = Some e ->
  priorityQueues (removePacketFromQueue m p i) p
  = firstn i (priorityQueues m p) ++ skipn (S i) (priorityQueues m p).
Proof.
  intro Hi. unfold removePacketFromQueue. rewrite LoRaFacts.set_queue_same.
  apply LoRaFacts.removeAt_in_range. apply nth_error_Some. congruence.
Qed.

(** X16.  [handleAck] ignores a frame with fewer than four payload bytes and a
    frame whose sequence number no waiting entry carries.  Otherwise it
    removes the first entry (levels in priority order, each from its head)
    that waits for an acknowledgement of that number, closes the gap in the
    level, leaves the other levels, the counters and the transmit log as
    they were, and adapts the spreading factor to the signal strength in the
    fourth payload byte. *)
Theorem acknowledgement_removes_awaited_entry (m : LoRaManager) (ack : Packet) :
  (payloadLength ack < 4 -> handleAck m ack = m) /\
  ((forall p e, In e (priorityQueues m p) ->
                awaited (payloadSequence ack) e = false) ->
   handleAck m ack = m) /\
  (forall p i,
      4 <= payloadLength ack ->
      firstAwaited m (payloadSequence ack) p i ->
      priorityQueues (handleAck m ack) p
      = firstn i (priorityQueues m p) ++ skipn (S i) (priorityQueues m p) /\
      (forall p', p' <> p ->
                  priorityQueues (handleAck m ack) p' = priorityQueues m p') /\
      counters (handleAck m ack) = counters m /\
      onAir (handleAck m ack) = onAir m /\
      currentSpreadingFactor (handleAck m ack)
      = currentSpreadingFactor
          (adaptTransmissionSettings m (nth 3 (payload ack) 0) (snr ack))).
Proof.
  split; [|split].
  - intro Hshort. unfold handleAck.
    replace (payloadLength ack <? 4) with true
      by (symmetry; apply Z.ltb_lt; assumption).
    reflexivity.
  - intro Hnone. unfold handleAck.
    destruct (payloadLength ack <? 4); [reflexivity|].
    rewrite (LoRaFacts.findWaiting_none m _ Hnone). reflexivity.
  - intros p i Hlong Hfirst.
    rewrite (handleAck_found m ack p i Hlong Hfirst).
    pose proof Hfirst as ((e & Hi & _) & _).
    rewrite LoRaFacts.adaptTransmissionSettings_queues.
    destruct (adaptTransmissionSettings_rest (removePacketFromQueue m p i)
                (to_int8 (nth 3 (payload ack) 0)) (snr ack)) as [Hc Ha].
    rewrite Hc, Ha.
    split; [apply (removed_row m p i e Hi)|].
    split; [intros p' Hp'; apply LoRaFacts.set_queue_other; assumption|].
    split; [reflexivity|]. split; [reflexivity|].
    rewrite adapt_int8. apply adapt_sf_ext. reflexivity.
Qed.

(** The entry with sequence number 42 that waits in [awaiting42] is
    acknowledged. *)
Lemma acknowledgement_removes_awaited_entry_witness :
  priorityQueues
    (handleAck awaiting42
       (mkPacket (repeat 0 12) 0x06 0 [0; 42; 1; 200] 0 (-60) 8 true))
    Priority.STATUS = [].
Proof.
  destruct (acknowledgement_removes_awaited_entry awaiting42
              (mkPacket (repeat 0 12) 0x06 0 [0; 42; 1; 200] 0 (-60) 8 true))
    as (_ & _ & H).
  destruct (H Priority.STATUS 0%nat) as (Hrow & _).
  - vm_compute. discriminate.
  - split; [|split].
    + eexists. split; vm_compute; reflexivity.
    + intros j e Hj. lia.
    + intros p' e Hp' Hin. destruct p'; vm_compute in Hin; try contradiction.
      vm_compute in Hp'. discriminate.
  - rewrite Hrow. vm_compute. reflexivity.
Defined.

Lemma is_byte_land (x : Z) : is_byte (Z.land x 0xFF).
Proof.
  unfold is_byte. rewrite HandlerOpsFacts.low_byte. apply Z.mod_pos_bound. lia.
Qed.

Lemma is_byte_wrap8 (x : Z) : is_byte (wrap8 x).
Proof. unfold is_byte, wrap8. apply Z.mod_pos_bound. lia. Qed.

(** What [receivePacket] returns when the transceiver holds a buffer written
    by [serializePacket]. *)
Lemma receive_serialized (m : LoRaManager) (io : Radio) (pkt : Packet)
  (buffer : list Z) (r s : Z) :
  wf_Packet pkt ->
  (length (payload pkt) <= MAX_SERIALIZED_PAYLOAD)%nat ->
  serializePacket pkt = Some buffer ->
  rx io = Some (buffer, r, s) ->
  receivePacket m io
  = (Some (mkPacket (firstn sizeof_PacketHeader (header pkt)
                     ++ skipn sizeof_PacketHeader (header (local_packet io)))
             (type pkt) (sequenceNumber pkt) (payload pkt)
             (calculatePacketCRC pkt) (to_int8 r) (to_int8 s) true),
     set_lastReceiveTime m (wrap32 (now_rx io))).
Proof.
  intros Hwf Hsize Hser Hrx.
  pose proof (CodecFacts.roundTrip_packet pkt (local_packet io) Hwf Hsize) as Hrt.
  unfold roundTrip in Hrt. rewrite Hser in Hrt.
  unfold receivePacket. rewrite Hrx.
  rewrite firstn_all2 by (apply (CodecFacts.serialized_length pkt); assumption).
  rewrite Hrt. unfold validatePacket.
  rewrite (CodecFacts.crcInput_decoded pkt (local_packet io) Hwf).
  rewrite CodecFacts.calculateCRC16_packet.
  cbn [crc16]. rewrite Z.eqb_refl. reflexivity.
Qed.

Lemma wf_createPacket (t : Z) (bytes hdr : list Z) :
  is_byte t -> is_bytes bytes ->
  length hdr = sizeof_LoRaPacketHeader -> is_bytes hdr ->
  wf_Packet (createPacket t bytes hdr).
Proof.
  intros Ht Hb Hl Hh. unfold wf_Packet, createPacket.
  cbn [header type sequenceNumber payload].
  split; [assumption|]. split; [assumption|]. split; [assumption|].
  split; [lia | assumption].
Qed.

(** X17.  An acknowledgement a peer sends with [sendAck] for sequence number
    [seq], once the transceiver holds its frame, is accepted by
    [receivePacket] and handled as an acknowledgement of [seq]: the first
    entry waiting for that number leaves its level, and the spreading factor
    is adapted to the signal strength the peer put into the frame. *)
Theorem acknowledgement_round_trip (peer m : LoRaManager)
  (seq ackType peerRssi peerSnr : Z) (hdr : list Z) (iop io : Radio) (r s : Z) :
  length hdr = sizeof_LoRaPacketHeader -> is_bytes hdr ->
  tx_ok iop = true ->
  exists buffer,
    onAir (sendAck peer seq ackType peerRssi peerSnr hdr iop) = onAir peer ++ [buffer] /\
    (rx io = Some (buffer, r, s) ->
     forall p i,
       firstAwaited m (wrap16 seq) p i ->
       priorityQueues (processIncomingPacket m io) p
       = firstn i (priorityQueues m p) ++ skipn (S i) (priorityQueues m p) /\
       currentSpreadingFactor (processIncomingPacket m io)
       = currentSpreadingFactor (adaptTransmissionSettings m peerRssi s)).
Proof.
  intros Hl Hh Htx.
  set (pkt := createPacket (PacketType.code PacketType.ACK)
                (ackPayload seq ackType peerRssi) hdr).
  assert (Hwf : wf_Packet pkt).
  { apply wf_createPacket; try assumption.
    - unfold is_byte. cbn. lia.
    - unfold ackPayload.
      repeat constructor; try apply is_byte_land; apply is_byte_wrap8. }
  assert (Hsize : (length (payload pkt) <= MAX_SERIALIZED_PAYLOAD)%nat)
    by (cbn; unfold MAX_SERIALIZED_PAYLOAD; lia).
  destruct (CodecFacts.serialize_layout pkt Hwf Hsize)
    as (a & b & c & d & e & f & g & h & _ & Hser).
  eexists. split.
  - unfold sendAck, transmitPacket. fold pkt. rewrite Hser, Htx. reflexivity.
  - intros Hrx p i Hfirst.
    unfold processIncomingPacket.
    rewrite (receive_serialized m io pkt _ r s Hwf Hsize Hser Hrx).
    cbn [type pkt createPacket]. rewrite Z.eqb_refl.
    set (m1 := set_lastReceiveTime m (wrap32 (now_rx io))).
    set (ack := mkPacket _ _ _ _ _ _ _ _).
    assert (Hseq : payloadSequence ack = wrap16 seq).
    { unfold payloadSequence, ack, ackPayload. cbn [payload nth pkt createPacket].
      apply be16_roundtrip. apply wrap16_range. }
    assert (Hfirst1 : firstAwaited m1 (payloadSequence ack) p i)
      by (rewrite Hseq; exact Hfirst).
    rewrite (handleAck_found m1 ack p i); [|cbn; lia|exact Hfirst1].
    pose proof Hfirst as ((e0 & Hi & _) & _).
    rewrite LoRaFacts.adaptTransmissionSettings_queues.
    split; [apply (removed_row m1 p i e0 Hi)|].
    rewrite adapt_int8.
    unfold ack. cbn [payload pkt createPacket snr].
    change (nth 3 (ackPayload seq ackType peerRssi) 0)
      with (wrap8 (to_int8 peerRssi)).
    rewrite <- (adapt_int8 _ (wrap8 _)), to_int8_wrap8, to_int8_idem, adapt_int8.
    transitivity (currentSpreadingFactor
                    (adaptTransmissionSettings m peerRssi (to_int8 s))).
    + apply adapt_sf_ext. reflexivity.
    + unfold adaptTransmissionSettings, setSpreadingFactor. reflexivity.
Qed.

(** The acknowledgement a peer sends for sequence number 42 reaches
    [awaiting42], whose only entry waits for it. *)
Lemma acknowledgement_round_trip_witness :
  priorityQueues
    (processIncomingPacket awaiting42
       (hearing
          (nth 0 (onAir (sendAck (init 0) 42 1 (-60) 8 (repeat 0 12)
                           (quietRadio 0 true))) [])))
    Priority.STATUS = [].
Proof.
  destruct (acknowledgement_round_trip (init 0) awaiting42 42 1 (-60) 8
              (repeat 0 12) (quietRadio 0 true)
              (hearing
                 (nth 0 (onAir (sendAck (init 0) 42 1 (-60) 8 (repeat 0 12)
                                  (quietRadio 0 true))) []))
              (-60) 8) as (buffer & Hair & Hrecv).
  - reflexivity.
  - repeat constructor; unfold is_byte; lia.
  - reflexivity.
  - rewrite Hair in *. cbn [onAir init app nth] in *.
    destruct (Hrecv eq_refl Priority.STATUS 0%nat) as [Hrow _].
    + split; [|split].
      * eexists. split; vm_compute; reflexivity.
      * intros j e Hj. lia.
      * intros p' e Hp' Hin. destruct p'; vm_compute in Hin; try contradiction.
        vm_compute in Hp'. discriminate.
    + rewrite Hrow. vm_compute. reflexivity.
Defined.

(** *** Negative acknowledgements *)

Lemma processQueue_mute (m : LoRaManager) (io : Radio) :
  processQueue m io = processQueue (processIncomingPacket m io) (mute io).
Proof.
  unfold processQueue at 2.
  rewrite (LoRaFacts.processIncomingPacket_silent _ (mute io)) by reflexivity.
  reflexivity.
Qed.

Lemma receivePacket_accepted (m m1 : LoRaManager) (io : Radio) (pkt : Packet) :
  receivePacket m io = (Some pkt, m1) ->
  m1 = set_lastReceiveTime m (wrap32 (now_rx io)).
Proof.
  unfold receivePacket.
  destruct (rx io) as [[[bytes r] s]|]; [|discriminate].
  destruct (deserializePacket _ _) as [p|]; [|discriminate].
  destruct (validatePacket p); [|discriminate].
  intro H. injection H as _ <-. reflexivity.
Qed.

(** X18.  A negative acknowledgement for the packet at the head of the queues
    makes the same call of [processQueue] send that packet again, without
    waiting for the acknowledgement timeout; the transmission counts as an
    attempt.  If the packet has used up its attempts the call removes it
    instead and counts a transmit error. *)
Theorem nack_triggers_retransmission (m m1 : LoRaManager) (io : Radio)
  (nack : Packet) (row : Priority.t) (e : QueuedPacket) (rest : list QueuedPacket)
  (buffer : list Z) :
  receivePacket m io = (Some nack, m1) ->
  type nack = PacketType.code PacketType.NACK ->
  3 <= payloadLength nack ->
  priorityQueues m row = e :: rest ->
  (forall p', Priority.code p' < Priority.code row -> priorityQueues m p' = []) ->
  waitingForAck e = true ->
  sequenceNumber (packet e) = payloadSequence nack ->
  serializePacket (packet e) = Some buffer ->
  tx_ok io = true ->
  (transmitAttempts e < MAX_RETRIES ->
   exists m',
     processQueue m io = (true, m') /\
     priorityQueues m' row
     = mkQueued (packet e) (priority e) (enqueueTime e)
         (wrap8 (transmitAttempts e + 1)) (wrap32 (now_tx io)) true :: rest /\
     onAir m' = onAir m ++ [buffer]) /\
  (MAX_RETRIES <= transmitAttempts e -> priority e = row ->
   exists m',
     processQueue m io = (false, m') /\
     priorityQueues m' row = rest /\
     onAir m' = onAir m /\
     transmitErrorCount m' = wrap32 (transmitErrorCount m + 1)).
Proof.
  intros Hrecv Htype Hlong Hrow Hfirst Hwait Hseq Hser Htx.
  pose proof (receivePacket_accepted m m1 io nack Hrecv) as ->.
  set (m1 := set_lastReceiveTime m (wrap32 (now_rx io))) in *.
  set (e' := set_waitingForAck e false).
  assert (Hin : processIncomingPacket m io = set_queue m1 row (e' :: rest)).
  { unfold processIncomingPacket. rewrite Hrecv, Htype. cbn [Z.eqb PacketType.code].
    unfold handleNack.
    replace (payloadLength nack <? 3) with false
      by (symmetry; apply Z.ltb_ge; assumption).
    assert (Hfa : firstAwaited m1 (payloadSequence nack) row 0).
    { split; [|split].
      - exists e. change (priorityQueues m1 row) with (priorityQueues m row).
        rewrite Hrow. split; [reflexivity|].
        unfold awaited. rewrite Hseq, Z.eqb_refl, Hwait. reflexivity.
      - intros j x Hj. lia.
      - intros p' x Hp'. change (priorityQueues m1 p') with (priorityQueues m p').
        rewrite (Hfirst p' Hp'). intros []. }
    rewrite (LoRaFacts.findWaiting_first m1 _ row 0 Hfa).
    change (priorityQueues m1 row) with (priorityQueues m row).
    rewrite Hrow. reflexivity. }
  rewrite processQueue_mute, Hin.
  set (m2 := set_queue m1 row (e' :: rest)).
  assert (Hrow2 : priorityQueues m2 row = e' :: rest)
    by apply LoRaFacts.set_queue_same.
  assert (Hfirst2 : forall p', Priority.code p' < Priority.code row ->
                               priorityQueues m2 p' = []).
  { intros p' Hp'. unfold m2. rewrite LoRaFacts.set_queue_other.
    - apply (Hfirst p' Hp').
    - intros ->. lia. }
  assert (Hmute : silent (mute io)) by reflexivity.
  split.
  - intro Hatt.
    destruct (LoRaFacts.tick_transmits m2 (mute io) row e' rest Hrow2 Hfirst2 Hmute
                buffer) as (m' & Hp & Hq & _ & Ha & _);
      [reflexivity | exact Hatt | exact Hser | exact Htx |].
    exists m'. split; [exact Hp|]. split; [exact Hq | exact Ha].
  - intros Hatt Hprio.
    destruct (LoRaFacts.tick_drops m2 (mute io) row e' rest Hrow2 Hfirst2 Hmute)
      as (m' & Hp & Hq & _ & Ha & He);
      [reflexivity | exact Hatt | exact Hprio |].
    exists m'. split; [exact Hp|]. split; [exact Hq|]. split; [exact Ha | exact He].
Qed.

(** The frame with sequence bytes 0, 42 reaches [awaiting42] ninety
    milliseconds after the transmission: the packet goes out a second time. *)
Lemma nack_triggers_retransmission_witness :
  exists m',
    processQueue awaiting42 (hearing (statusOnAir [0; 42; 33])) = (true, m') /\
    map transmitAttempts (priorityQueues m' Priority.STATUS) = [2] /\
    onAir m' = [status42Buffer; status42Buffer].
Proof.
  pose (io := hearing (statusOnAir [0; 42; 33])).
  pose (nack := match fst (receivePacket awaiting42 io) with
                | Some p => p
                | None => statusFrame 0
                end).
  destruct (nack_triggers_retransmission awaiting42 (snd (receivePacket awaiting42 io))
              io nack Priority.STATUS
              (mkQueued (statusFrame 42) Priority.STATUS 0 1 10 true) []
              status42Buffer) as [H _].
  - vm_compute. reflexivity.
  - vm_compute. reflexivity.
  - vm_compute. discriminate.
  - vm_compute. reflexivity.
  - intros p' Hp'. destruct p'; try (vm_compute; reflexivity).
    vm_compute in Hp'. discriminate.
  - reflexivity.
  - vm_compute. reflexivity.
  - vm_compute. reflexivity.
  - reflexivity.
  - destruct H as (m' & Hp & Hq & Ha); [vm_compute; reflexivity|].
    exists m'. split; [exact Hp|]. rewrite Hq, Ha.
    split; vm_compute; reflexivity.
Defined.

(** *** Attempt counters *)

Lemma entries_ok_ext (m m' : LoRaManager) :
  priorityQueues m' = priorityQueues m -> entries_ok m -> entries_ok m'.
Proof. intros E H p e. rewrite E. apply H. Qed.

Lemma entries_ok_set_queue (m : LoRaManager) (p : Priority.t) (q : list QueuedPacket) :
  entries_ok m -> (forall e, In e q -> attempts_ok e) -> entries_ok (set_queue m p q).
Proof.
  intros Hm Hq p' e.
  destruct (Priority.eqb p' p) eqn:E;
    [apply PriorityFacts.eqb_eq in E | apply PriorityFacts.eqb_neq in E].
  - subst p'. rewrite LoRaFacts.set_queue_same. apply Hq.
  - rewrite LoRaFacts.set_queue_other by assumption. apply Hm.
Qed.

Lemma attempts_ok_idle (e : QueuedPacket) :
  attempts_ok e -> attempts_ok (set_waitingForAck e false).
Proof.
  intros [H _]. split; [exact H|]. cbn. discriminate.
Qed.

Lemma attempts_ok_transmitted (e : QueuedPacket) (now : Z) :
  attempts_ok e -> transmitAttempts e < MAX_RETRIES ->
  attempts_ok (mark_transmitted e now).
Proof.
  unfold attempts_ok, mark_transmitted, MAX_RETRIES, wrap8.
  intros [H _] Hlt. cbn [transmitAttempts waitingForAck].
  rewrite Z.mod_small by lia. lia.
Qed.

Lemma entries_ok_addToQueueInternal (m : LoRaManager) (e : QueuedPacket) :
  entries_ok m -> attempts_ok e -> entries_ok (addToQueueInternal m e).
Proof.
  intros Hm He. unfold addToQueueInternal.
  destruct (_ <? _)%nat; apply entries_ok_set_queue; try assumption;
    intros x Hx; apply in_app_or in Hx; destruct Hx as [Hx|[<-|[]]];
    try assumption.
  - apply (Hm _ _ Hx).
  - apply LoRaFacts.In_firstn, LoRaFacts.In_skipn in Hx. apply (Hm _ _ Hx).
Qed.

Lemma entries_ok_removePacketFromQueue (m : LoRaManager) (p : Priority.t) (i : nat) :
  entries_ok m -> entries_ok (removePacketFromQueue m p i).
Proof.
  intro Hm. apply entries_ok_set_queue; [assumption|].
  intros e He. apply LoRaFacts.In_removeAt in He. apply (Hm _ _ He).
Qed.

Lemma entries_ok_store (m : LoRaManager) (p : Priority.t) (i : nat) (e : QueuedPacket) :
  entries_ok m -> attempts_ok e ->
  entries_ok (set_queue m p (store_at i e (priorityQueues m p))).
Proof.
  intros Hm He. apply entries_ok_set_queue; [assumption|].
  intros x Hx. destruct (LoRaFacts.In_store_at _ _ _ _ Hx) as [->|Hin];
    [assumption | apply (Hm _ _ Hin)].
Qed.

Lemma entries_ok_handleAck (m : LoRaManager) (ack : Packet) :
  entries_ok m -> entries_ok (handleAck m ack).
Proof.
  intro Hm. unfold handleAck.
  destruct (payloadLength ack <? 4); [assumption|].
  destruct (findWaiting _ _ _) as [[p i]|]; [|assumption].
  apply (entries_ok_ext (removePacketFromQueue m p i)).
  - apply LoRaFacts.adaptTransmissionSettings_queues.
  - apply entries_ok_removePacketFromQueue. assumption.
Qed.

Lemma entries_ok_handleNack (m : LoRaManager) (nack : Packet) :
  entries_ok m -> entries_ok (handleNack m nack).
Proof.
  intro Hm. unfold handleNack.
  destruct (payloadLength nack <? 3); [assumption|].
  destruct (findWaiting _ _ _) as [[p i]|]; [|assumption].
  destruct (nth_error (priorityQueues m p) i) as [qp|] eqn:E; [|assumption].
  apply entries_ok_store; [assumption|].
  apply attempts_ok_idle. apply (Hm p). apply (nth_error_In _ i). assumption.
Qed.

Lemma entries_ok_processIncomingPacket (m : LoRaManager) (io : Radio) :
  entries_ok m -> entries_ok (processIncomingPacket m io).
Proof.
  intro Hm. unfold processIncomingPacket.
  pose proof (LoRaFacts.receivePacket_queues m io) as Hq.
  destruct (receivePacket m io) as [[pkt|] m1]; cbn [snd] in Hq.
  - pose proof (entries_ok_ext m m1 Hq Hm) as Hm1.
    destruct (type pkt =? _); [apply entries_ok_handleAck; assumption|].
    destruct (type pkt =? _); [apply entries_ok_handleNack; assumption|].
    assumption.
  - apply (entries_ok_ext m m1 Hq Hm).
Qed.

Lemma entries_ok_processQueue (m : LoRaManager) (io : Radio) :
  entries_ok m -> entries_ok (snd (processQueue m io)).
Proof.
  intro Hm0. unfold processQueue.
  pose proof (entries_ok_processIncomingPacket m io Hm0) as Hm.
  set (m1 := processIncomingPacket m io) in *. clearbody m1.
  destruct (getNextPacket m1) as [[row e]|] eqn:Hnext; [|assumption].
  destruct (LoRaFacts.getNextPacket_head m1 row e Hnext) as [[rest Hrow] _].
  assert (He : attempts_ok e) by (apply (Hm row); rewrite Hrow; left; reflexivity).
  destruct (waitingForAck e && negb (ackTimedOut (now_check io) e));
    [assumption|].
  assert (Hgen : forall (e1 : QueuedPacket) (m2 : LoRaManager),
             entries_ok m2 -> attempts_ok e1 ->
             entries_ok
               (snd
                  (if transmitAttempts e1 >=? MAX_RETRIES
                   then
                     (false,
                      inc_transmitErrorCount
                        (removePacketFromQueue m2 (priority e1) 0))
                   else
                     match transmitPacket m2 (packet e1) io with
                     | (true, m3) =>
                         (true,
                          set_transmit
                            (set_queue m3 row
                               (store_at 0 (mark_transmitted e1 (now_tx io))
                                  (priorityQueues m3 row)))
                            true (wrap32 (now_start io)))
                     | (false, m3) => (false, inc_transmitErrorCount m3)
                     end))).
  { intros e1 m2 Hm2 He1.
    destruct (Z.geb_spec (transmitAttempts e1) MAX_RETRIES) as [Hge|Hlt].
    - cbn [snd]. apply (entries_ok_ext (removePacketFromQueue m2 (priority e1) 0));
        [reflexivity|].
      apply entries_ok_removePacketFromQueue. assumption.
    - pose proof (LoRaFacts.transmitPacket_queues m2 (packet e1) io) as Hq.
      destruct (transmitPacket m2 (packet e1) io) as [[|] m3]; cbn [snd] in *.
      + pose proof (entries_ok_ext m2 m3 Hq Hm2) as Hm3.
        apply (entries_ok_ext
                 (set_queue m3 row
                    (store_at 0 (mark_transmitted e1 (now_tx io))
                       (priorityQueues m3 row)))); [reflexivity|].
        apply entries_ok_store; [assumption|].
        apply attempts_ok_transmitted; assumption.
      + apply (entries_ok_ext m3); [reflexivity|].
        apply (entries_ok_ext m2 m3 Hq Hm2). }
  destruct (waitingForAck e).
  - apply Hgen; [|apply attempts_ok_idle; assumption].
    apply (entries_ok_ext
             (set_queue m1 row
                (store_at 0 (set_waitingForAck e false) (priorityQueues m1 row))));
      [reflexivity|].
    apply entries_ok_store; [assumption | apply attempts_ok_idle; assumption].
  - apply Hgen; assumption.
Qed.

(** X19.  In every state the manager reaches, every queued entry has been
    transmitted at most [MAX_RETRIES] times, and an entry that waits for an
    acknowledgement has been transmitted at least once. *)
Theorem attempts_never_exceed_limit (m : LoRaManager) (p : Priority.t)
  (e : QueuedPacket) :
  reachable m -> In e (priorityQueues m p) ->
  0 <= transmitAttempts e <= MAX_RETRIES /\
  (waitingForAck e = true -> 1 <= transmitAttempts e).
Proof.
  intros Hr. revert p e.
  change (entries_ok m).
  induction Hr as [seed | m pkt prio now _ IH | m io _ IH | m ack _ IH | m nack _ IH].
  - intros p e [].
  - cbn [sendPacket snd]. apply entries_ok_addToQueueInternal; [assumption|].
    split; cbn; [unfold MAX_RETRIES; lia | discriminate].
  - apply entries_ok_processQueue. assumption.
  - apply entries_ok_handleAck. assumption.
  - apply entries_ok_handleNack. assumption.
Qed.

Lemma awaiting42_reachable : reachable awaiting42.
Proof.
  unfold awaiting42, status42Queued.
  apply reach_processQueue, reach_sendPacket, reach_init.
Qed.

Lemma attempts_never_exceed_limit_witness :
  0 <= 1 <= MAX_RETRIES /\ (true = true -> 1 <= 1).
Proof.
  apply (attempts_never_exceed_limit awaiting42 Priority.STATUS
           (mkQueued (statusFrame 42) Priority.STATUS 0 1 10 true)).
  - apply awaiting42_reachable.
  - vm_compute. left. reflexivity.
Defined.

(** *** Queue sizes *)

(** X20.  In every state the manager reaches no level holds more than ten entries
    and [getTotalQueueSize], the sum over the five levels, is at most 50. *)
Theorem queue_sizes_are_bounded (m : LoRaManager) :
  reachable m ->
  (forall p, 0 <= getQueueSize m p <= Z.of_nat MAX_QUEUE_SIZE) /\
  getTotalQueueSize m
  = getQueueSize m Priority.EMERGENCY + getQueueSize m Priority.GPS
    + getQueueSize m Priority.TELEMETRY + getQueueSize m Priority.CAMERA
    + getQueueSize m Priority.STATUS /\
  0 <= getTotalQueueSize m <= 50.
Proof.
  intro Hr. destruct (LoRaFacts.reachable_rows_consistent m Hr) as [_ Hb].
  assert (Hp : forall p, 0 <= getQueueSize m p <= Z.of_nat MAX_QUEUE_SIZE).
  { intro p. unfold getQueueSize. specialize (Hb p). lia. }
  split; [exact Hp|].
  assert (Ht : getTotalQueueSize m
               = getQueueSize m Priority.EMERGENCY + getQueueSize m Priority.GPS
                 + getQueueSize m Priority.TELEMETRY + getQueueSize m Priority.CAMERA
                 + getQueueSize m Priority.STATUS) by reflexivity.
  split; [exact Ht|]. rewrite Ht.
  pose proof (Hp Priority.EMERGENCY). pose proof (Hp Priority.GPS).
  pose proof (Hp Priority.TELEMETRY). pose proof (Hp Priority.CAMERA).
  pose proof (Hp Priority.STATUS). unfold MAX_QUEUE_SIZE in *. lia.
Qed.

Lemma fullStatusRow_reachable : reachable fullStatusRow.
Proof.
  unfold fullStatusRow. cbn [fold_left]. repeat apply reach_sendPacket.
  apply reach_init.
Qed.

Lemma queue_sizes_are_bounded_witness :
  getQueueSize fullStatusRow Priority.STATUS = 10 /\
  0 <= getTotalQueueSize fullStatusRow <= 50.
Proof.
  split; [vm_compute; reflexivity|].
  apply (queue_sizes_are_bounded fullStatusRow fullStatusRow_reachable).
Defined.

(** X21.  After [clearQueue] the manager holds nothing: the sizes are 0, there is
    no next packet, a tick on which nothing is received transmits nothing
    and changes nothing, and acknowledgements that arrive for packets
    transmitted before are ignored.  The counters and the transmit log are
    not reset. *)
Theorem clearQueue_forgets_everything (m : LoRaManager) :
  getTotalQueueSize (clearQueue m) = 0 /\
  (forall p, getQueueSize (clearQueue m) p = 0) /\
  getNextPacket (clearQueue m) = None /\
  (forall io, silent io -> processQueue (clearQueue m) io = (false, clearQueue m)) /\
  (forall ack, handleAck (clearQueue m) ack = clearQueue m) /\
  (forall nack, handleNack (clearQueue m) nack = clearQueue m) /\
  counters (clearQueue m) = counters m /\
  onAir (clearQueue m) = onAir m.
Proof.
  split; [reflexivity|]. split; [reflexivity|]. split; [reflexivity|].
  split; [|split; [|split; [|split; reflexivity]]].
  - intros io Hio. unfold processQueue.
    rewrite (LoRaFacts.processIncomingPacket_silent _ io Hio). reflexivity.
  - intro ack. unfold handleAck. destruct (payloadLength ack <? 4); reflexivity.
  - intro nack. unfold handleNack. destruct (payloadLength nack <? 3); reflexivity.
Qed.

(** *** Adaptation to a weak signal *)

Lemma adapt_weak_signal (m : LoRaManager) (rssi snr : Z) :
  7 <= currentSpreadingFactor m <= 12 ->
  to_int8 rssi < ADAPTIVE_SF_LOW_THRESHOLD ->
  currentSpreadingFactor (adaptTransmissionSettings m rssi snr)
  = Z.min 12 (currentSpreadingFactor m + 1).
Proof.
  intros H Hr. rewrite LoRaFacts.adapt_cases by assumption.
  replace (to_int8 rssi >? ADAPTIVE_SF_HIGH_THRESHOLD) with false
    by (symmetry; rewrite Z.gtb_ltb; apply Z.ltb_ge;
        unfold ADAPTIVE_SF_LOW_THRESHOLD, ADAPTIVE_SF_HIGH_THRESHOLD in *; lia).
  replace (to_int8 rssi <? ADAPTIVE_SF_LOW_THRESHOLD) with true
    by (symmetry; apply Z.ltb_lt; assumption).
  cbn [andb].
  destruct (Z.ltb_spec (currentSpreadingFactor m) 12); lia.
Qed.

Lemma adapt_steady_signal (m : LoRaManager) (rssi snr : Z) :
  ADAPTIVE_SF_LOW_THRESHOLD <= to_int8 rssi <= ADAPTIVE_SF_HIGH_THRESHOLD ->
  adaptTransmissionSettings m rssi snr = m.
Proof.
  intro Hr. unfold adaptTransmissionSettings.
  replace (to_int8 rssi >? ADAPTIVE_SF_HIGH_THRESHOLD) with false
    by (symmetry; rewrite Z.gtb_ltb; apply Z.ltb_ge; lia).
  replace (to_int8 rssi <? ADAPTIVE_SF_LOW_THRESHOLD) with false
    by (symmetry; apply Z.ltb_ge; lia).
  reflexivity.
Qed.

(** X22.  From a spreading factor in [7, 12]: if every [rssi] handed to
    [adaptTransmissionSettings] (as the [int8_t] the method receives) is
    below the low threshold, the factor after [n] calls is the smaller of 12
    and the start value plus [n]; and if every [rssi] lies between the two
    thresholds, these included, the calls change nothing at all. *)
Theorem weak_signal_raises_spreading_factor (m : LoRaManager)
  (samples : list (Z * Z)) :
  7 <= currentSpreadingFactor m <= 12 ->
  (Forall (fun s => to_int8 (fst s) < ADAPTIVE_SF_LOW_THRESHOLD) samples ->
   currentSpreadingFactor (adaptAll m samples)
   = Z.min 12 (currentSpreadingFactor m + Z.of_nat (length samples))) /\
  (Forall (fun s => ADAPTIVE_SF_LOW_THRESHOLD <= to_int8 (fst s)
                    <= ADAPTIVE_SF_HIGH_THRESHOLD) samples ->
   adaptAll m samples = m).
Proof.
  revert m. induction samples as [|[rssi snr] samples IH]; intros m H.
  - cbn. split; intros _; [lia | reflexivity].
  - cbn [adaptAll fold_left fst snd]. split.
    + intro HF. inversion HF as [|s l Hs Hl]; subst. cbn [fst] in Hs.
      pose proof (LoRaFacts.adapt_range m rssi snr H) as Hr.
      destruct (IH (adaptTransmissionSettings m rssi snr) Hr) as [IH1 _].
      unfold adaptAll in IH1. rewrite (IH1 Hl).
      rewrite (adapt_weak_signal m rssi snr H Hs).
      cbn [length]. lia.
    + intro HF. inversion HF as [|s l Hs Hl]; subst. cbn [fst] in Hs.
      rewrite (adapt_steady_signal m rssi snr Hs).
      destruct (IH m H) as [_ IH2]. apply (IH2 Hl).
Qed.

(** Four weak samples from spreading factor 10: the factor ends at 12. *)
Lemma weak_signal_raises_spreading_factor_witness :
  currentSpreadingFactor (adaptAll (set_sf (init 0) 10 10) (repeat (-120, 5) 4)) = 12.
Proof.
  destruct (weak_signal_raises_spreading_factor
              (set_sf (init 0) 10 10) (repeat (-120, 5) 4)) as [H _].
  - cbn. lia.
  - rewrite H; [reflexivity|]. repeat constructor.
Defined.

(** *** Signal averages *)

Lemma sumCount_spec (history : list Z) (sum count : Z) :
  sumCount history sum count = (sum + total history, count + nonzero history).
Proof.
  revert sum count. induction history as [|v h IH]; intros sum count.
  - cbn. f_equal; lia.
  - unfold total, nonzero in *. cbn [sumCount fold_right].
    destruct (Z.eqb_spec v 0) as [->|Hv]; rewrite IH; f_equal; lia.
Qed.

Lemma average_spec (history : list Z) :
  average history
  = if nonzero history >? 0
    then to_int8 (Z.quot (total history) (nonzero history))
    else to_int8 (-128).
Proof. unfold average. rewrite sumCount_spec. reflexivity. Qed.

Lemma total_app (a b : list Z) : total (a ++ b) = total a + total b.
Proof.
  unfold total. induction a as [|x a IH]; cbn [app fold_right]; [reflexivity|].
  rewrite IH. lia.
Qed.

Lemma nonzero_app (a b : list Z) : nonzero (a ++ b) = nonzero a + nonzero b.
Proof.
  unfold nonzero. induction a as [|x a IH]; cbn [app fold_right]; [reflexivity|].
  rewrite IH. lia.
Qed.

Lemma nonzero_nonneg (h : list Z) : 0 <= nonzero h.
Proof.
  unfold nonzero. induction h as [|v h IH]; cbn [fold_right]; [lia|].
  destruct (v =? 0); lia.
Qed.

Lemma nonzero_pos (h : list Z) : Exists (fun v => v <> 0) h -> 0 < nonzero h.
Proof.
  induction 1 as [v h Hv|v h _ IH].
  - pose proof (nonzero_nonneg h) as Hh. unfold nonzero in *. cbn [fold_right].
    destruct (Z.eqb_spec v 0); [contradiction | lia].
  - unfold nonzero in *. cbn [fold_right]. destruct (v =? 0); lia.
Qed.

Lemma total_between (lo hi : Z) (h : list Z) :
  Forall (fun v => v = 0 \/ lo <= v <= hi) h ->
  nonzero h * lo <= total h <= nonzero h * hi.
Proof.
  induction 1 as [|v h Hv _ IH]; unfold total, nonzero in *; cbn [fold_right];
    [lia|].
  destruct (Z.eqb_spec v 0) as [->|Hne]; [lia|].
  destruct Hv as [Hv|Hv]; [contradiction | lia].
Qed.

Lemma quot_between (t n lo hi : Z) :
  0 < n -> n * lo <= t <= n * hi -> lo <= Z.quot t n <= hi.
Proof.
  intros Hn Ht.
  pose proof (Z.quot_rem' t n) as E.
  pose proof (Z.rem_bound_abs t n ltac:(lia)) as Hr.
  assert (Hr' : - n < Z.rem t n < n) by lia.
  nia.
Qed.

(** X23.  [getAverageRSSI] and [getAverageSNR] return -128 for a history with no
    reading in it; a reading of 0 counts as no reading, wherever it stands;
    and when there is a reading other than 0 the result lies between the
    smallest and the largest of them. *)
Theorem average_of_history (history : list Z) (lo hi : Z) :
  (Forall (fun v => v = 0) history -> average history = -128) /\
  (forall pre post, average (pre ++ 0 :: post) = average (pre ++ post)) /\
  (-128 <= lo -> hi <= 127 ->
   Forall (fun v => v = 0 \/ lo <= v <= hi) history ->
   Exists (fun v => v <> 0) history ->
   lo <= average history <= hi).
Proof.
  split; [|split].
  - intro H. rewrite average_spec.
    assert (E : nonzero history = 0).
    { induction H as [|v h Hv _ IH]; [reflexivity|].
      unfold nonzero in *. cbn [fold_right]. subst v. rewrite IH. reflexivity. }
    rewrite E. reflexivity.
  - intros pre post. rewrite !average_spec, !total_app, !nonzero_app.
    unfold total at 2 4. unfold nonzero at 2 4. cbn [fold_right Z.eqb].
    fold (total post). fold (nonzero post). rewrite !Z.add_0_l. reflexivity.
  - intros Hlo Hhi Hall Hex. rewrite average_spec.
    pose proof (nonzero_pos history Hex) as Hpos.
    pose proof (total_between lo hi history Hall) as Ht.
    replace (nonzero history >? 0) with true
      by (symmetry; rewrite Z.gtb_ltb; apply Z.ltb_lt; assumption).
    assert (Hq : lo <= Z.quot (total history) (nonzero history) <= hi)
      by (apply quot_between; lia).
    rewrite to_int8_small; lia.
Qed.

Lemma average_of_history_witness :
  -90 <= average [-90; 0; -71; 0; 0; 0; 0; 0; 0; 0] <= -71.
Proof.
  destruct (average_of_history [-90; 0; -71; 0; 0; 0; 0; 0; 0; 0] (-90) (-71))
    as (_ & _ & H).
  apply H.
  - lia.
  - lia.
  - repeat constructor; lia.
  - left. lia.
Defined.

Lemma length_put (i : nat) (v : Z) (h : list Z) : length (put i v h) = length h.
Proof.
  revert i. induction h as [|x h IH]; intros [|i]; cbn; try reflexivity.
  rewrite IH. reflexivity.
Qed.

Lemma signal_ok_update (s : SignalQuality) (r q : Z) :
  signal_ok s -> signal_ok (updateSignalQuality s r q).
Proof.
  unfold signal_ok, updateSignalQuality, RSSI_HISTORY_SIZE.
  intros (H1 & H2 & H3 & H4).
  cbn [rssiHistory snrHistory rssiIndex snrIndex].
  rewrite !length_put, !Z.rem_mod_nonneg by lia.
  repeat split; try assumption; apply Z.mod_pos_bound; lia.
Qed.

Lemma signal_ok_updateAll (l : list (Z * Z)) (s : SignalQuality) :
  signal_ok s -> signal_ok (updateAll s l).
Proof.
  revert s. induction l as [|x l IH]; intros s H; [assumption|].
  cbn [updateAll fold_left]. apply IH. apply signal_ok_update. assumption.
Qed.

Lemma updateAll_app (s : SignalQuality) (a b : list (Z * Z)) :
  updateAll s (a ++ b) = updateAll (updateAll s a) b.
Proof. apply fold_left_app. Qed.

Ltac ten_cases H :=
  match type of H with
  | 0 <= ?i < _ =>
      assert (i = 0 \/ i = 1 \/ i = 2 \/ i = 3 \/ i = 4 \/ i = 5 \/ i = 6 \/ i = 7
              \/ i = 8 \/ i = 9) as Hcases by (unfold RSSI_HISTORY_SIZE in H; lia);
      clear H;
      destruct Hcases as [->|[->|[->|[->|[->|[->|[->|[->|[->| ->]]]]]]]]]
  end.

(** The two histories after ten calls of [updateSignalQuality]: the ten
    readings, whatever the histories held and wherever the write positions
    stood. *)
Lemma window_rssi (s : SignalQuality) (l : list (Z * Z)) :
  length (rssiHistory s) = RSSI_HISTORY_SIZE ->
  0 <= rssiIndex s < Z.of_nat RSSI_HISTORY_SIZE ->
  length l = RSSI_HISTORY_SIZE ->
  total (rssiHistory (updateAll s l)) = total (map (fun x => to_int8 (fst x)) l) /\
  nonzero (rssiHistory (updateAll s l)) = nonzero (map (fun x => to_int8 (fst x)) l).
Proof.
  destruct s as [rh sh ri si lr ls]. cbn [rssiHistory rssiIndex].
  unfold RSSI_HISTORY_SIZE at 1 3. intros Hr Hi Hl.
  do 10 (destruct rh as [|? rh]; [discriminate Hr|]).
  destruct rh; [|discriminate Hr].
  do 10 (destruct l as [|[? ?] l]; [discriminate Hl|]).
  destruct l; [|discriminate Hl].
  clear Hr Hl.
  unfold updateAll, updateSignalQuality, total, nonzero.
  generalize to_int8. intro f.
  ten_cases Hi; cbn; cbv [Pos.to_nat Pos.iter_op Nat.add]; cbn [put fold_right];
    split; ring.
Qed.

Lemma window_snr (s : SignalQuality) (l : list (Z * Z)) :
  length (snrHistory s) = RSSI_HISTORY_SIZE ->
  0 <= snrIndex s < Z.of_nat RSSI_HISTORY_SIZE ->
  length l = RSSI_HISTORY_SIZE ->
  total (snrHistory (updateAll s l)) = total (map (fun x => to_int8 (snd x)) l) /\
  nonzero (snrHistory (updateAll s l)) = nonzero (map (fun x => to_int8 (snd x)) l).
Proof.
  destruct s as [rh sh ri si lr ls]. cbn [snrHistory snrIndex].
  unfold RSSI_HISTORY_SIZE at 1 3. intros Hr Hi Hl.
  do 10 (destruct sh as [|? sh]; [discriminate Hr|]).
  destruct sh; [|discriminate Hr].
  do 10 (destruct l as [|[? ?] l]; [discriminate Hl|]).
  destruct l; [|discriminate Hl].
  clear Hr Hl.
  unfold updateAll, updateSignalQuality, total, nonzero.
  generalize to_int8. intro f.
  ten_cases Hi; cbn; cbv [Pos.to_nat Pos.iter_op Nat.add]; cbn [put fold_right];
    split; ring.
Qed.

(** X24.  Once ten readings have come in after any earlier ones,
    [getAverageRSSI] and [getAverageSNR] are the averages of exactly these
    ten: the histories are rings of ten slots, and what was written before
    has been overwritten. *)
Theorem averages_cover_last_ten_readings (s : SignalQuality)
  (earlier latest : list (Z * Z)) :
  signal_ok s ->
  length latest = RSSI_HISTORY_SIZE ->
  signal_ok (updateAll s (earlier ++ latest)) /\
  getAverageRSSI (updateAll s (earlier ++ latest))
  = average (map (fun x => to_int8 (fst x)) latest) /\
  getAverageSNR (updateAll s (earlier ++ latest))
  = average (map (fun x => to_int8 (snd x)) latest).
Proof.
  intros Hs Hl.
  split; [apply signal_ok_updateAll; assumption|].
  rewrite updateAll_app.
  destruct (signal_ok_updateAll earlier s Hs) as (H1 & H2 & H3 & H4).
  unfold getAverageRSSI, getAverageSNR. rewrite !average_spec.
  destruct (window_rssi (updateAll s earlier) latest H1 H3 Hl) as [-> ->].
  destruct (window_snr (updateAll s earlier) latest H2 H4 Hl) as [-> ->].
  split; reflexivity.
Qed.

(** Three readings of -50 dBm followed by ten of -70 dBm: the average is
    -70. *)
Lemma averages_cover_last_ten_readings_witness :
  getAverageRSSI (updateAll signal_init (repeat (-50, 3) 3 ++ repeat (-70, 5) 10))
  = -70.
Proof.
  destruct (averages_cover_last_ten_readings signal_init
              (repeat (-50, 3) 3) (repeat (-70, 5) 10)) as (_ & H & _).
  - unfold signal_ok, signal_init, RSSI_HISTORY_SIZE. cbn. lia.
  - reflexivity.
  - rewrite H. vm_compute. reflexivity.
Defined.


(** *** Packets too large for a frame *)

Lemma serializePacket_oversized (pkt : Packet) :
  (MAX_SERIALIZED_PAYLOAD < length (payload pkt))%nat ->
  serializePacket pkt = None.
Proof.
  unfold serializePacket, payloadLength, MAX_SERIALIZED_PAYLOAD, MAX_PACKET_SIZE,
    sizeof_PacketHeader.
  intro H.
  replace (Z.of_nat 8 + 1 + 2 + Z.of_nat (length (payload pkt)) + 2 >? 240)
    with true; [reflexivity|].
  symmetry. rewrite Z.gtb_ltb. apply Z.ltb_lt. lia.
Qed.

Lemma processQueue_unserializable (m : LoRaManager) (io : Radio)
  (row : Priority.t) (e : QueuedPacket) :
  silent io ->
  getNextPacket m = Some (row, e) ->
  waitingForAck e = false ->
  transmitAttempts e < MAX_RETRIES ->
  serializePacket (packet e) = None ->
  processQueue m io = (false, inc_transmitErrorCount m).
Proof.
  intros Hrx Hnext Hwait Hatt Hser.
  unfold processQueue. rewrite (LoRaFacts.processIncomingPacket_silent m io Hrx).
  rewrite Hnext, Hwait. cbn [andb].
  replace (transmitAttempts e >=? MAX_RETRIES) with false
    by (symmetry; rewrite Z.geb_leb; apply Z.leb_gt; assumption).
  unfold transmitPacket. rewrite Hser. reflexivity.
Qed.

(** X25.  [sendPacket] queues a packet whatever the length of its payload, but
    [serializePacket] refuses more than 227 payload bytes.  Once such a
    packet is the next one to go, every tick on which nothing is received
    fails on it without counting an attempt: the packet is never removed,
    nothing goes on air, no packet behind it or on a lower level is ever
    sent, and [transmitErrorCount] goes up by one per tick. *)
Theorem oversized_packet_blocks_queue (m : LoRaManager) (row : Priority.t)
  (e : QueuedPacket) (ios : list Radio) :
  getNextPacket m = Some (row, e) ->
  waitingForAck e = false ->
  transmitAttempts e < MAX_RETRIES ->
  (MAX_SERIALIZED_PAYLOAD < length (payload (packet e)))%nat ->
  0 <= transmitErrorCount m < 4294967296 ->
  Forall silent ios ->
  getNextPacket (ticks m ios) = Some (row, e) /\
  (forall p, priorityQueues (ticks m ios) p = priorityQueues m p) /\
  onAir (ticks m ios) = onAir m /\
  transmitErrorCount (ticks m ios)
  = wrap32 (transmitErrorCount m + Z.of_nat (length ios)).
Proof.
  intros Hnext Hwait Hatt Hbig Hcount Hall.
  pose proof (serializePacket_oversized (packet e) Hbig) as Hser.
  revert m Hnext Hcount. induction Hall as [|io ios Hrx _ IH]; intros m Hnext Hcount.
  - cbn. repeat split; try assumption; try reflexivity.
    unfold wrap32. rewrite Z.add_0_r, Z.mod_small; [reflexivity | assumption].
  - cbn [ticks fold_left length].
    rewrite (processQueue_unserializable m io row e) by assumption.
    cbn [snd].
    destruct (IH (inc_transmitErrorCount m) Hnext) as (H1 & H2 & H3 & H4).
    { cbn [inc_transmitErrorCount transmitErrorCount]. unfold wrap32.
      apply Z.mod_pos_bound. lia. }
    repeat split; try assumption.
    unfold ticks in H4. rewrite H4.
    cbn [inc_transmitErrorCount transmitErrorCount]. unfold wrap32.
    rewrite Zplus_mod_idemp_l. f_equal. lia.
Qed.

(** 228 bytes handed to [sendTelemetry] and a status frame behind them:
    after a hundred ticks nothing has been sent. *)
Lemma oversized_packet_blocks_queue_witness :
  onAir (ticks oversizedQueued (repeat (quietRadio 5000 true) 100)) = [] /\
  transmitErrorCount (ticks oversizedQueued (repeat (quietRadio 5000 true) 100)) = 100 /\
  length (priorityQueues (ticks oversizedQueued (repeat (quietRadio 5000 true) 100))
            Priority.STATUS) = 1%nat.
Proof.
  destruct (oversized_packet_blocks_queue oversizedQueued Priority.TELEMETRY
              (mkQueued (createPacket (PacketType.code PacketType.TELEMETRY)
                           (repeat 0 228) (repeat 0 12))
                 Priority.TELEMETRY 0 0 0 false)
              (repeat (quietRadio 5000 true) 100)) as (_ & Hq & Ha & Hc).
  - vm_compute. reflexivity.
  - reflexivity.
  - vm_compute. reflexivity.
  - vm_compute. lia.
  - vm_compute. split; [discriminate | reflexivity].
  - apply Forall_forall. intros io Hio. apply repeat_spec in Hio. subst io.
    reflexivity.
  - rewrite Hq, Ha, Hc. repeat split; vm_compute; reflexivity.
Defined.

End LoRaOpsFacts.
